(** * primesieve: the post-sieve segment processor (soe::PrimeNumberFinder)

    A shallow embedding of [src/soe/PrimeNumberFinder.cpp]: the k-tuplet
    bitmask table, the construction of the per-byte lookup tables
    ([initCounts]), the counting path ([count]), the generation path
    ([generate]) and the entry point [segmentProcessed].

    Conventions.
    - [uint8_t] is [Byte.byte]; [u8] gives its value.
    - [uint_t], [uint64_t] and [uint32_t] are [Z] with the wrap-around
      written out ([wrap]).  The typedef of [uint_t] is in a header that is
      not part of the sources at hand, so its width [UINT_BITS] is a
      parameter of the development.
    - Reads outside an array are undefined behaviour in the source; the
      embedding returns [None] there, and the theorems show that the
      calls the sieve makes return [Some].
    - The console, the callbacks, the lock and the status hook are
      observed through a trace of [event]s.
    - The sieve engine that fills the segments is not part of the sources
      at hand; what it hands over is stated as [engine_segment]. *)

From Stdlib Require Import ZArith List Lia Bool String Ascii Decimal DecimalString Sorted.
From Stdlib.Strings Require Import Byte.
From stdpp Require Import base list option.

Open Scope Z_scope.

(** ** Machine integers and bytes *)

(** Reduction of [x] to an unsigned integer of [bits] bits. *)
Definition wrap (bits x : Z) : Z := x mod 2 ^ bits.

Definition uint64_t (x : Z) : Z := wrap 64 x.

(** Value of a [uint8_t]. *)
Definition u8 (b : byte) : Z := Z.of_N (Byte.to_N b).

(** The bit-by-bit reference counter: the number of 1 bits among the [n]
    low bits of [x], one [testbit] at a time. *)
Fixpoint ones (n : nat) (x : Z) : Z :=
  match n with
  | O => 0
  | S n' => ones n' x + Z.b2z (Z.testbit x (Z.of_nat n'))
  end.

(** Reference population count of a byte sequence. *)
Fixpoint reference_popcount (s : list byte) : Z :=
  match s with
  | [] => 0
  | b :: s' => ones 8 (u8 b) + reference_popcount s'
  end.

(** Reference population count of a sequence of 64-bit words. *)
Fixpoint reference_popcount64 (data : list Z) : Z :=
  match data with
  | [] => 0
  | w :: data' => ones 64 w + reference_popcount64 data'
  end.

(** [reinterpret_cast<const uint64_t*>(sieve)]: the byte array read as
    64-bit words (least significant byte first, as on the little-endian
    targets of primesieve; the population count does not depend on the
    byte order). *)
Fixpoint le_word (bs : list byte) : Z :=
  match bs with
  | [] => 0
  | b :: bs' => u8 b + 256 * le_word bs'
  end.

Fixpoint words64 (n : nat) (bs : list byte) : list Z :=
  match n with
  | O => []
  | S n' => le_word (take 8 bs) :: words64 n' (drop 8 bs)
  end.

Definition reinterpret_uint64 (sieve : list byte) : list Z :=
  words64 (length sieve / 8)%nat sieve.

(** Decimal text of an unsigned value, as [operator<<] prints it. *)
Definition dec (x : Z) : string := NilZero.string_of_uint (N.to_uint (Z.to_N x)).

(** The newline character, as a string. *)
Definition nl : string := String "010"%char EmptyString.

(** No newline among the characters of [s]. *)
Fixpoint one_line (s : string) : Prop :=
  match s with
  | EmptyString => True
  | String c s' => c <> "010"%char /\ one_line s'
  end.

(** ** Counted loops

    [for (uint_t i = lo; i < hi; i++) body], threading the state [St]
    and stopping at the first undefined step. *)
Fixpoint for_loop {St : Type} (n : nat) (i : Z) (body : Z -> St -> option St)
    (s : St) : option St :=
  match n with
  | O => Some s
  | S n' => s' ← body i s; for_loop n' (i + 1) body s'
  end.

Definition for_range {St : Type} (lo hi : Z) (body : Z -> St -> option St)
    (s : St) : option St :=
  for_loop (Z.to_nat (hi - lo)) lo body s.

(** ** The PrimeSieve object

    Modelled from the spec: [PrimeSieve.h] is not among the sources.  The
    flags are the ones [PrimeNumberFinder.cpp] names; [COUNT i] and
    [PRINT i] are [COUNT_PRIMES << i] and [PRINT_PRIMES << i] (index 0
    primes, 1 twins, ..., 6 septuplets), and [STATUS] stands for what
    [isStatus()] tests. *)
Inductive Flag : Type :=
| COUNT (i : Z)
| PRINT (i : Z)
| CALLBACK32_PRIMES
| CALLBACK64_PRIMES
| CALLBACK32_OOP_PRIMES
| CALLBACK64_OOP_PRIMES
| STATUS.

Definition PRIMES : Z := 0.
Definition TWINS : Z := 1.
Definition SEPTUPLETS : Z := 6.

Record PrimeSieve : Type := mkPrimeSieve {
  getStart : Z;
  getStop : Z;
  getPreSieve : Z;
  getSieveSize : Z;
  flags_ : Flag -> bool;
  obj_ : Z;
  counts_ : list Z
}.

(** [ps.isFlag(flag)] *)
Definition isFlag (ps : PrimeSieve) (flag : Flag) : bool := flags_ ps flag.

(** [ps.isFlag(first, last)]: some flag of the range is set. *)
Definition isFlag_range (ps : PrimeSieve) (kind : Z -> Flag) (first last : Z) : bool :=
  existsb (fun i => flags_ ps (kind i)) (seqZ first (last - first + 1)).

(** [ps.isCount(i)] and [ps.isPrint(i)] *)
Definition isCount (ps : PrimeSieve) (i : Z) : bool := isFlag ps (COUNT i).
Definition isPrint (ps : PrimeSieve) (i : Z) : bool := isFlag ps (PRINT i).

(** [ps.isCount()]: some count kind is requested. *)
Definition isCount_any (ps : PrimeSieve) : bool := isFlag_range ps COUNT PRIMES SEPTUPLETS.

(** [ps.isGenerate()]: a callback or a print mode is requested. *)
Definition isGenerate (ps : PrimeSieve) : bool :=
  isFlag ps CALLBACK32_PRIMES || isFlag ps CALLBACK64_PRIMES ||
  isFlag ps CALLBACK32_OOP_PRIMES || isFlag ps CALLBACK64_OOP_PRIMES ||
  isFlag_range ps PRINT PRIMES SEPTUPLETS.

(** [ps.isStatus()] *)
Definition isStatus (ps : PrimeSieve) : bool := isFlag ps STATUS.

Definition set_counts (ps : PrimeSieve) (c : list Z) : PrimeSieve :=
  mkPrimeSieve (getStart ps) (getStop ps) (getPreSieve ps) (getSieveSize ps)
    (flags_ ps) (obj_ ps) c.

(** [ps.counts_[i] += delta] on the 64-bit accumulators. *)
Definition add_count (ps : PrimeSieve) (i delta : Z) : option PrimeSieve :=
  c ← counts_ ps !! Z.to_nat i;
  Some (set_counts ps (<[Z.to_nat i := uint64_t (c + delta)]> (counts_ ps))).

(** ** Observable effects *)
Inductive event : Type :=
| Lock                             (* PrimeSieve::LockGuard constructed *)
| Unlock                           (* PrimeSieve::LockGuard destroyed *)
| Cout (text : string)             (* one insertion into std::cout *)
| Callback32 (prime : Z)           (* ps_.callback32_(prime) *)
| Callback64 (prime : Z)           (* ps_.callback64_(prime) *)
| Callback32_OOP (prime obj : Z)   (* ps_.callback32_OOP_(prime, ps_.obj_) *)
| Callback64_OOP (prime obj : Z)   (* ps_.callback64_OOP_(prime, ps_.obj_) *)
| UpdateStatus (processed : Z).    (* ps_.updateStatus(processed) *)

(** A value reaches the sink. *)
Definition is_delivery (e : event) : bool :=
  match e with
  | Cout _ | Callback32 _ | Callback64 _ | Callback32_OOP _ _ | Callback64_OOP _ _ => true
  | Lock | Unlock | UpdateStatus _ => false
  end.

Definition is_lock_op (e : event) : bool :=
  match e with
  | Lock | Unlock => true
  | _ => false
  end.

(** [locked_run held tr]: along [tr], started with the lock [held] or not,
    every delivery happens while the calling worker holds the lock, the
    lock is never taken twice and never released when not held. *)
Fixpoint locked_run (held : bool) (tr : list event) : bool :=
  match tr with
  | [] => true
  | Lock :: tr' => negb held && locked_run true tr'
  | Unlock :: tr' => held && locked_run false tr'
  | e :: tr' => (held || negb (is_delivery e)) && locked_run held tr'
  end.

(** ** The sieve base class and the finder *)

(** The arguments the constructor hands to [SieveOfEratosthenes]. *)
Record SieveOfEratosthenes : Type := mkSieveOfEratosthenes {
  start_ : Z;
  stop_ : Z;
  preSieve_ : Z;
  sieveSize_ : Z
}.

Record PrimeNumberFinder : Type := mkPrimeNumberFinder {
  base : SieveOfEratosthenes;
  ps_ : PrimeSieve;
  kCounts_ : list (list Z)     (* std::vector<uint_t> kCounts_[7] *)
}.

Definition set_ps (f : PrimeNumberFinder) (ps : PrimeSieve) : PrimeNumberFinder :=
  mkPrimeNumberFinder (base f) ps (kCounts_ f).

Definition set_kCounts (f : PrimeNumberFinder) (k : list (list Z)) : PrimeNumberFinder :=
  mkPrimeNumberFinder (base f) (ps_ f) k.

(** Position of the lowest set bit of a positive number. *)
Fixpoint lowest_bit (p : positive) : Z :=
  match p with
  | xO p' => 1 + lowest_bit p'
  | _ => 0
  end.

Definition bitScanForward (bits : Z) : Z :=
  match bits with
  | Zpos p => lowest_bit p
  | _ => 0
  end.

(** Positions of the set bits of a positive number, ascending from [pos]. *)
Fixpoint bit_positions (pos : Z) (p : positive) : list Z :=
  match p with
  | xH => [pos]
  | xO p' => bit_positions (pos + 1) p'
  | xI p' => pos :: bit_positions (pos + 1) p'
  end.

Definition set_bits (bits : Z) : list Z :=
  match bits with
  | Zpos p => bit_positions 0 p
  | _ => []
  end.

(** [join sep l]: the items of [l] separated by [sep]. *)
Fixpoint join (sep : string) (l : list string) : string :=
  match l with
  | [] => EmptyString
  | [x] => x
  | x :: l' => x ++ sep ++ join sep l'
  end.

(** ** A concrete platform

    Sample configurations, and instances of what the section below takes
    as parameters because it is not among the sources. *)

(** Flags of a run that counts the kinds in [counts] and prints the kinds
    in [prints]. *)
Definition flags_of (counts prints : list Z) (status : bool) : Flag -> bool :=
  fun flag =>
    match flag with
    | COUNT i => existsb (Z.eqb i) counts
    | PRINT i => existsb (Z.eqb i) prints
    | STATUS => status
    | _ => false
    end.

Definition sample_ps (flags : Flag -> bool) : PrimeSieve :=
  mkPrimeSieve 0 1000 19 32 flags 0 (replicate 7 0).

(** A finder as the constructor sets it up before [initCounts] runs. *)
Definition sample_finder (flags : Flag -> bool) : PrimeNumberFinder :=
  mkPrimeNumberFinder (mkSieveOfEratosthenes 7 1000 19 32) (sample_ps flags)
    (replicate 7 []).

(** Nine bytes: one 64-bit word and one trailing byte. *)
Definition sample_segment : list byte := [x06; xff; x00; x81; x01; x02; x04; x08; x10].

(** Modelled from the spec: the wheel mapping of the sieve engine is not
    among the sources.  An instance for the examples: byte [index] covers
    thirty numbers and its eight bits stand for the residues 7, 11, 13,
    17, 19, 23, 29 and 31. *)
Definition sample_wheel (index pos : Z) : Z :=
  index * 30 + nth (Z.to_nat pos) [7; 11; 13; 17; 19; 23; 29; 31] 0.

(** A mapping that no engine uses for a sieve that starts at 7: the first
    three bits of a byte stand for the residues 2, 3 and 5. *)
Definition unsieved_wheel (index pos : Z) : Z :=
  index * 30 + nth (Z.to_nat pos) [2; 3; 5; 7; 11; 13; 17; 19] 0.

(** Modelled from the spec: [popcount.h] is not among the sources.  An
    instance of the byte-wise count for the examples, Kernighan's loop on
    each byte: clear the lowest set bit until none is left. *)
Fixpoint kernighan (fuel : nat) (x : Z) (n : Z) : Z :=
  match fuel with
  | O => n
  | S fuel' => if x =? 0 then n else kernighan fuel' (Z.land x (x - 1)) (n + 1)
  end.

Definition sample_popcount_kernighan (data : list byte) (size : Z) : Z :=
  fold_left (fun n b => n + kernighan 8 (u8 b) 0) (take (Z.to_nat size) data) 0.

(** Modelled from the spec: [popcount.h] is not among the sources.  An
    instance of the 64-bit count for the examples, a reduction of fixed
    cost on each word: three mask-and-add steps, then one multiplication
    that sums the eight bytes. *)
Definition popcount64 (x : Z) : Z :=
  let x := x - Z.land (Z.shiftr x 1) 0x5555555555555555 in
  let x := Z.land x 0x3333333333333333 + Z.land (Z.shiftr x 2) 0x3333333333333333 in
  let x := Z.land (x + Z.shiftr x 4) 0x0F0F0F0F0F0F0F0F in
  Z.shiftr (wrap 64 (x * 0x0101010101010101)) 56.

Definition sample_popcount_lauradoux (data : list Z) (size : Z) : Z :=
  fold_left (fun n w => n + popcount64 w) (take (Z.to_nat size) data) 0.

(** The value of a sequence of bytes, least significant first, and the
    mask that repeats the byte [c]. *)
Fixpoint bytes_value (l : list Z) : Z :=
  match l with
  | [] => 0
  | u :: l' => u + 256 * bytes_value l'
  end.

Fixpoint rep (n : nat) (c : Z) : Z :=
  match n with
  | O => 0
  | S n' => c + 256 * rep n' c
  end.

(** The three mask-and-add steps of [popcount64] on a single byte. *)
Definition pairs_step (u : Z) : Z := u - Z.land (Z.shiftr u 1) 0x55.
Definition nibbles_step (u : Z) : Z := Z.land u 0x33 + Z.land (Z.shiftr u 2) 0x33.
Definition byte_step (u : Z) : Z := Z.land (u + Z.shiftr u 4) 0x0F.

Definition is_byte (u : Z) : Prop := 0 <= u < 256.
Definition small_nibbles (u : Z) : Prop := 0 <= u < 256 /\ u mod 16 <= 4 /\ u / 16 <= 4.

(** ** PrimeNumberFinder *)

Section PrimeNumberFinder.

(** Width of [uint_t]; C guarantees at least sixteen bits. *)
Variable UINT_BITS : Z.
Hypothesis UINT_BITS_min : 16 <= UINT_BITS.

Definition uint_t (x : Z) : Z := wrap UINT_BITS x.

(** The sentinel that ends a row of bitmasks.  Its value is declared in
    [PrimeNumberFinder.h]; the spec asks for a value no byte can reach. *)
Variable END : Z.
Hypothesis END_sentinel : 255 < END.

(** Numbers covered by one byte of the sieve array
    ([SieveOfEratosthenes.h]). *)
Variable NUMBERS_PER_BYTE : Z.

(** The population counts of [popcount.h], black boxes with the contract
    the spec states for them: the number of 1 bits of the first [size]
    items, whenever that number fits [uint_t]. *)
Variable popcount_lauradoux : list Z -> Z -> Z.
Variable popcount_kernighan : list byte -> Z -> Z.

Hypothesis popcount_lauradoux_spec : forall (data : list Z) (size : Z),
  0 <= size <= Z.of_nat (length data) ->
  Forall (fun w => 0 <= w < 2 ^ 64) data ->
  64 * size < 2 ^ UINT_BITS ->
  popcount_lauradoux data size = reference_popcount64 (take (Z.to_nat size) data).

Hypothesis popcount_kernighan_spec : forall (data : list byte) (size : Z),
  0 <= size <= Z.of_nat (length data) ->
  8 * size < 2 ^ UINT_BITS ->
  popcount_kernighan data size = reference_popcount (take (Z.to_nat size) data).

(** The sieve engine's wheel mapping: the number that bit [pos] of byte
    [index] (a [uint_t]) of the current segment stands for.  The numbers
    fit 64 bits and, within a byte, ascend with the bit position. *)
Variable wheel : Z -> Z -> Z.

Hypothesis wheel_range : forall index pos : Z,
  0 <= index < 2 ^ UINT_BITS -> 0 <= pos < 8 -> 0 <= wheel index pos < 2 ^ 64.

Hypothesis wheel_ascending : forall index p q : Z,
  0 <= p < q -> q < 8 -> wheel index p < wheel index q.

(** Bit patterns corresponding to prime k-tuplets:
    [const uint_t kTupletBitmasks_[7][5]], the rows filled up with zeros
    as C++ does for a short initializer. *)
Definition kTupletBitmasks_ : list (list Z) :=
  [ [END; 0; 0; 0; 0];
    [0x06; 0x18; 0xc0; END; 0];        (* Twin primes *)
    [0x07; 0x0e; 0x1c; 0x38; END];     (* Prime triplets *)
    [0x1e; END; 0; 0; 0];              (* Prime quadruplets *)
    [0x1f; 0x3e; END; 0; 0];           (* Prime quintuplets *)
    [0x3f; END; 0; 0; 0];              (* Prime sextuplets *)
    [0xfe; END; 0; 0; 0] ].            (* Prime septuplets *)

(** The patterns of a row: its entries before the sentinel. *)
Fixpoint patterns_of (row : list Z) : list Z :=
  match row with
  | [] => []
  | p :: row' => if p =? END then [] else p :: patterns_of row'
  end.

Definition TupletPatternTable (k : Z) : list Z :=
  patterns_of (default [] (kTupletBitmasks_ !! Z.to_nat k)).

(** [p] is a bitwise submask of [j]: [(j & p) == p]. *)
Definition submask (j p : Z) : bool := Z.land j p =? p.

(** Brute force: the patterns of kind [k] contained in the byte value [j]. *)
Definition matches (k j : Z) : list Z := filter (fun p => submask j p = true) (TupletPatternTable k).

Definition brute_force_count (k j : Z) : Z := Z.of_nat (length (matches k j)).

(** The scan of [initCounts]:
    [for (b = kTupletBitmasks_[i]; *b <= j; b++) if ((j & *b) == *b) bitmaskCount++;] *)
Fixpoint scan_bitmasks (b : list Z) (j bitmaskCount : Z) : option Z :=
  match b with
  | [] => None
  | p :: b' =>
      if p <=? j
      then scan_bitmasks b' j (if submask j p then uint_t (bitmaskCount + 1) else bitmaskCount)
      else Some bitmaskCount
  end.

(** [kCounts_[i][j] = v] *)
Definition store_kCount (kCounts : list (list Z)) (i j v : Z) : option (list (list Z)) :=
  row ← kCounts !! Z.to_nat i;
  if j <? Z.of_nat (length row)
  then Some (<[Z.to_nat i := <[Z.to_nat j := v]> row]> kCounts)
  else None.

(** Initialize the lookup tables needed to count prime k-tuplets
    (twin primes, prime triplets, ...) per byte. *)
Definition initCounts (f : PrimeNumberFinder) : option PrimeNumberFinder :=
  for_range 1 7 (fun i f =>
    if isCount (ps_ f) i then
      row ← kCounts_ f !! Z.to_nat i;
      let table := resize 256 0 row in                      (* kCounts_[i].resize(256) *)
      let f := set_kCounts f (<[Z.to_nat i := table]> (kCounts_ f)) in
      for_range 0 (Z.of_nat (length table)) (fun j f =>     (* j < kCounts_[i].size() *)
        b ← kTupletBitmasks_ !! Z.to_nat i;
        bitmaskCount ← scan_bitmasks b j 0;
        kCounts ← store_kCount (kCounts_ f) i j bitmaskCount;
        Some (set_kCounts f kCounts)) f
    else Some f) f.

(** The constructor:
    [SieveOfEratosthenes(std::max<uint64_t>(7, ps.getStart()), ps.getStop(),
    ps.getPreSieve(), ps.getSieveSize()), ps_(ps)], then [initCounts] when
    some k-tuplet count is requested. *)
Definition new_PrimeNumberFinder (ps : PrimeSieve) : option PrimeNumberFinder :=
  let f := mkPrimeNumberFinder
             (mkSieveOfEratosthenes (Z.max 7 (uint64_t (getStart ps))) (getStop ps)
                (getPreSieve ps) (getSieveSize ps))
             ps (replicate 7 []) in
  if isFlag_range ps COUNT TWINS SEPTUPLETS then initCounts f else Some f.

(** The prime count of a segment, lines 113-119 of the source. *)
Definition count_primes (sieve : list byte) (sieveSize : Z) : Z :=
  let sieve64 := reinterpret_uint64 sieve in
  let size64 := sieveSize / 8 in
  let bytesLeft := sieveSize mod 8 in
  let primeCount := uint_t (popcount_lauradoux sieve64 size64) in
  if 0 <? bytesLeft
  then uint_t (primeCount +
               popcount_kernighan (drop (Z.to_nat (sieveSize - bytesLeft)) sieve) bytesLeft)
  else primeCount.

(** The k-tuplet count of kind [i] of a segment, lines 127-129. *)
Definition count_kTuplets (kCounts : list (list Z)) (i : Z) (sieve : list byte)
    (sieveSize : Z) : option Z :=
  for_range 0 sieveSize (fun j kCount =>
    b ← sieve !! Z.to_nat j;
    table ← kCounts !! Z.to_nat i;
    c ← table !! Z.to_nat (u8 b);
    Some (uint_t (kCount + c))) 0.

(** Count the primes and prime k-tuplets within the current segment. *)
Definition count (f : PrimeNumberFinder) (sieve : list byte) (sieveSize : Z)
    : option PrimeNumberFinder :=
  ps ← (if isFlag (ps_ f) (COUNT PRIMES)
        then add_count (ps_ f) 0 (count_primes sieve sieveSize)
        else Some (ps_ f));
  ps ← for_range 1 7 (fun i ps =>
          if isCount ps i then
            kCount ← count_kTuplets (kCounts_ f) i sieve sieveSize;
            add_count ps i kCount
          else Some ps) ps;
  Some (set_ps f ps).

(** Modelled from the spec: [getNextPrime] ([SieveOfEratosthenes-inline.h])
    is not among the sources.  It converts the next set bit of [bits],
    the lowest one, to the number it stands for through the wheel mapping,
    as an unsigned integer of [T] bits, and clears that bit. *)
Definition getNextPrime (T : Z) (index bits : Z) : Z * Z :=
  (wrap T (wheel index (bitScanForward bits)), Z.land bits (bits - 1)).

(** The loop that fills one record,
    [while (bits != 0) { kTuplet << getNextPrime<uint64_t>(j, &bits);
                         kTuplet << (bits != 0 ? ", " : ")\n"); }].
    Each turn clears a bit, so a fuel of [bits] turns is never used up
    ([format_kTuplet_spec]). *)
Fixpoint format_kTuplet (fuel : nat) (j bits : Z) (kTuplet : string) : option string :=
  if bits =? 0 then Some kTuplet else
  match fuel with
  | O => None
  | S fuel' =>
      let '(prime, bits) := getNextPrime 64 j bits in
      let kTuplet := (kTuplet ++ dec prime)%string in
      let separator := if negb (bits =? 0) then ", "%string else (")" ++ nl)%string in
      let kTuplet := (kTuplet ++ separator)%string in
      format_kTuplet fuel' j bits kTuplet
  end.

(** The scan of [generate] over the bitmasks of one byte,
    [for (bitmask = kTupletBitmasks_[i]; *bitmask <= sieve[j]; bitmask++)]. *)
Fixpoint print_bitmasks (bitmask : list Z) (j sieve_j : Z) (out : list event)
    : option (list event) :=
  match bitmask with
  | [] => None
  | p :: bitmask' =>
      if p <=? sieve_j then
        out ← (if submask sieve_j p
               then kTuplet ← format_kTuplet (Z.to_nat p) j p "(";
                    Some (out ++ [Cout kTuplet])
               else Some out);
        print_bitmasks bitmask' j sieve_j out
      else Some out
  end.

(** [for (; !ps_.isPrint(i); i++) ;].  The search gives up after the last
    kind, where the source would go on with flags that are no print
    flags; [generate] runs it only when some kind is to be printed, and
    then it returns ([first_print_spec]). *)
Fixpoint first_print (fuel : nat) (ps : PrimeSieve) (i : Z) : option Z :=
  if isPrint ps i then Some i else
  match fuel with
  | O => None
  | S fuel' => first_print fuel' ps (i + 1)
  end.

(** The sinks of the single-value mode. *)
Definition callback32_ (prime : Z) : list event := [Callback32 prime].
Definition callback64_ (prime : Z) : list event := [Callback64 prime].
Definition callback32_OOP (ps : PrimeSieve) (prime : Z) : list event :=
  [Callback32_OOP prime (obj_ ps)].
Definition callback64_OOP (ps : PrimeSieve) (prime : Z) : list event :=
  [Callback64_OOP prime (obj_ ps)].
(** [std::cout << prime << '\n';] *)
Definition print (prime : Z) : list event := [Cout (dec prime); Cout nl].

(** Modelled from the spec: the macro [GENERATE_PRIMES] ([GENERATE.h]) is
    not among the sources.  For each set bit across the segment, in
    ascending order, it converts the bit to its number and hands it to
    the callback. *)
Fixpoint callback_bits (fuel : nat) (callback : Z -> list event) (T : Z) (j bits : Z)
    (out : list event) : option (list event) :=
  if bits =? 0 then Some out else
  match fuel with
  | O => None
  | S fuel' =>
      let '(prime, bits) := getNextPrime T j bits in
      callback_bits fuel' callback T j bits (out ++ callback prime)
  end.

Definition GENERATE_PRIMES (callback : Z -> list event) (T : Z) (sieve : list byte)
    (sieveSize : Z) (out : list event) : option (list event) :=
  for_range 0 sieveSize (fun j out =>
    b ← sieve !! Z.to_nat j;
    callback_bits (Z.to_nat (u8 b)) callback T j (u8 b) out) out.

(** Generate the primes or prime k-tuplets (twin primes, prime triplets,
    ...) within the current segment. *)
Definition generate (f : PrimeNumberFinder) (sieve : list byte) (sieveSize : Z)
    : option (list event) :=
  let ps := ps_ f in
  if isFlag_range ps PRINT TWINS SEPTUPLETS then
    (* print prime k-tuplets to std::cout *)
    i ← first_print 5 ps 1;
    for_range 0 sieveSize (fun j out =>
      b ← sieve !! Z.to_nat j;
      bitmask ← kTupletBitmasks_ !! Z.to_nat i;
      print_bitmasks bitmask j (u8 b) out) []
  else
    (* only one thread at a time calls back primes *)
    let out := [Lock] in
    out ← (if isFlag ps CALLBACK32_PRIMES
           then GENERATE_PRIMES callback32_ 32 sieve sieveSize out else Some out);
    out ← (if isFlag ps CALLBACK64_PRIMES
           then GENERATE_PRIMES callback64_ 64 sieve sieveSize out else Some out);
    out ← (if isFlag ps CALLBACK32_OOP_PRIMES
           then GENERATE_PRIMES (callback32_OOP ps) 32 sieve sieveSize out else Some out);
    out ← (if isFlag ps CALLBACK64_OOP_PRIMES
           then GENERATE_PRIMES (callback64_OOP ps) 64 sieve sieveSize out else Some out);
    out ← (if isFlag ps (PRINT PRIMES)
           then GENERATE_PRIMES print 64 sieve sieveSize out else Some out);
    Some (out ++ [Unlock]).

(** Executed after each sieved segment, generates and counts the primes
    (1 bits within sieve array) within the interval
    [[segmentLow_, segmentHigh_]]. *)
Definition segmentProcessed (f : PrimeNumberFinder) (sieve : list byte) (sieveSize : Z)
    : option (PrimeNumberFinder * list event) :=
  f ← (if isCount_any (ps_ f) then count f sieve sieveSize else Some f);
  out ← (if isGenerate (ps_ f) then generate f sieve sieveSize else Some []);
  let out := if isStatus (ps_ f)
             then out ++ [UpdateStatus (uint_t (sieveSize * NUMBERS_PER_BYTE))]
             else out in
  Some (f, out).


(** ** What the lookup tables must hold *)

(** [kCounts] has a 256-entry table for kind [k] whose entry [j] is the
    brute-force count of the patterns of kind [k] in the byte value [j]. *)
Definition table_of (kCounts : list (list Z)) (k : Z) : Prop :=
  exists table : list Z,
    kCounts !! Z.to_nat k = Some table /\
    length table = 256%nat /\
    forall j : Z, 0 <= j <= 255 -> table !! Z.to_nat j = Some (brute_force_count k j).

Definition tables_built (ps : PrimeSieve) (kCounts : list (list Z)) : Prop :=
  length kCounts = 7%nat /\
  forall k : Z, 1 <= k <= 6 -> isCount ps k = true -> table_of kCounts k.

(** The pairs of a byte position and a pattern of kind [k] contained in
    the byte at that position: the occurrences of kind [k] in a segment. *)
Fixpoint count_occurrences (k : Z) (s : list byte) : Z :=
  match s with
  | [] => 0
  | b :: s' => Z.of_nat (length (matches k (u8 b))) + count_occurrences k s'
  end.

(** The sum of the table entries of the bytes of a segment. *)
Fixpoint table_sum (table : list Z) (s : list byte) : Z :=
  match s with
  | [] => 0
  | b :: s' => default 0 (table !! Z.to_nat (u8 b)) + table_sum table s'
  end.

(** The k-tuplet count of kind [k] as [count] accumulates it from the
    table entries, in [uint_t] arithmetic. *)
Definition kTuplet_delta (k : Z) (s : list byte) : Z :=
  fold_left (fun kCount b => uint_t (kCount + brute_force_count k (u8 b))) s 0.

(** What [count] adds to accumulator [i] for the first [n] bytes; the
    flags have no part in it. *)
Definition count_delta (i : Z) (sieve : list byte) (n : Z) : Z :=
  if i =? 0 then count_primes sieve n else kTuplet_delta i (take (Z.to_nat n) sieve).

(** The exact counts: the 1 bits and the occurrences of kind [i] in the
    first [n] bytes. *)
Definition expected_delta (i : Z) (sieve : list byte) (n : Z) : Z :=
  if i =? 0 then reference_popcount (take (Z.to_nat n) sieve)
  else count_occurrences i (take (Z.to_nat n) sieve).

(** The accumulators [uint64_t counts_[7]] of a PrimeSieve object. *)
Definition counts_ok (ps : PrimeSieve) : Prop :=
  length (counts_ ps) = 7%nat /\ Forall (fun c => 0 <= c < 2 ^ 64) (counts_ ps).

(** A finder as the constructor leaves it and [count] keeps it: seven
    64-bit accumulators and the tables of the requested kinds. *)
Definition well_formed (f : PrimeNumberFinder) : Prop :=
  counts_ok (ps_ f) /\ tables_built (ps_ f) (kCounts_ f).

(** The bits of [b1] are among the bits of [b2]. *)
Definition bits_subset (b1 b2 : Z) : Prop := Z.land b1 b2 = b1.

(** ** What [generate] must emit *)

(** The numbers of the group that pattern [p] stands for in byte [j], in
    the order of the bit positions. *)
Definition kTuplet_values (j p : Z) : list Z :=
  map (fun pos => wrap 64 (wheel j pos)) (set_bits p).

(** One record: the numbers in decimal, separated by a comma and a blank,
    between parentheses, closed by a newline. *)
Definition kTuplet_record (j p : Z) : string :=
  ("(" ++ join ", " (map dec (kTuplet_values j p)) ++ ")" ++ nl)%string.

(** One record per pattern of kind [k] contained in a byte, byte after
    byte from index [j] on, the patterns of a byte in table order. *)
Fixpoint kTuplet_records (k j : Z) (s : list byte) : list event :=
  match s with
  | [] => []
  | b :: s' => map (fun p => Cout (kTuplet_record j p)) (matches k (u8 b))
               ++ kTuplet_records k (j + 1) s'
  end.

(** One call of [callback] per set bit, byte after byte from index [j]
    on, the bits of a byte from the lowest up. *)
Fixpoint prime_events (callback : Z -> list event) (T j : Z) (s : list byte) : list event :=
  match s with
  | [] => []
  | b :: s' => flat_map (fun pos => callback (wrap T (wheel j pos))) (set_bits (u8 b))
               ++ prime_events callback T (j + 1) s'
  end.

(** The events of the single-value mode between taking and releasing the
    lock: one pass over the segment per enabled sink. *)
Definition single_value_events (ps : PrimeSieve) (s : list byte) : list event :=
  (if isFlag ps CALLBACK32_PRIMES then prime_events callback32_ 32 0 s else []) ++
  (if isFlag ps CALLBACK64_PRIMES then prime_events callback64_ 64 0 s else []) ++
  (if isFlag ps CALLBACK32_OOP_PRIMES then prime_events (callback32_OOP ps) 32 0 s else []) ++
  (if isFlag ps CALLBACK64_OOP_PRIMES then prime_events (callback64_OOP ps) 64 0 s else []) ++
  (if isFlag ps (PRINT PRIMES) then prime_events print 64 0 s else []).

(** ** Workers and the lock

    A schedule is what several workers do, in the order it happens: each
    step is an event of one worker. *)
Definition schedule : Type := list (nat * event).

(** The events of worker [w] in a schedule. *)
Fixpoint project (w : nat) (sched : schedule) : list event :=
  match sched with
  | [] => []
  | (w', e) :: sched' => if Nat.eqb w' w then e :: project w sched' else project w sched'
  end.

(** The lock as a mutual-exclusion primitive: it is taken only when free
    and released only by its owner. *)
Fixpoint mutex_run (owner : option nat) (sched : schedule) : bool :=
  match sched with
  | [] => true
  | (w, Lock) :: sched' =>
      match owner with
      | None => mutex_run (Some w) sched'
      | Some _ => false
      end
  | (w, Unlock) :: sched' =>
      match owner with
      | Some w' => Nat.eqb w w' && mutex_run None sched'
      | None => false
      end
  | _ :: sched' => mutex_run owner sched'
  end.

(** Every value is delivered by the worker that owns the lock at that
    instant; as the lock has one owner at most, no two workers deliver at
    the same time. *)
Fixpoint exclusive (owner : option nat) (sched : schedule) : bool :=
  match sched with
  | [] => true
  | (w, Lock) :: sched' => exclusive (Some w) sched'
  | (w, Unlock) :: sched' => exclusive None sched'
  | (w, e) :: sched' =>
      (negb (is_delivery e) || match owner with Some w' => Nat.eqb w w' | None => false end)
      && exclusive owner sched'
  end.

(** The numbers that the 1 bits of a segment stand for, as values of [T]
    bits: byte after byte from index [j] on, the bits of a byte from the
    lowest up. *)
Fixpoint segment_values (T j : Z) (s : list byte) : list Z :=
  match s with
  | [] => []
  | b :: s' => map (fun pos => wrap T (wheel j pos)) (set_bits (u8 b))
               ++ segment_values T (j + 1) s'
  end.

(** ** What the sieve engine hands over *)

(** Modelled from the spec: the sieve engine ([SieveOfEratosthenes]) is
    not among the sources.  It sieves the interval [[start_, stop_]] that
    the constructor handed to it, and in a segment that it passes to
    [segmentProcessed] every 1 bit among the first [sieveSize] bytes
    stands, through the wheel mapping, for a number of that interval. *)
Definition engine_segment (b : SieveOfEratosthenes) (sieve : list byte) (sieveSize : Z)
    : Prop :=
  forall (j pos : Z) (sieve_j : byte),
    0 <= j < sieveSize -> sieve !! Z.to_nat j = Some sieve_j ->
    0 <= pos < 8 -> Z.testbit (u8 sieve_j) pos = true ->
    start_ b <= wheel j pos <= stop_ b.

(** The groups of numbers of the patterns of kind [k] contained in the
    bytes of a segment, byte after byte from index [j] on, the patterns
    of a byte in table order. *)
Fixpoint kTuplet_groups (k j : Z) (s : list byte) : list (list Z) :=
  match s with
  | [] => []
  | b :: s' => map (kTuplet_values j) (matches k (u8 b)) ++ kTuplet_groups k (j + 1) s'
  end.

(** The text of the record of a group. *)
Definition record_text (group : list Z) : string :=
  ("(" ++ join ", " (map dec group) ++ ")" ++ nl)%string.

(** The events of the sinks of the single-value mode for the numbers
    [primes]: the enabled sinks one after the other, each with every
    number. *)
Definition sink_events (ps : PrimeSieve) (primes : list Z) : list event :=
  (if isFlag ps CALLBACK32_PRIMES
   then map (fun p => Callback32 (wrap 32 p)) primes else []) ++
  (if isFlag ps CALLBACK64_PRIMES
   then map Callback64 primes else []) ++
  (if isFlag ps CALLBACK32_OOP_PRIMES
   then map (fun p => Callback32_OOP (wrap 32 p) (obj_ ps)) primes else []) ++
  (if isFlag ps CALLBACK64_OOP_PRIMES
   then map (fun p => Callback64_OOP p (obj_ ps)) primes else []) ++
  (if isFlag ps (PRINT PRIMES)
   then flat_map (fun p => [Cout (dec p); Cout nl]) primes else []).

(** * Properties *)

(** ** Integers, bytes and loops *)

Lemma wrap_small (bits x : Z) : 0 <= x < 2 ^ bits -> wrap bits x = x.
Proof. intros Hx. unfold wrap. apply Z.mod_small. exact Hx. Qed.

Lemma wrap_range (bits x : Z) : 0 <= bits -> 0 <= wrap bits x < 2 ^ bits.
Proof. intros Hb. unfold wrap. apply Z.mod_pos_bound. apply Z.pow_pos_nonneg; lia. Qed.

Lemma u8_range (b : byte) : 0 <= u8 b < 256.
Proof.
  unfold u8. pose proof (Byte.to_N_bounded b) as Hb. lia.
Qed.

Lemma land_le (j q : Z) : 0 <= j -> Z.land j q <= j.
Proof.
  intros Hj.
  assert (Hd : Z.ldiff (Z.land j q) j = 0).
  { apply Z.bits_inj'. intros n Hn.
    rewrite Z.ldiff_spec, Z.land_spec, Z.bits_0.
    destruct (Z.testbit j n), (Z.testbit q n); reflexivity. }
  apply Z.sub_nocarry_ldiff in Hd.
  assert (0 <= Z.ldiff j (Z.land j q)) by (apply Z.ldiff_nonneg; lia).
  lia.
Qed.

Lemma submask_le (j p : Z) : 0 <= j -> submask j p = true -> 0 <= p <= j.
Proof.
  unfold submask. intros Hj Hp. apply Z.eqb_eq in Hp.
  pose proof (land_le j p Hj) as Hle.
  assert (0 <= Z.land j p) by (apply Z.land_nonneg; lia).
  lia.
Qed.

(** A counted loop keeps an invariant that its body keeps, and returns. *)
Lemma for_loop_invariant {St : Type} (P : Z -> St -> Prop) (body : Z -> St -> option St) :
  forall (n : nat) (i : Z) (s : St),
    P i s ->
    (forall k t, i <= k < i + Z.of_nat n -> P k t ->
                 exists t', body k t = Some t' /\ P (k + 1) t') ->
    exists s', for_loop n i body s = Some s' /\ P (i + Z.of_nat n) s'.
Proof.
  induction n as [|n IH]; intros i s Hs Hbody.
  - exists s. split; [reflexivity|]. replace (i + Z.of_nat 0) with i by lia. exact Hs.
  - simpl for_loop.
    destruct (Hbody i s ltac:(lia) Hs) as (t & Ht & HP).
    rewrite Ht. simpl.
    destruct (IH (i + 1) t HP) as (s' & Hs' & HP').
    { intros k u Hk Hu. apply Hbody; [lia|exact Hu]. }
    exists s'. split; [exact Hs'|].
    replace (i + Z.of_nat (S n)) with (i + 1 + Z.of_nat n) by lia. exact HP'.
Qed.

Lemma for_range_invariant {St : Type} (P : Z -> St -> Prop) (body : Z -> St -> option St)
    (lo hi : Z) (s : St) :
  lo <= hi ->
  P lo s ->
  (forall k t, lo <= k < hi -> P k t -> exists t', body k t = Some t' /\ P (k + 1) t') ->
  exists s', for_range lo hi body s = Some s' /\ P hi s'.
Proof.
  intros Hle Hs Hbody. unfold for_range.
  destruct (for_loop_invariant P body (Z.to_nat (hi - lo)) lo s Hs) as (s' & Hs' & HP).
  { intros k t Hk. apply Hbody. lia. }
  exists s'. split; [exact Hs'|].
  replace hi with (lo + Z.of_nat (Z.to_nat (hi - lo))) by lia. exact HP.
Qed.

(** ** The bitmask table and the early-exit scan *)

Lemma uint_t_small (x : Z) : 0 <= x < 2 ^ 16 -> uint_t x = x.
Proof.
  intros Hx. apply wrap_small.
  assert (2 ^ 16 <= 2 ^ UINT_BITS) by (apply Z.pow_le_mono_r; lia).
  lia.
Qed.

Lemma patterns_of_row (pats pad : list Z) :
  Forall (fun p => p <= 255) pats ->
  patterns_of (pats ++ END :: pad) = pats.
Proof.
  induction 1 as [|p pats Hp _ IH]; simpl.
  - rewrite Z.eqb_refl. reflexivity.
  - destruct (Z.eqb_spec p END) as [->|_]; [lia|]. rewrite IH. reflexivity.
Qed.

(** No pattern above [j] is contained in [j]. *)
Lemma filter_submask_above (j : Z) (l : list Z) :
  0 <= j -> Forall (fun q => j < q) l -> filter (fun p => submask j p = true) l = [].
Proof.
  intros Hj. induction 1 as [|q l Hq _ IH]; [reflexivity|].
  rewrite filter_cons, IH. rewrite decide_False; [reflexivity|].
  intros Hsub. apply submask_le in Hsub; lia.
Qed.

(** On a row of ascending patterns closed by the sentinel, the scan that
    stops at the first entry above [j] counts every pattern contained in
    [j]. *)
Lemma scan_bitmasks_sorted (pats pad : list Z) (j : Z) :
  0 <= j <= 255 ->
  StronglySorted Z.lt pats ->
  forall bitmaskCount : Z,
    0 <= bitmaskCount ->
    bitmaskCount + Z.of_nat (length pats) < 2 ^ 16 ->
    scan_bitmasks (pats ++ END :: pad) j bitmaskCount
    = Some (bitmaskCount + Z.of_nat (length (filter (fun p => submask j p = true) pats))).
Proof.
  intros Hj Hsorted.
  induction Hsorted as [|p pats Hsorted IH Hall]; intros acc Hacc Hfit.
  - simpl. destruct (Z.leb_spec END j); [lia|]. f_equal. lia.
  - simpl app. simpl scan_bitmasks. simpl length in Hfit.
    destruct (Z.leb_spec p j) as [Hle|Hgt].
    + rewrite filter_cons. destruct (submask j p) eqn:Hsub.
      * rewrite decide_True by reflexivity.
        rewrite uint_t_small by lia.
        rewrite IH by lia. simpl length. f_equal. lia.
      * rewrite decide_False by discriminate.
        rewrite IH by lia. reflexivity.
    + replace (filter (fun q => submask j q = true) (p :: pats)) with (@nil Z).
      { f_equal. simpl. lia. }
      symmetry. apply filter_submask_above; [lia|].
      constructor; [lia|].
      eapply Forall_impl; [|exact Hall]. intros q Hq. simpl in Hq. lia.
Qed.

(** Every row of a tuplet kind is a list of ascending byte patterns, the
    sentinel, and padding. *)
Lemma kTupletBitmasks_row (k : Z) :
  1 <= k <= 6 ->
  exists pats pad : list Z,
    kTupletBitmasks_ !! Z.to_nat k = Some (pats ++ END :: pad) /\
    StronglySorted Z.lt pats /\
    Forall (fun p => 0 < p <= 255) pats /\
    (length pats <= 4)%nat.
Proof.
  intros Hk.
  assert (Hcases : k = 1 \/ k = 2 \/ k = 3 \/ k = 4 \/ k = 5 \/ k = 6) by lia.
  destruct Hcases as [->|[->|[->|[->|[->| ->]]]]].
  - exists [0x06; 0x18; 0xc0], [0].
    split; [reflexivity|]. split; [|split; [|simpl; lia]]; repeat constructor; lia.
  - exists [0x07; 0x0e; 0x1c; 0x38], [].
    split; [reflexivity|]. split; [|split; [|simpl; lia]]; repeat constructor; lia.
  - exists [0x1e], [0; 0; 0].
    split; [reflexivity|]. split; [|split; [|simpl; lia]]; repeat constructor; lia.
  - exists [0x1f; 0x3e], [0; 0].
    split; [reflexivity|]. split; [|split; [|simpl; lia]]; repeat constructor; lia.
  - exists [0x3f], [0; 0; 0].
    split; [reflexivity|]. split; [|split; [|simpl; lia]]; repeat constructor; lia.
  - exists [0xfe], [0; 0; 0].
    split; [reflexivity|]. split; [|split; [|simpl; lia]]; repeat constructor; lia.
Qed.

Lemma TupletPatternTable_row (k : Z) (pats pad : list Z) :
  kTupletBitmasks_ !! Z.to_nat k = Some (pats ++ END :: pad) ->
  Forall (fun p => 0 < p <= 255) pats ->
  TupletPatternTable k = pats.
Proof.
  intros Hrow Hpats. unfold TupletPatternTable. rewrite Hrow. simpl.
  apply patterns_of_row. eapply Forall_impl; [|exact Hpats]. simpl. intros p Hp. lia.
Qed.

(** The early-exit scan computes the brute-force count. *)
Lemma scan_bitmasks_brute_force (k j : Z) :
  1 <= k <= 6 -> 0 <= j <= 255 ->
  exists b : list Z,
    kTupletBitmasks_ !! Z.to_nat k = Some b /\
    scan_bitmasks b j 0 = Some (brute_force_count k j).
Proof.
  intros Hk Hj.
  destruct (kTupletBitmasks_row k Hk) as (pats & pad & Hrow & Hsorted & Hpats & Hlen).
  exists (pats ++ END :: pad). split; [exact Hrow|].
  rewrite (scan_bitmasks_sorted pats pad j Hj Hsorted 0) by lia.
  unfold brute_force_count, matches.
  rewrite (TupletPatternTable_row k pats pad Hrow Hpats). reflexivity.
Qed.

Lemma brute_force_count_range (k j : Z) :
  1 <= k <= 6 -> 0 <= brute_force_count k j <= 4.
Proof.
  intros Hk.
  destruct (kTupletBitmasks_row k Hk) as (pats & pad & Hrow & _ & Hpats & Hlen).
  unfold brute_force_count, matches.
  rewrite (TupletPatternTable_row k pats pad Hrow Hpats).
  pose proof (length_filter (fun p => submask j p = true) pats). lia.
Qed.

(** ** The constructor and [initCounts] *)

Lemma isFlag_range_intro (ps : PrimeSieve) (kind : Z -> Flag) (first last k : Z) :
  first <= k <= last -> flags_ ps (kind k) = true -> isFlag_range ps kind first last = true.
Proof.
  intros Hk Hflag. unfold isFlag_range. apply existsb_exists.
  exists k. split; [|exact Hflag].
  apply list_elem_of_In, elem_of_seqZ. lia.
Qed.

Lemma isFlag_range_elim (ps : PrimeSieve) (kind : Z -> Flag) (first last : Z) :
  isFlag_range ps kind first last = true ->
  exists k, first <= k <= last /\ flags_ ps (kind k) = true.
Proof.
  unfold isFlag_range. intros H. apply existsb_exists in H.
  destruct H as (k & Hin & Hflag). exists k. split; [|exact Hflag].
  apply list_elem_of_In, elem_of_seqZ in Hin. lia.
Qed.

(** The inner loop of [initCounts] fills the table of kind [i] and leaves
    the rest of the finder alone. *)
Lemma initCounts_fill (f : PrimeNumberFinder) (i : Z) (table : list Z) :
  1 <= i <= 6 ->
  length (kCounts_ f) = 7%nat ->
  kCounts_ f !! Z.to_nat i = Some table ->
  length table = 256%nat ->
  exists g : PrimeNumberFinder,
    for_range 0 256 (fun j f =>
        b ← kTupletBitmasks_ !! Z.to_nat i;
        bitmaskCount ← scan_bitmasks b j 0;
        kCounts ← store_kCount (kCounts_ f) i j bitmaskCount;
        Some (set_kCounts f kCounts)) f = Some g /\
    base g = base f /\ ps_ g = ps_ f /\
    length (kCounts_ g) = 7%nat /\
    (forall k : nat, k <> Z.to_nat i -> kCounts_ g !! k = kCounts_ f !! k) /\
    table_of (kCounts_ g) i.
Proof.
  intros Hi Hlen Htable Hlen256.
  pose (Q := fun (j : Z) (g : PrimeNumberFinder) =>
    base g = base f /\ ps_ g = ps_ f /\
    length (kCounts_ g) = 7%nat /\
    (forall k : nat, k <> Z.to_nat i -> kCounts_ g !! k = kCounts_ f !! k) /\
    exists t : list Z,
      kCounts_ g !! Z.to_nat i = Some t /\ length t = 256%nat /\
      forall j' : Z, 0 <= j' < j -> t !! Z.to_nat j' = Some (brute_force_count i j')).
  destruct (for_range_invariant Q
    (fun j f =>
        b ← kTupletBitmasks_ !! Z.to_nat i;
        bitmaskCount ← scan_bitmasks b j 0;
        kCounts ← store_kCount (kCounts_ f) i j bitmaskCount;
        Some (set_kCounts f kCounts)) 0 256 f) as (g & Hg & HQ).
  - lia.
  - unfold Q. repeat split; try reflexivity; try assumption.
    exists table. repeat split; try assumption. intros j' Hj'. lia.
  - intros j g Hj (Hbase & Hps & Hl & Hothers & t & Ht & Hlt & Hfilled).
    destruct (scan_bitmasks_brute_force i j Hi ltac:(lia)) as (b & Hb & Hscan).
    rewrite Hb. simpl. rewrite Hscan. simpl.
    unfold store_kCount. rewrite Ht. simpl.
    destruct (Z.ltb_spec j (Z.of_nat (length t))) as [_|Hge]; [|lia].
    simpl. eexists. split; [reflexivity|].
    unfold Q. simpl. repeat split; try assumption.
    + rewrite length_insert. exact Hl.
    + intros k Hk. rewrite list_lookup_insert_ne by congruence. apply Hothers, Hk.
    + exists (<[Z.to_nat j := brute_force_count i j]> t). repeat split.
      * apply list_lookup_insert_eq. lia.
      * rewrite length_insert. exact Hlt.
      * intros j' Hj'. destruct (Z.eq_dec j' j) as [->|Hne].
        -- apply list_lookup_insert_eq. lia.
        -- rewrite list_lookup_insert_ne by lia. apply Hfilled. lia.
  - exists g. split; [exact Hg|].
    destruct HQ as (Hbase & Hps & Hl & Hothers & t & Ht & Hlt & Hfilled).
    repeat split; try assumption.
    exists t. repeat split; try assumption. intros j Hj. apply Hfilled. lia.
Qed.

(** [initCounts] returns, and builds the table of every requested kind. *)
Lemma initCounts_spec (f : PrimeNumberFinder) :
  length (kCounts_ f) = 7%nat ->
  exists g : PrimeNumberFinder,
    initCounts f = Some g /\ base g = base f /\ ps_ g = ps_ f /\
    tables_built (ps_ f) (kCounts_ g).
Proof.
  intros Hempty.
  pose (P := fun (i : Z) (g : PrimeNumberFinder) =>
    base g = base f /\ ps_ g = ps_ f /\
    length (kCounts_ g) = 7%nat /\
    forall k : Z, 1 <= k < i -> isCount (ps_ f) k = true -> table_of (kCounts_ g) k).
  unfold initCounts.
  match goal with |- exists g, for_range 1 7 ?body f = Some g /\ _ =>
    destruct (for_range_invariant P body 1 7 f) as (g & Hg & HP) end.
  - lia.
  - unfold P. repeat split; [exact Hempty|]. intros k Hk. lia.
  - intros i g Hi (Hbase & Hps & Hl & Hdone). rewrite Hps.
    destruct (isCount (ps_ f) i) eqn:Hcount.
    + destruct (lookup_lt_is_Some_2 (kCounts_ g) (Z.to_nat i) ltac:(lia)) as (row & Hrow).
      rewrite Hrow. simpl. rewrite length_resize. change (Z.of_nat 256) with 256.
      destruct (initCounts_fill
                  (set_kCounts g (<[Z.to_nat i := resize 256 0 row]> (kCounts_ g)))
                  i (resize 256 0 row))
        as (h & Hh & Hhbase & Hhps & Hhl & Hhothers & Hhtable).
      * lia.
      * simpl. rewrite length_insert. exact Hl.
      * simpl. apply list_lookup_insert_eq. lia.
      * apply length_resize.
      * exists h. split; [exact Hh|].
        unfold P. simpl in *. repeat split; try congruence.
        intros k Hk Hkc. destruct (Z.eq_dec k i) as [->|Hne]; [exact Hhtable|].
        destruct (Hdone k ltac:(lia) Hkc) as (t & Ht & Hlt & Hfilled).
        exists t. repeat split; try assumption.
        rewrite Hhothers by lia. rewrite list_lookup_insert_ne by lia. exact Ht.
    + exists g. split; [reflexivity|]. unfold P. repeat split; try assumption.
      intros k Hk Hkc. destruct (Z.eq_dec k i) as [->|Hne]; [congruence|].
      apply Hdone; [lia|exact Hkc].
  - exists g. split; [exact Hg|].
    destruct HP as (Hbase & Hps & Hl & Hdone).
    repeat split; try assumption.
    intros k Hk Hkc. apply Hdone; [lia|exact Hkc].
Qed.

(** The constructor returns a finder whose sieve starts at
    [max(7, start)] and whose tables are built. *)
Lemma new_PrimeNumberFinder_spec (ps : PrimeSieve) :
  exists f : PrimeNumberFinder,
    new_PrimeNumberFinder ps = Some f /\
    ps_ f = ps /\
    base f = mkSieveOfEratosthenes (Z.max 7 (uint64_t (getStart ps))) (getStop ps)
               (getPreSieve ps) (getSieveSize ps) /\
    tables_built ps (kCounts_ f).
Proof.
  unfold new_PrimeNumberFinder.
  destruct (isFlag_range ps COUNT TWINS SEPTUPLETS) eqn:Hany.
  - match goal with |- exists f, initCounts ?f0 = Some f /\ _ =>
      destruct (initCounts_spec f0 eq_refl) as (g & Hg & Hbase & Hps & Htables) end.
    exists g. simpl in *. split; [exact Hg|]. split; [exact Hps|]. split; [exact Hbase|].
    exact Htables.
  - eexists. split; [reflexivity|]. simpl. repeat split.
    intros k Hk Hkc. exfalso.
    rewrite (isFlag_range_intro ps COUNT TWINS SEPTUPLETS k) in Hany;
      [discriminate|unfold TWINS, SEPTUPLETS; lia|exact Hkc].
Qed.

(** The patterns of each kind, as the table lists them. *)
Lemma TupletPatternTable_values :
  TupletPatternTable 1 = [0x06; 0x18; 0xc0] /\
  TupletPatternTable 2 = [0x07; 0x0e; 0x1c; 0x38] /\
  TupletPatternTable 3 = [0x1e] /\
  TupletPatternTable 4 = [0x1f; 0x3e] /\
  TupletPatternTable 5 = [0x3f] /\
  TupletPatternTable 6 = [0xfe].
Proof.
  repeat split.
  - apply (TupletPatternTable_row 1 _ [0]); [reflexivity|repeat constructor; lia].
  - apply (TupletPatternTable_row 2 _ []); [reflexivity|repeat constructor; lia].
  - apply (TupletPatternTable_row 3 _ [0; 0; 0]); [reflexivity|repeat constructor; lia].
  - apply (TupletPatternTable_row 4 _ [0; 0]); [reflexivity|repeat constructor; lia].
  - apply (TupletPatternTable_row 5 _ [0; 0; 0]); [reflexivity|repeat constructor; lia].
  - apply (TupletPatternTable_row 6 _ [0; 0; 0]); [reflexivity|repeat constructor; lia].
Qed.

(** C2.  For a requested kind [k] in 1..6 and a byte value [j] in 0..255,
    the entry [kCounts_[k][j]] that [initCounts] builds with its early-exit
    scan is the number of patterns [p] of [kTupletBitmasks_[k]] with
    [(j & p) == p], counted by brute force over all the patterns. *)
Theorem initCounts_brute_force (f : PrimeNumberFinder) (k j : Z) :
  length (kCounts_ f) = 7%nat ->
  1 <= k <= 6 ->
  isCount (ps_ f) k = true ->
  0 <= j <= 255 ->
  exists (g : PrimeNumberFinder) (table : list Z),
    initCounts f = Some g /\
    kCounts_ g !! Z.to_nat k = Some table /\
    table !! Z.to_nat j
    = Some (Z.of_nat (length (filter (fun p => Z.land j p = p) (TupletPatternTable k)))).
Proof.
  intros Hlen Hk Hcount Hj.
  destruct (initCounts_spec f Hlen) as (g & Hg & _ & _ & _ & Htables).
  destruct (Htables k Hk Hcount) as (table & Htable & _ & Hentries).
  exists g, table. split; [exact Hg|]. split; [exact Htable|].
  rewrite (Hentries j Hj). f_equal. unfold brute_force_count, matches. f_equal. f_equal.
  apply list_filter_iff. intros p. unfold submask. apply Z.eqb_eq.
Qed.

(** ** Shape of the tables *)

Lemma brute_force_count_zero (k : Z) : 1 <= k <= 6 -> brute_force_count k 0 = 0.
Proof.
  intros Hk.
  destruct (kTupletBitmasks_row k Hk) as (pats & pad & Hrow & _ & Hpats & _).
  unfold brute_force_count, matches.
  rewrite (TupletPatternTable_row k pats pad Hrow Hpats).
  rewrite filter_submask_above; [reflexivity|lia|].
  eapply Forall_impl; [|exact Hpats]. simpl. intros p Hp. lia.
Qed.

Lemma submask_subset (b1 b2 p : Z) :
  bits_subset b1 b2 -> submask b1 p = true -> submask b2 p = true.
Proof.
  unfold bits_subset, submask. intros Hsub Hp.
  apply Z.eqb_eq in Hp. apply Z.eqb_eq.
  rewrite <- Hp at 1. rewrite <- Hsub.
  rewrite (Z.land_comm b1 b2), Z.land_assoc, Z.land_assoc, Z.land_diag.
  rewrite (Z.land_comm b2 b1), Hsub. exact Hp.
Qed.

Lemma filter_length_mono {A : Type} (P Q : A -> Prop)
    `{!forall x, Decision (P x)} `{!forall x, Decision (Q x)} (l : list A) :
  (forall x, P x -> Q x) -> (length (filter P l) <= length (filter Q l))%nat.
Proof.
  intros HPQ. induction l as [|x l IH]; [reflexivity|].
  rewrite !filter_cons.
  destruct (decide (P x)) as [HP|HP]; destruct (decide (Q x)) as [HQ|HQ]; simpl; try lia.
  exfalso. apply HQ, HPQ, HP.
Qed.

Lemma brute_force_count_mono (k b1 b2 : Z) :
  bits_subset b1 b2 -> brute_force_count k b1 <= brute_force_count k b2.
Proof.
  intros Hsub. unfold brute_force_count, matches.
  apply Nat2Z.inj_le, filter_length_mono.
  intros p. apply submask_subset, Hsub.
Qed.

(** C7.  In the table of every built kind the entry of the byte value 0
    is 0, and a byte value whose set bits contain those of another has an
    entry at least as large. *)
Theorem kCounts_zero_and_monotone (f : PrimeNumberFinder) (k : Z) :
  length (kCounts_ f) = 7%nat ->
  1 <= k <= 6 ->
  isCount (ps_ f) k = true ->
  exists (g : PrimeNumberFinder) (table : list Z),
    initCounts f = Some g /\
    kCounts_ g !! Z.to_nat k = Some table /\
    table !! 0%nat = Some 0 /\
    forall b1 b2 : Z,
      0 <= b1 <= 255 -> 0 <= b2 <= 255 -> bits_subset b1 b2 ->
      exists c1 c2 : Z,
        table !! Z.to_nat b1 = Some c1 /\ table !! Z.to_nat b2 = Some c2 /\ c1 <= c2.
Proof.
  intros Hlen Hk Hcount.
  destruct (initCounts_spec f Hlen) as (g & Hg & _ & _ & _ & Htables).
  destruct (Htables k Hk Hcount) as (table & Htable & _ & Hentries).
  exists g, table. split; [exact Hg|]. split; [exact Htable|]. split.
  - rewrite <- (brute_force_count_zero k Hk). apply (Hentries 0). lia.
  - intros b1 b2 Hb1 Hb2 Hsub.
    exists (brute_force_count k b1), (brute_force_count k b2).
    split; [apply Hentries, Hb1|]. split; [apply Hentries, Hb2|].
    apply brute_force_count_mono, Hsub.
Qed.

(** ** The bit-by-bit reference counter *)

Lemma ones_range (n : nat) (x : Z) : 0 <= ones n x <= Z.of_nat n.
Proof.
  induction n as [|n IH]; simpl ones; [lia|].
  destruct (Z.testbit x (Z.of_nat n)); simpl Z.b2z; lia.
Qed.

Lemma ones_mod (n : nat) (m x : Z) : Z.of_nat n <= m -> ones n (x mod 2 ^ m) = ones n x.
Proof.
  induction n as [|n IH]; intros Hm; simpl ones; [reflexivity|].
  rewrite IH by lia. rewrite Z.mod_pow2_bits_low by lia. reflexivity.
Qed.

Lemma ones_split (n m : nat) (x : Z) :
  ones (n + m) x = ones n x + ones m (x / 2 ^ Z.of_nat n).
Proof.
  induction m as [|m IH].
  - rewrite Nat.add_0_r. simpl ones. lia.
  - rewrite Nat.add_succ_r. simpl ones. rewrite IH.
    rewrite Z.div_pow2_bits by lia.
    replace (Z.of_nat (n + m)) with (Z.of_nat m + Z.of_nat n) by lia. lia.
Qed.

Lemma ones_cons_byte (n : nat) (u w : Z) :
  0 <= u < 256 -> ones (8 + n) (u + 256 * w) = ones 8 u + ones n w.
Proof.
  intros Hu. rewrite ones_split. f_equal.
  - rewrite <- (ones_mod 8 8 (u + 256 * w)) by lia.
    change (2 ^ 8) with 256.
    replace ((u + 256 * w) mod 256) with u; [reflexivity|].
    apply (Z.mod_unique_pos _ _ w); lia.
  - change (2 ^ Z.of_nat 8) with 256.
    replace ((u + 256 * w) / 256) with w; [reflexivity|].
    apply (Z.div_unique_pos _ _ w u); lia.
Qed.

Lemma reference_popcount_app (l1 l2 : list byte) :
  reference_popcount (l1 ++ l2) = reference_popcount l1 + reference_popcount l2.
Proof.
  induction l1 as [|b l1 IH]; cbn [app reference_popcount]; [reflexivity|]. rewrite IH. lia.
Qed.

Lemma reference_popcount_range (l : list byte) :
  0 <= reference_popcount l <= 8 * Z.of_nat (length l).
Proof.
  induction l as [|b l IH]; cbn [reference_popcount length]; [lia|].
  pose proof (ones_range 8 (u8 b)). lia.
Qed.

(** ** The segment read as 64-bit words *)

Lemma le_word_range (bs : list byte) : 0 <= le_word bs < 2 ^ (8 * Z.of_nat (length bs)).
Proof.
  induction bs as [|b bs IH]; simpl le_word; simpl length.
  - simpl. lia.
  - pose proof (u8_range b).
    replace (8 * Z.of_nat (S (length bs))) with (8 + 8 * Z.of_nat (length bs)) by lia.
    rewrite Z.pow_add_r by lia. change (2 ^ 8) with 256. lia.
Qed.

Lemma le_word_ones (bs : list byte) :
  ones (8 * length bs) (le_word bs) = reference_popcount bs.
Proof.
  induction bs as [|b bs IH]; [reflexivity|].
  simpl length. replace (8 * S (length bs))%nat with (8 + 8 * length bs)%nat by lia.
  cbn [le_word reference_popcount].
  rewrite ones_cons_byte by apply u8_range. rewrite IH. reflexivity.
Qed.

Lemma length_words64 (n : nat) (bs : list byte) : length (words64 n bs) = n.
Proof.
  revert bs. induction n as [|n IH]; intros bs; simpl; [reflexivity|]. rewrite IH. reflexivity.
Qed.

Lemma words64_range (n : nat) (bs : list byte) :
  Forall (fun w => 0 <= w < 2 ^ 64) (words64 n bs).
Proof.
  revert bs. induction n as [|n IH]; intros bs; simpl; constructor; [|apply IH].
  pose proof (le_word_range (take 8 bs)) as Hw.
  assert (Hlen : (length (take 8 bs) <= 8)%nat) by (rewrite length_take; lia).
  assert (2 ^ (8 * Z.of_nat (length (take 8 bs))) <= 2 ^ 64)
    by (apply Z.pow_le_mono_r; lia).
  lia.
Qed.

(** The bits of the first [m] words are the bits of the first [8 m] bytes. *)
Lemma words64_popcount (n : nat) :
  forall (bs : list byte) (m : nat),
    (8 * n <= length bs)%nat -> (m <= n)%nat ->
    reference_popcount64 (take m (words64 n bs)) = reference_popcount (take (8 * m) bs).
Proof.
  induction n as [|n IH]; intros bs m Hlen Hm.
  - replace m with O by lia. reflexivity.
  - destruct m as [|m]; [reflexivity|].
    cbn [words64 take reference_popcount64].
    rewrite IH by (rewrite ?length_drop; lia).
    replace (8 * S m)%nat with (8 + 8 * m)%nat by lia.
    rewrite <- (take_take_drop bs 8 (8 * m)), reference_popcount_app. f_equal.
    rewrite <- le_word_ones. rewrite length_take.
    replace (8 * (8 `min` length bs))%nat with 64%nat by lia. reflexivity.
Qed.

(** ** The prime count of a segment *)

Lemma uint_t_fits (x : Z) : 0 <= x < 2 ^ UINT_BITS -> uint_t x = x.
Proof. apply wrap_small. Qed.

Lemma count_primes_exact (sieve : list byte) (n : Z) :
  0 <= n <= Z.of_nat (length sieve) ->
  8 * n < 2 ^ UINT_BITS ->
  count_primes sieve n = reference_popcount (take (Z.to_nat n) sieve).
Proof.
  intros Hn Hfit. unfold count_primes.
  pose proof (Z.div_mod n 8 ltac:(lia)) as Hdm.
  pose proof (Z.mod_pos_bound n 8 ltac:(lia)) as Hmod.
  assert (Hdiv : 0 <= n / 8) by (apply Z.div_pos; lia).
  assert (Hwords : reference_popcount64 (take (Z.to_nat (n / 8)) (reinterpret_uint64 sieve))
                   = reference_popcount (take (8 * Z.to_nat (n / 8)) sieve)).
  { unfold reinterpret_uint64. apply words64_popcount.
    - pose proof (Nat.div_mod_eq (length sieve) 8). lia.
    - apply Nat2Z.inj_le. rewrite Nat2Z.inj_div, Z2Nat.id by lia.
      apply Z.div_le_mono; lia. }
  rewrite popcount_lauradoux_spec; cycle 1.
  { unfold reinterpret_uint64. rewrite length_words64, Nat2Z.inj_div.
    split; [lia|]. apply Z.div_le_mono; lia. }
  { apply words64_range. }
  { lia. }
  rewrite Hwords.
  pose proof (reference_popcount_range (take (8 * Z.to_nat (n / 8)) sieve)) as Hr1.
  rewrite length_take in Hr1.
  rewrite !(uint_t_fits (reference_popcount _)) by lia.
  destruct (Z.ltb_spec 0 (n mod 8)) as [Hleft|Hnone].
  - rewrite popcount_kernighan_spec by (rewrite ?length_drop; lia).
    pose proof (reference_popcount_range
                  (take (Z.to_nat (n mod 8)) (drop (Z.to_nat (n - n mod 8)) sieve))) as Hr2.
    rewrite length_take, length_drop in Hr2.
    rewrite uint_t_fits by lia.
    replace (Z.to_nat (n - n mod 8)) with (8 * Z.to_nat (n / 8))%nat by lia.
    rewrite <- reference_popcount_app, take_take_drop. f_equal. f_equal. lia.
  - f_equal. f_equal. lia.
Qed.

(** ** The k-tuplet counts of a segment *)

Lemma count_occurrences_app (k : Z) (l1 l2 : list byte) :
  count_occurrences k (l1 ++ l2) = count_occurrences k l1 + count_occurrences k l2.
Proof.
  induction l1 as [|b l1 IH]; cbn [app count_occurrences]; [reflexivity|]. rewrite IH. lia.
Qed.

Lemma count_occurrences_range (k : Z) (l : list byte) :
  1 <= k <= 6 -> 0 <= count_occurrences k l <= 4 * Z.of_nat (length l).
Proof.
  intros Hk. induction l as [|b l IH]; cbn [count_occurrences length]; [lia|].
  pose proof (brute_force_count_range k (u8 b) Hk) as Hb.
  unfold brute_force_count in Hb. lia.
Qed.

(** With a built table, the occurrences are the sum of the table entries. *)
Lemma table_sum_occurrences (kCounts : list (list Z)) (k : Z) (table : list Z)
    (s : list byte) :
  table_of kCounts k ->
  kCounts !! Z.to_nat k = Some table ->
  table_sum table s = count_occurrences k s.
Proof.
  intros (t & Ht & _ & Hentries) Htable.
  assert (t = table) as -> by congruence.
  induction s as [|b s IH]; cbn [table_sum count_occurrences]; [reflexivity|].
  rewrite IH. pose proof (u8_range b).
  rewrite (Hentries (u8 b)) by lia. reflexivity.
Qed.

(** The inner loop of [count] returns, and accumulates the table entries
    of the bytes in [uint_t] arithmetic. *)
Lemma count_kTuplets_spec (kCounts : list (list Z)) (k : Z) (sieve : list byte) (n : Z) :
  table_of kCounts k ->
  0 <= n <= Z.of_nat (length sieve) ->
  count_kTuplets kCounts k sieve n = Some (kTuplet_delta k (take (Z.to_nat n) sieve)).
Proof.
  intros (table & Htable & _ & Hentries) Hn. unfold count_kTuplets.
  match goal with |- for_range 0 n ?body 0 = _ =>
    destruct (for_range_invariant
                (fun j kCount => kCount = kTuplet_delta k (take (Z.to_nat j) sieve))
                body 0 n 0) as (kCount & Hloop & HkCount) end.
  - lia.
  - reflexivity.
  - intros j kCount Hj ->.
    destruct (lookup_lt_is_Some_2 sieve (Z.to_nat j) ltac:(lia)) as (b & Hb).
    rewrite Hb, Htable. cbn [mbind option_bind].
    pose proof (u8_range b).
    rewrite (Hentries (u8 b)) by lia. cbn [mbind option_bind].
    eexists. split; [reflexivity|].
    replace (Z.to_nat (j + 1)) with (S (Z.to_nat j)) by lia.
    rewrite (take_S_r sieve (Z.to_nat j) b Hb).
    unfold kTuplet_delta. rewrite fold_left_app. reflexivity.
  - rewrite Hloop, HkCount. reflexivity.
Qed.

(** As long as the count fits [uint_t], it is the number of occurrences. *)
Lemma kTuplet_delta_exact (k : Z) (s : list byte) :
  1 <= k <= 6 ->
  4 * Z.of_nat (length s) < 2 ^ UINT_BITS ->
  kTuplet_delta k s = count_occurrences k s.
Proof.
  intros Hk. unfold kTuplet_delta.
  assert (Hgen : forall kCount : Z,
            0 <= kCount ->
            kCount + 4 * Z.of_nat (length s) < 2 ^ UINT_BITS ->
            fold_left (fun kCount b => uint_t (kCount + brute_force_count k (u8 b))) s kCount
            = kCount + count_occurrences k s).
  { induction s as [|b s IH]; intros kCount Hk0 Hfit; cbn [fold_left count_occurrences length].
    - lia.
    - pose proof (brute_force_count_range k (u8 b) Hk) as Hb.
      cbn [length] in Hfit.
      rewrite uint_t_fits by lia. rewrite IH by lia.
      unfold brute_force_count. lia. }
  intros Hfit. rewrite Hgen by lia. lia.
Qed.

(** ** [count] *)

Lemma add_count_spec (ps : PrimeSieve) (i delta c : Z) :
  counts_ ps !! Z.to_nat i = Some c ->
  add_count ps i delta
  = Some (set_counts ps (<[Z.to_nat i := uint64_t (c + delta)]> (counts_ ps))).
Proof. intros Hc. unfold add_count. rewrite Hc. reflexivity. Qed.

Lemma set_counts_id (ps : PrimeSieve) : set_counts ps (counts_ ps) = ps.
Proof. destruct ps. reflexivity. Qed.

(** [count] returns; every requested accumulator grows by its delta, in
    64-bit arithmetic, and nothing else changes. *)
Lemma count_spec (f : PrimeNumberFinder) (sieve : list byte) (n : Z) :
  well_formed f ->
  0 <= n <= Z.of_nat (length sieve) ->
  exists c' : list Z,
    count f sieve n = Some (set_ps f (set_counts (ps_ f) c')) /\
    length c' = 7%nat /\
    forall i : Z, 0 <= i <= 6 ->
      exists c : Z,
        counts_ (ps_ f) !! Z.to_nat i = Some c /\
        c' !! Z.to_nat i
        = Some (if isCount (ps_ f) i then uint64_t (c + count_delta i sieve n) else c).
Proof.
  intros ((Hlen & _) & _ & Htables) Hn.
  set (ps0 := ps_ f).
  pose (P := fun (i : Z) (ps : PrimeSieve) =>
    exists c' : list Z,
      ps = set_counts ps0 c' /\ length c' = 7%nat /\
      forall i' : Z, 0 <= i' <= 6 ->
        exists c : Z,
          counts_ ps0 !! Z.to_nat i' = Some c /\
          c' !! Z.to_nat i'
          = Some (if (i' <? i) && isCount ps0 i'
                  then uint64_t (c + count_delta i' sieve n) else c)).
  assert (Hfirst : exists ps1,
    (if isFlag ps0 (COUNT PRIMES)
     then add_count ps0 0 (count_primes sieve n) else Some ps0) = Some ps1 /\ P 1 ps1).
  { destruct (lookup_lt_is_Some_2 (counts_ ps0) 0%nat ltac:(fold ps0 in Hlen; lia)) as (c0 & Hc0).
    fold ps0 in Hlen.
    destruct (isFlag ps0 (COUNT PRIMES)) eqn:Hprimes.
    - rewrite (add_count_spec ps0 0 _ c0 Hc0).
      eexists. split; [reflexivity|]. eexists. split; [reflexivity|].
      split; [rewrite length_insert; exact Hlen|].
      intros i Hi. destruct (Z.eq_dec i 0) as [->|Hne].
      + exists c0. split; [exact Hc0|].
        change (isCount ps0 0) with (isFlag ps0 (COUNT PRIMES)). rewrite Hprimes.
        change (Z.to_nat 0) with 0%nat. rewrite list_lookup_insert_eq by lia.
        reflexivity.
      + destruct (lookup_lt_is_Some_2 (counts_ ps0) (Z.to_nat i) ltac:(lia)) as (c & Hc).
        exists c. split; [exact Hc|].
        change (Z.to_nat 0) with 0%nat. rewrite list_lookup_insert_ne by lia.
        destruct (Z.ltb_spec i 1); [lia|]. exact Hc.
    - exists ps0. split; [reflexivity|]. exists (counts_ ps0).
      split; [symmetry; apply set_counts_id|]. split; [exact Hlen|].
      intros i Hi.
      destruct (lookup_lt_is_Some_2 (counts_ ps0) (Z.to_nat i) ltac:(lia)) as (c & Hc).
      exists c. split; [exact Hc|].
      destruct (Z.ltb_spec i 1) as [Hlt|Hge]; [|exact Hc].
      assert (i = 0) as -> by lia.
      change (isCount ps0 0) with (isFlag ps0 (COUNT PRIMES)). rewrite Hprimes. exact Hc. }
  destruct Hfirst as (ps1 & Hps1 & HP1).
  unfold count. fold ps0. rewrite Hps1. cbn [mbind option_bind].
  match goal with |- context [for_range 1 7 ?body ps1] =>
    destruct (for_range_invariant P body 1 7 ps1) as (ps2 & Hloop & HP2) end.
  - lia.
  - exact HP1.
  - intros i ps Hi (c' & -> & Hlen' & Hc').
    change (isCount (set_counts ps0 c') i) with (isCount ps0 i).
    destruct (isCount ps0 i) eqn:Hcount.
    + rewrite (count_kTuplets_spec (kCounts_ f) i sieve n) by
        (first [assumption | apply Htables; [lia|exact Hcount]]).
      cbn [mbind option_bind].
      destruct (Hc' i ltac:(lia)) as (c & Hc & Hci).
      destruct (Z.ltb_spec i i); [lia|]. cbn [andb] in Hci.
      rewrite (add_count_spec (set_counts ps0 c') i _ c Hci).
      eexists. split; [reflexivity|].
      exists (<[Z.to_nat i := uint64_t (c + kTuplet_delta i (take (Z.to_nat n) sieve))]> c').
      split; [reflexivity|].
      split; [rewrite length_insert; exact Hlen'|].
      intros i' Hi'. destruct (Hc' i' Hi') as (ci' & Hci' & Hc'i').
      exists ci'. split; [exact Hci'|].
      destruct (Z.eq_dec i' i) as [->|Hne].
      * rewrite list_lookup_insert_eq by lia.
        destruct (Z.ltb_spec i (i + 1)); [|lia]. rewrite Hcount. cbn [andb].
        assert (ci' = c) as -> by congruence.
        unfold count_delta. destruct (Z.eqb_spec i 0); [lia|]. reflexivity.
      * rewrite list_lookup_insert_ne by lia. rewrite Hc'i'.
        destruct (Z.ltb_spec i' i), (Z.ltb_spec i' (i + 1)); try lia; reflexivity.
    + exists (set_counts ps0 c'). split; [reflexivity|].
      exists c'. split; [reflexivity|]. split; [exact Hlen'|].
      intros i' Hi'. destruct (Hc' i' Hi') as (ci' & Hci' & Hc'i').
      exists ci'. split; [exact Hci'|]. rewrite Hc'i'.
      destruct (Z.eq_dec i' i) as [->|Hne].
      * rewrite Hcount, !andb_false_r. reflexivity.
      * destruct (Z.ltb_spec i' i), (Z.ltb_spec i' (i + 1)); try lia; reflexivity.
  - rewrite Hloop. cbn [mbind option_bind].
    destruct HP2 as (c' & -> & Hlen' & Hc').
    exists c'. split; [reflexivity|]. split; [exact Hlen'|].
    intros i Hi. destruct (Hc' i Hi) as (c & Hc & Hci).
    exists c. split; [exact Hc|]. rewrite Hci.
    destruct (Z.ltb_spec i 7); [|lia]. reflexivity.
Qed.

(** As long as the bit count of the segment fits [uint_t], the deltas
    are the exact counts. *)
Lemma count_delta_exact (i : Z) (sieve : list byte) (n : Z) :
  0 <= i <= 6 ->
  0 <= n <= Z.of_nat (length sieve) ->
  8 * n < 2 ^ UINT_BITS ->
  count_delta i sieve n = expected_delta i sieve n.
Proof.
  intros Hi Hn Hfit. unfold count_delta, expected_delta.
  destruct (Z.eqb_spec i 0) as [_|Hne]; [apply count_primes_exact; assumption|].
  apply kTuplet_delta_exact; [lia|]. rewrite length_take. lia.
Qed.

Lemma uint64_t_range (x : Z) : 0 <= uint64_t x < 2 ^ 64.
Proof. apply wrap_range. lia. Qed.

(** The constructor returns a well-formed finder. *)
Lemma new_PrimeNumberFinder_well_formed (ps : PrimeSieve) :
  counts_ok ps ->
  exists f : PrimeNumberFinder,
    new_PrimeNumberFinder ps = Some f /\ ps_ f = ps /\ well_formed f.
Proof.
  intros Hcounts.
  destruct (new_PrimeNumberFinder_spec ps) as (f & Hf & Hps & _ & Htables).
  exists f. split; [exact Hf|]. split; [exact Hps|].
  unfold well_formed. rewrite Hps. split; assumption.
Qed.

(** [count] keeps the finder well formed. *)
Lemma count_well_formed (f f' : PrimeNumberFinder) (sieve : list byte) (n : Z) :
  well_formed f ->
  0 <= n <= Z.of_nat (length sieve) ->
  count f sieve n = Some f' ->
  well_formed f'.
Proof.
  intros Hwf Hn Hcount.
  destruct (count_spec f sieve n Hwf Hn) as (c' & Hc' & Hlen & Hentries).
  rewrite Hc' in Hcount. injection Hcount as <-.
  destruct Hwf as ((Hlen0 & Hrange) & Htables).
  split; [|exact Htables].
  split; [exact Hlen|]. simpl.
  apply Forall_lookup. intros i c Hi.
  pose proof (lookup_lt_Some _ _ _ Hi) as Hlt.
  destruct (Hentries (Z.of_nat i) ltac:(lia)) as (c0 & Hc0 & Hci).
  rewrite Nat2Z.id in Hc0, Hci. rewrite Hi in Hci. injection Hci as ->.
  destruct (isCount (ps_ f) (Z.of_nat i)); [apply uint64_t_range|].
  rewrite Forall_lookup in Hrange. apply (Hrange i c0 Hc0).
Qed.

(** C1.  For every segment and size, the prime count that [count]
    computes (the 64-bit-word population count of the first [n/8] words
    plus the byte-wise one of the [n mod 8] trailing bytes) is the number
    of 1 bits of the first [n] bytes as the bit-by-bit reference counter
    gives it, and [count] adds exactly that to accumulator 0. *)
Theorem count_primes_reference (f : PrimeNumberFinder) (sieve : list byte) (n : Z) :
  well_formed f ->
  isFlag (ps_ f) (COUNT PRIMES) = true ->
  0 <= n <= Z.of_nat (length sieve) ->
  8 * n < 2 ^ UINT_BITS ->
  count_primes sieve n = reference_popcount (take (Z.to_nat n) sieve) /\
  exists (f' : PrimeNumberFinder) (c : Z),
    count f sieve n = Some f' /\
    counts_ (ps_ f) !! 0%nat = Some c /\
    counts_ (ps_ f') !! 0%nat
    = Some (uint64_t (c + reference_popcount (take (Z.to_nat n) sieve))).
Proof.
  intros Hwf Hprimes Hn Hfit. split; [apply count_primes_exact; assumption|].
  destruct (count_spec f sieve n Hwf Hn) as (c' & Hc' & _ & Hentries).
  destruct (Hentries 0 ltac:(lia)) as (c & Hc & Hc0).
  exists (set_ps f (set_counts (ps_ f) c')), c.
  split; [exact Hc'|]. split; [exact Hc|].
  change (isCount (ps_ f) 0) with (isFlag (ps_ f) (COUNT PRIMES)) in Hc0.
  rewrite Hprimes in Hc0.
  rewrite (count_delta_exact 0 sieve n) in Hc0 by (assumption || lia). exact Hc0.
Qed.

(** C3.  For a requested kind [k] in 1..6, the count of kind [k] that
    [count] computes is the sum of the table entries [kCounts_[k][sieve[j]]]
    over the [n] bytes, which is the number of occurrences of a pattern of
    kind [k] within a byte of the segment, and [count] adds exactly that
    to accumulator [k]. *)
Theorem count_kTuplets_occurrences (f : PrimeNumberFinder) (sieve : list byte) (n k : Z) :
  well_formed f ->
  1 <= k <= 6 ->
  isCount (ps_ f) k = true ->
  0 <= n <= Z.of_nat (length sieve) ->
  8 * n < 2 ^ UINT_BITS ->
  exists (table : list Z) (f' : PrimeNumberFinder) (c : Z),
    kCounts_ f !! Z.to_nat k = Some table /\
    count_kTuplets (kCounts_ f) k sieve n
    = Some (table_sum table (take (Z.to_nat n) sieve)) /\
    table_sum table (take (Z.to_nat n) sieve)
    = count_occurrences k (take (Z.to_nat n) sieve) /\
    count f sieve n = Some f' /\
    counts_ (ps_ f) !! Z.to_nat k = Some c /\
    counts_ (ps_ f') !! Z.to_nat k
    = Some (uint64_t (c + count_occurrences k (take (Z.to_nat n) sieve))).
Proof.
  intros Hwf Hk Hcount Hn Hfit.
  pose proof Hwf as (_ & _ & Htables).
  pose proof (Htables k Hk Hcount) as Htable.
  destruct Htable as (table & Htable & Hrest).
  assert (Hof : table_of (kCounts_ f) k) by (exists table; split; assumption).
  assert (Hexact : kTuplet_delta k (take (Z.to_nat n) sieve)
                   = count_occurrences k (take (Z.to_nat n) sieve)).
  { apply kTuplet_delta_exact; [exact Hk|]. rewrite length_take. lia. }
  destruct (count_spec f sieve n Hwf Hn) as (c' & Hc' & _ & Hentries).
  destruct (Hentries k ltac:(lia)) as (c & Hc & Hck).
  exists table, (set_ps f (set_counts (ps_ f) c')), c.
  rewrite (table_sum_occurrences (kCounts_ f) k table _ Hof Htable).
  split; [exact Htable|].
  split; [rewrite (count_kTuplets_spec _ k sieve n Hof Hn), Hexact; reflexivity|].
  split; [reflexivity|]. split; [exact Hc'|]. split; [exact Hc|].
  rewrite Hcount in Hck. unfold count_delta in Hck.
  destruct (Z.eqb_spec k 0); [lia|]. rewrite Hexact in Hck. exact Hck.
Qed.

(** C8.  Whatever other count kinds are enabled, a kind [i] that is
    enabled gets the same delta: two finders that both count kind [i]
    add the same amount, which the flags have no part in, to accumulator
    [i] on the same segment, and an accumulator whose kind is not enabled
    is left as it is. *)
Theorem count_kinds_independent (f1 f2 : PrimeNumberFinder) (sieve : list byte) (n i : Z) :
  well_formed f1 ->
  well_formed f2 ->
  0 <= i <= 6 ->
  isCount (ps_ f1) i = true ->
  isCount (ps_ f2) i = true ->
  0 <= n <= Z.of_nat (length sieve) ->
  exists (f1' f2' : PrimeNumberFinder) (c1 c2 : Z),
    count f1 sieve n = Some f1' /\
    count f2 sieve n = Some f2' /\
    counts_ (ps_ f1) !! Z.to_nat i = Some c1 /\
    counts_ (ps_ f2) !! Z.to_nat i = Some c2 /\
    counts_ (ps_ f1') !! Z.to_nat i = Some (uint64_t (c1 + count_delta i sieve n)) /\
    counts_ (ps_ f2') !! Z.to_nat i = Some (uint64_t (c2 + count_delta i sieve n)) /\
    forall j : Z, 0 <= j <= 6 -> isCount (ps_ f1) j = false ->
      counts_ (ps_ f1') !! Z.to_nat j = counts_ (ps_ f1) !! Z.to_nat j.
Proof.
  intros Hwf1 Hwf2 Hi Hc1 Hc2 Hn.
  destruct (count_spec f1 sieve n Hwf1 Hn) as (c1' & Hcount1 & _ & Hentries1).
  destruct (count_spec f2 sieve n Hwf2 Hn) as (c2' & Hcount2 & _ & Hentries2).
  destruct (Hentries1 i Hi) as (c1 & Hold1 & Hnew1).
  destruct (Hentries2 i Hi) as (c2 & Hold2 & Hnew2).
  rewrite Hc1 in Hnew1. rewrite Hc2 in Hnew2.
  exists (set_ps f1 (set_counts (ps_ f1) c1')), (set_ps f2 (set_counts (ps_ f2) c2')), c1, c2.
  repeat (split; [assumption|]).
  intros j Hj Hoff. destruct (Hentries1 j Hj) as (c & Hold & Hnew).
  rewrite Hoff in Hnew. simpl. congruence.
Qed.

(** ** Bit scanning *)

Lemma string_app_assoc (s1 s2 s3 : string) :
  ((s1 ++ s2) ++ s3 = s1 ++ (s2 ++ s3))%string.
Proof.
  induction s1 as [|c s1 IH]; cbn [String.append]; [reflexivity|]. rewrite IH. reflexivity.
Qed.

Lemma bit_positions_shift (p : positive) (pos : Z) :
  bit_positions (pos + 1) p = map Z.succ (bit_positions pos p).
Proof.
  revert pos. induction p as [p IH|p IH|]; intros pos; cbn [bit_positions map].
  - rewrite IH. f_equal; lia.
  - apply IH.
  - f_equal; lia.
Qed.

Lemma set_bits_double (z : Z) : 0 <= z -> set_bits (2 * z) = map Z.succ (set_bits z).
Proof.
  intros Hz. destruct z as [|q|q]; [reflexivity| |lia].
  change (2 * Z.pos q) with (Z.pos q~0). cbn [set_bits bit_positions].
  apply (bit_positions_shift q 0).
Qed.

Lemma land_even_odd (a b : Z) : Z.land (2 * a) (2 * b + 1) = 2 * Z.land a b.
Proof.
  apply Z.bits_inj'. intros n Hn.
  rewrite Z.land_spec.
  destruct (Z.eq_dec n 0) as [->|Hne].
  - rewrite !Z.testbit_even_0. reflexivity.
  - replace n with (Z.succ (n - 1)) by lia.
    rewrite !Z.testbit_even_succ, Z.testbit_odd_succ, Z.land_spec by lia. reflexivity.
Qed.

Lemma land_odd_even (a : Z) : Z.land (2 * a + 1) (2 * a) = 2 * a.
Proof.
  apply Z.bits_inj'. intros n Hn.
  rewrite Z.land_spec.
  destruct (Z.eq_dec n 0) as [->|Hne].
  - rewrite Z.testbit_even_0, Z.testbit_odd_0. reflexivity.
  - replace n with (Z.succ (n - 1)) by lia.
    rewrite Z.testbit_even_succ, Z.testbit_odd_succ by lia. apply andb_diag.
Qed.

Lemma land_pred_odd (p : positive) : Z.land (Z.pos p~1) (Z.pos p~1 - 1) = Z.pos p~0.
Proof.
  replace (Z.pos p~1 - 1) with (2 * Z.pos p) by lia.
  rewrite (Pos2Z.inj_xI p), land_odd_even. reflexivity.
Qed.

Lemma land_pred_even (p : positive) :
  Z.land (Z.pos p~0) (Z.pos p~0 - 1) = 2 * Z.land (Z.pos p) (Z.pos p - 1).
Proof.
  replace (Z.pos p~0 - 1) with (2 * (Z.pos p - 1) + 1) by lia.
  rewrite (Pos2Z.inj_xO p). apply land_even_odd.
Qed.

(** Clearing the lowest set bit with [bits & (bits - 1)] removes the
    first of the set bit positions, which [bitScanForward] finds. *)
Lemma set_bits_step (p : positive) :
  set_bits (Z.pos p)
  = bitScanForward (Z.pos p) :: set_bits (Z.land (Z.pos p) (Z.pos p - 1)).
Proof.
  induction p as [p _|p IH|].
  - rewrite land_pred_odd.
    cbn [set_bits bit_positions bitScanForward lowest_bit]. reflexivity.
  - rewrite land_pred_even.
    rewrite set_bits_double by (apply Z.land_nonneg; lia).
    cbn [set_bits bit_positions bitScanForward lowest_bit].
    rewrite (bit_positions_shift p 0).
    change (bit_positions 0 p) with (set_bits (Z.pos p)).
    rewrite IH. cbn [map bitScanForward]. f_equal; lia.
  - reflexivity.
Qed.

Lemma length_bit_positions (p : positive) (pos : Z) :
  (length (bit_positions pos p) <= Pos.to_nat p)%nat.
Proof.
  revert pos. induction p as [p IH|p IH|]; intros pos; cbn [bit_positions length].
  - specialize (IH (pos + 1)). lia.
  - specialize (IH (pos + 1)). lia.
  - lia.
Qed.

Lemma length_set_bits (bits : Z) : (length (set_bits bits) <= Z.to_nat bits)%nat.
Proof.
  destruct bits as [|p|p]; cbn [set_bits length]; [lia| |lia].
  pose proof (length_bit_positions p 0). lia.
Qed.

Lemma bit_positions_sorted (p : positive) (pos : Z) :
  StronglySorted Z.lt (bit_positions pos p) /\ Forall (fun q => pos <= q) (bit_positions pos p).
Proof.
  revert pos. induction p as [p IH|p IH|]; intros pos; cbn [bit_positions].
  - destruct (IH (pos + 1)) as (Hs & Hge). split.
    + constructor; [exact Hs|]. eapply Forall_impl; [|exact Hge]. simpl. intros q Hq. lia.
    + constructor; [lia|]. eapply Forall_impl; [|exact Hge]. simpl. intros q Hq. lia.
  - destruct (IH (pos + 1)) as (Hs & Hge). split; [exact Hs|].
    eapply Forall_impl; [|exact Hge]. simpl. intros q Hq. lia.
  - split; repeat constructor. lia.
Qed.

Lemma bit_positions_below (p : positive) :
  forall pos m : Z, 0 <= m -> Z.pos p < 2 ^ m ->
    Forall (fun q => q < pos + m) (bit_positions pos p).
Proof.
  induction p as [p IH|p IH|]; intros pos m Hm Hp; cbn [bit_positions].
  - destruct (Z.eq_dec m 0) as [->|Hne]; [simpl in Hp; lia|].
    replace m with (Z.succ (m - 1)) in Hp by lia. rewrite Z.pow_succ_r in Hp by lia.
    constructor; [lia|].
    eapply Forall_impl; [|apply (IH (pos + 1) (m - 1)); lia]. simpl. intros q Hq. lia.
  - destruct (Z.eq_dec m 0) as [->|Hne]; [simpl in Hp; lia|].
    replace m with (Z.succ (m - 1)) in Hp by lia. rewrite Z.pow_succ_r in Hp by lia.
    eapply Forall_impl; [|apply (IH (pos + 1) (m - 1)); lia]. simpl. intros q Hq. lia.
  - destruct (Z.eq_dec m 0) as [->|Hne]; [simpl in Hp; lia|].
    constructor; [lia|constructor].
Qed.

(** The set bits of a byte value: ascending positions below 8. *)
Lemma set_bits_byte (bits : Z) :
  0 <= bits <= 255 ->
  StronglySorted Z.lt (set_bits bits) /\ Forall (fun q => 0 <= q < 8) (set_bits bits).
Proof.
  intros Hb. destruct bits as [|p|p]; [split; constructor| |lia].
  cbn [set_bits].
  destruct (bit_positions_sorted p 0) as (Hs & Hge).
  pose proof (bit_positions_below p 0 8 ltac:(lia) ltac:(change (2 ^ 8) with 256; lia)) as Hlt.
  split; [exact Hs|].
  apply Forall_forall. intros q Hq.
  rewrite Forall_forall in Hge, Hlt. specialize (Hge q Hq). specialize (Hlt q Hq). lia.
Qed.

(** ** Formatting one record *)

Lemma one_line_app (s1 s2 : string) :
  one_line s1 -> one_line s2 -> one_line (s1 ++ s2).
Proof.
  intros H1 H2. induction s1 as [|c s1 IH]; cbn [String.append one_line] in *; [exact H2|].
  destruct H1 as (Hc & H1). split; [exact Hc|apply IH, H1].
Qed.

Lemma one_line_dec (x : Z) : one_line (dec x).
Proof.
  unfold dec, NilZero.string_of_uint.
  assert (Hdigits : forall d : Decimal.uint, one_line (NilEmpty.string_of_uint d)).
  { induction d; cbn [NilEmpty.string_of_uint one_line]; try exact I;
      (split; [discriminate|assumption]). }
  destruct (N.to_uint (Z.to_N x)); try apply Hdigits.
  cbn [one_line]. split; [discriminate|exact I].
Qed.

Lemma one_line_join (sep : string) (l : list string) :
  one_line sep -> Forall one_line l -> one_line (join sep l).
Proof.
  intros Hsep Hl. induction Hl as [|x l Hx Hl IH]; [exact I|].
  destruct l as [|y l]; [exact Hx|].
  change (join sep (x :: y :: l)) with (x ++ sep ++ join sep (y :: l))%string.
  apply one_line_app; [exact Hx|]. apply one_line_app; [exact Hsep|exact IH].
Qed.

(** A record is one line: a text without newline, then the newline. *)
Lemma kTuplet_record_one_line (j p : Z) :
  exists body : string, kTuplet_record j p = (body ++ nl)%string /\ one_line body.
Proof.
  exists ("(" ++ join ", " (map dec (kTuplet_values j p)) ++ ")")%string. split.
  - unfold kTuplet_record. rewrite !string_app_assoc. reflexivity.
  - apply one_line_app; [cbn; split; [discriminate|exact I]|].
    apply one_line_app; [|cbn; split; [discriminate|exact I]].
    apply one_line_join; [cbn; repeat split; discriminate|].
    apply Forall_map, Forall_forall. intros x _. apply one_line_dec.
Qed.

Lemma set_bits_nonempty (bits : Z) : 0 < bits -> set_bits bits <> [].
Proof.
  intros Hb. destruct bits as [|p|p]; try lia.
  rewrite set_bits_step. discriminate.
Qed.

Lemma join_cons (sep x : string) (l : list string) :
  l <> [] -> join sep (x :: l) = (x ++ sep ++ join sep l)%string.
Proof. destruct l; [congruence|reflexivity]. Qed.

Lemma clear_lowest_nonneg (bits : Z) : 0 <= bits -> 0 <= Z.land bits (bits - 1).
Proof. intros Hb. apply Z.land_nonneg. lia. Qed.

(** The loop that fills a record returns, and appends the numbers of the
    set bits, separated by [", "], and the closing [")\n"]. *)
Lemma format_kTuplet_spec (j : Z) (fuel : nat) :
  forall (bits : Z) (kTuplet : string),
    0 < bits ->
    (length (set_bits bits) <= fuel)%nat ->
    format_kTuplet fuel j bits kTuplet
    = Some (kTuplet ++ join ", " (map dec (kTuplet_values j bits)) ++ ")" ++ nl)%string.
Proof.
  induction fuel as [|fuel IH]; intros bits kTuplet Hbits Hfuel.
  - pose proof (set_bits_nonempty bits Hbits). destruct (set_bits bits); simpl in *; [congruence|lia].
  - cbn [format_kTuplet].
    destruct (Z.eqb_spec bits 0) as [->|_]; [lia|].
    unfold getNextPrime.
    destruct bits as [|p|p]; try lia.
    unfold kTuplet_values. rewrite (set_bits_step p) in Hfuel |- *.
    set (rest := Z.land (Z.pos p) (Z.pos p - 1)) in *.
    cbn [map length] in Hfuel |- *.
    pose proof (clear_lowest_nonneg (Z.pos p) ltac:(lia)) as Hrest. fold rest in Hrest.
    destruct (Z.eqb_spec rest 0) as [Hzero|Hpos]; cbn [negb].
    + rewrite Hzero. destruct fuel; cbn [format_kTuplet Z.eqb set_bits map join];
        rewrite !string_app_assoc; reflexivity.
    + rewrite IH by lia. f_equal.
      rewrite join_cons.
      * fold (kTuplet_values j rest). rewrite !string_app_assoc. reflexivity.
      * intros Hnil. apply map_eq_nil in Hnil. apply map_eq_nil in Hnil.
        apply (set_bits_nonempty rest); [lia|exact Hnil].
Qed.

(** The scan of one byte prints one record per contained pattern. *)
Lemma print_bitmasks_sorted (pats pad : list Z) (j sieve_j : Z) :
  0 <= sieve_j <= 255 ->
  StronglySorted Z.lt pats ->
  Forall (fun p => 0 < p <= 255) pats ->
  forall out : list event,
    print_bitmasks (pats ++ END :: pad) j sieve_j out
    = Some (out ++ map (fun p => Cout (kTuplet_record j p))
                       (filter (fun p => submask sieve_j p = true) pats)).
Proof.
  intros Hj Hsorted.
  induction Hsorted as [|p pats Hsorted IH Hall]; intros Hpats out.
  - cbn [app print_bitmasks]. destruct (Z.leb_spec END sieve_j); [lia|].
    rewrite filter_nil. cbn [map]. rewrite app_nil_r. reflexivity.
  - inversion Hpats as [|p' pats' Hp Hpats']; subst p' pats'.
    cbn [app print_bitmasks].
    destruct (Z.leb_spec p sieve_j) as [Hle|Hgt].
    + rewrite filter_cons. destruct (submask sieve_j p) eqn:Hsub.
      * rewrite decide_True by reflexivity.
        rewrite (format_kTuplet_spec j (Z.to_nat p) p "(") by (try lia; apply length_set_bits).
        cbn [mbind option_bind]. rewrite (IH Hpats').
        fold (kTuplet_record j p). cbn [map]. rewrite <- app_assoc. reflexivity.
      * rewrite decide_False by discriminate.
        cbn [mbind option_bind]. apply (IH Hpats').
    + rewrite (filter_submask_above sieve_j (p :: pats)); [|lia|].
      * cbn [map]. rewrite app_nil_r. reflexivity.
      * constructor; [lia|].
        eapply Forall_impl; [|exact Hall]. intros q Hq. simpl in Hq. lia.
Qed.

Lemma print_bitmasks_spec (k j sieve_j : Z) (out : list event) :
  1 <= k <= 6 -> 0 <= sieve_j <= 255 ->
  exists bitmask : list Z,
    kTupletBitmasks_ !! Z.to_nat k = Some bitmask /\
    print_bitmasks bitmask j sieve_j out
    = Some (out ++ map (fun p => Cout (kTuplet_record j p)) (matches k sieve_j)).
Proof.
  intros Hk Hj.
  destruct (kTupletBitmasks_row k Hk) as (pats & pad & Hrow & Hsorted & Hpats & _).
  exists (pats ++ END :: pad). split; [exact Hrow|].
  rewrite (print_bitmasks_sorted pats pad j sieve_j Hj Hsorted Hpats).
  unfold matches. rewrite (TupletPatternTable_row k pats pad Hrow Hpats). reflexivity.
Qed.

(** ** The kind to print *)

Lemma first_print_search (ps : PrimeSieve) (fuel : nat) :
  forall i k : Z,
    i <= k <= i + Z.of_nat fuel -> isPrint ps k = true ->
    exists r : Z,
      first_print fuel ps i = Some r /\ i <= r <= k /\ isPrint ps r = true /\
      forall i' : Z, i <= i' < r -> isPrint ps i' = false.
Proof.
  induction fuel as [|fuel IH]; intros i k Hk Hprint; cbn [first_print].
  - assert (k = i) as -> by lia. rewrite Hprint.
    exists i. repeat split; try lia; try assumption.
  - destruct (isPrint ps i) eqn:Hi.
    + exists i. repeat split; try lia; try assumption.
    + assert (k <> i) by congruence.
      destruct (IH (i + 1) k ltac:(lia) Hprint) as (r & Hr & Hrange & Hpr & Hfirst).
      exists r. repeat split; try lia; try assumption.
      intros i' Hi'. destruct (Z.eq_dec i' i) as [->|Hne]; [exact Hi|]. apply Hfirst. lia.
Qed.

Lemma first_print_spec (ps : PrimeSieve) :
  isFlag_range ps PRINT TWINS SEPTUPLETS = true ->
  exists i : Z,
    first_print 5 ps 1 = Some i /\ 1 <= i <= 6 /\ isPrint ps i = true /\
    forall i' : Z, 1 <= i' < i -> isPrint ps i' = false.
Proof.
  intros Hany. apply isFlag_range_elim in Hany. destruct Hany as (k & Hk & Hflag).
  unfold TWINS, SEPTUPLETS in Hk.
  destruct (first_print_search ps 5 1 k ltac:(lia) Hflag) as (r & Hr & Hrange & Hpr & Hfirst).
  exists r. repeat split; try lia; assumption.
Qed.

(** ** [generate] *)

Lemma kTuplet_records_app (k j : Z) (l1 l2 : list byte) :
  kTuplet_records k j (l1 ++ l2)
  = kTuplet_records k j l1 ++ kTuplet_records k (j + Z.of_nat (length l1)) l2.
Proof.
  revert j. induction l1 as [|b l1 IH]; intros j; cbn [app kTuplet_records length].
  - f_equal; lia.
  - rewrite IH, <- app_assoc. do 3 f_equal. lia.
Qed.

Lemma prime_events_app (callback : Z -> list event) (T j : Z) (l1 l2 : list byte) :
  prime_events callback T j (l1 ++ l2)
  = prime_events callback T j l1 ++ prime_events callback T (j + Z.of_nat (length l1)) l2.
Proof.
  revert j. induction l1 as [|b l1 IH]; intros j; cbn [app prime_events length].
  - f_equal; lia.
  - rewrite IH, <- app_assoc. do 3 f_equal. lia.
Qed.

(** In tuplet printing mode [generate] returns, and prints the records of
    the first kind whose print flag is set. *)
Lemma generate_kTuplets (f : PrimeNumberFinder) (sieve : list byte) (n : Z) :
  isFlag_range (ps_ f) PRINT TWINS SEPTUPLETS = true ->
  0 <= n <= Z.of_nat (length sieve) ->
  exists i : Z,
    1 <= i <= 6 /\ isPrint (ps_ f) i = true /\
    (forall i' : Z, 1 <= i' < i -> isPrint (ps_ f) i' = false) /\
    generate f sieve n = Some (kTuplet_records i 0 (take (Z.to_nat n) sieve)).
Proof.
  intros Hany Hn.
  destruct (first_print_spec (ps_ f) Hany) as (i & Hfirst & Hi & Hprint & Hbefore).
  exists i. split; [exact Hi|]. split; [exact Hprint|]. split; [exact Hbefore|].
  unfold generate. rewrite Hany, Hfirst. cbn [mbind option_bind].
  match goal with |- for_range 0 n ?body [] = _ =>
    destruct (for_range_invariant
                (fun j out => out = kTuplet_records i 0 (take (Z.to_nat j) sieve))
                body 0 n []) as (out & Hloop & Hout) end.
  - lia.
  - reflexivity.
  - intros j out Hj ->.
    destruct (lookup_lt_is_Some_2 sieve (Z.to_nat j) ltac:(lia)) as (b & Hb).
    destruct (print_bitmasks_spec i j (u8 b)
                (kTuplet_records i 0 (take (Z.to_nat j) sieve)) Hi)
      as (bitmask & Hrow & Hscan); [pose proof (u8_range b); lia|].
    rewrite Hb, Hrow. cbn [mbind option_bind]. rewrite Hscan.
    eexists. split; [reflexivity|].
    replace (Z.to_nat (j + 1)) with (S (Z.to_nat j)) by lia.
    rewrite (take_S_r sieve (Z.to_nat j) b Hb), kTuplet_records_app.
    rewrite length_take. cbn [kTuplet_records]. rewrite app_nil_r.
    replace (0 + Z.of_nat (Z.to_nat j `min` length sieve)) with j by lia. reflexivity.
  - rewrite Hloop, Hout. reflexivity.
Qed.

Lemma callback_bits_spec (callback : Z -> list event) (T j : Z) (fuel : nat) :
  forall (bits : Z) (out : list event),
    0 <= bits ->
    (length (set_bits bits) <= fuel)%nat ->
    callback_bits fuel callback T j bits out
    = Some (out ++ flat_map (fun pos => callback (wrap T (wheel j pos))) (set_bits bits)).
Proof.
  induction fuel as [|fuel IH]; intros bits out Hbits Hfuel.
  - destruct bits as [|p|p]; try lia.
    + cbn. rewrite app_nil_r. reflexivity.
    + pose proof (set_bits_nonempty (Z.pos p) ltac:(lia)).
      destruct (set_bits (Z.pos p)); simpl in *; [congruence|lia].
  - cbn [callback_bits]. destruct bits as [|p|p]; try lia.
    + cbn. rewrite app_nil_r. reflexivity.
    + cbn [Z.eqb]. unfold getNextPrime.
      rewrite (set_bits_step p) in Hfuel |- *. cbn [length flat_map] in Hfuel |- *.
      rewrite IH by (try apply clear_lowest_nonneg; lia).
      rewrite <- app_assoc. reflexivity.
Qed.

Lemma GENERATE_PRIMES_spec (callback : Z -> list event) (T : Z) (sieve : list byte)
    (n : Z) (out : list event) :
  0 <= n <= Z.of_nat (length sieve) ->
  GENERATE_PRIMES callback T sieve n out
  = Some (out ++ prime_events callback T 0 (take (Z.to_nat n) sieve)).
Proof.
  intros Hn. unfold GENERATE_PRIMES.
  match goal with |- for_range 0 n ?body out = _ =>
    destruct (for_range_invariant
                (fun j o => o = out ++ prime_events callback T 0 (take (Z.to_nat j) sieve))
                body 0 n out) as (o & Hloop & Ho) end.
  - lia.
  - cbn. rewrite app_nil_r. reflexivity.
  - intros j o Hj ->.
    destruct (lookup_lt_is_Some_2 sieve (Z.to_nat j) ltac:(lia)) as (b & Hb).
    rewrite Hb. cbn [mbind option_bind].
    pose proof (u8_range b).
    rewrite callback_bits_spec by (try apply length_set_bits; lia).
    eexists. split; [reflexivity|].
    replace (Z.to_nat (j + 1)) with (S (Z.to_nat j)) by lia.
    rewrite (take_S_r sieve (Z.to_nat j) b Hb), prime_events_app.
    rewrite length_take. cbn [prime_events]. rewrite app_nil_r, <- app_assoc.
    replace (0 + Z.of_nat (Z.to_nat j `min` length sieve)) with j by lia. reflexivity.
  - rewrite Hloop, Ho. reflexivity.
Qed.

Lemma GENERATE_PRIMES_if (c : bool) (callback : Z -> list event) (T : Z)
    (sieve : list byte) (n : Z) (out : list event) :
  0 <= n <= Z.of_nat (length sieve) ->
  (if c then GENERATE_PRIMES callback T sieve n out else Some out)
  = Some (out ++ (if c then prime_events callback T 0 (take (Z.to_nat n) sieve) else [])).
Proof.
  intros Hn. destruct c; [apply GENERATE_PRIMES_spec, Hn|]. rewrite app_nil_r. reflexivity.
Qed.

(** In single-value mode [generate] returns; it takes the lock, runs one
    pass per enabled sink and releases the lock. *)
Lemma generate_single_value (f : PrimeNumberFinder) (sieve : list byte) (n : Z) :
  isFlag_range (ps_ f) PRINT TWINS SEPTUPLETS = false ->
  0 <= n <= Z.of_nat (length sieve) ->
  generate f sieve n
  = Some (Lock :: single_value_events (ps_ f) (take (Z.to_nat n) sieve) ++ [Unlock]).
Proof.
  intros Hany Hn. unfold generate. rewrite Hany.
  rewrite !GENERATE_PRIMES_if by exact Hn. cbn [mbind option_bind].
  rewrite !GENERATE_PRIMES_if by exact Hn. cbn [mbind option_bind].
  rewrite !GENERATE_PRIMES_if by exact Hn. cbn [mbind option_bind].
  rewrite !GENERATE_PRIMES_if by exact Hn. cbn [mbind option_bind].
  rewrite !GENERATE_PRIMES_if by exact Hn. cbn [mbind option_bind].
  unfold single_value_events. rewrite <- !app_assoc. reflexivity.
Qed.

Lemma generate_total (f : PrimeNumberFinder) (sieve : list byte) (n : Z) :
  0 <= n <= Z.of_nat (length sieve) ->
  exists tr : list event, generate f sieve n = Some tr.
Proof.
  intros Hn. destruct (isFlag_range (ps_ f) PRINT TWINS SEPTUPLETS) eqn:Hany.
  - destruct (generate_kTuplets f sieve n Hany Hn) as (i & _ & _ & _ & Hgen). eauto.
  - rewrite (generate_single_value f sieve n Hany Hn). eauto.
Qed.

(** ** The lock *)

Lemma prime_events_deliveries (callback : Z -> list event) (T j : Z) (s : list byte) :
  (forall x, Forall (fun e => is_delivery e = true) (callback x)) ->
  Forall (fun e => is_delivery e = true) (prime_events callback T j s).
Proof.
  intros Hcb. revert j. induction s as [|b s IH]; intros j; cbn [prime_events].
  - constructor.
  - apply Forall_app. split; [|apply IH].
    induction (set_bits (u8 b)) as [|pos l IHl]; cbn [flat_map]; [constructor|].
    apply Forall_app. split; [apply Hcb|exact IHl].
Qed.

Lemma single_value_events_deliveries (ps : PrimeSieve) (s : list byte) :
  Forall (fun e => is_delivery e = true) (single_value_events ps s).
Proof.
  unfold single_value_events.
  repeat (apply Forall_app; split);
    match goal with |- Forall _ (if ?c then _ else _) => destruct c end;
    try constructor;
    apply prime_events_deliveries; intros x; repeat constructor.
Qed.

Lemma kTuplet_records_no_lock (k j : Z) (s : list byte) :
  Forall (fun e => is_lock_op e = false) (kTuplet_records k j s).
Proof.
  revert j. induction s as [|b s IH]; intros j; cbn [kTuplet_records]; [constructor|].
  apply Forall_app. split; [|apply IH].
  apply Forall_map. apply Forall_forall. intros p _. reflexivity.
Qed.

Lemma kTuplet_records_deliveries (k j : Z) (s : list byte) :
  Forall (fun e => is_delivery e = true) (kTuplet_records k j s).
Proof.
  revert j. induction s as [|b s IH]; intros j; cbn [kTuplet_records]; [constructor|].
  apply Forall_app. split; [|apply IH].
  apply Forall_map. apply Forall_forall. intros p _. reflexivity.
Qed.

Lemma locked_run_deliveries (body : list event) :
  Forall (fun e => is_delivery e = true) body ->
  locked_run true (body ++ [Unlock]) = true.
Proof.
  induction 1 as [|e body He _ IH]; [reflexivity|].
  cbn [app locked_run]. destruct e; try discriminate; exact IH.
Qed.

(** A step of worker [w] that neither takes nor releases the lock: the
    owner stays, and a delivery needs [w] to be the owner. *)
Ltac plain_step IH w Hw Hmutex Hothers :=
  let Hheld := fresh "Hheld" in
  let w' := fresh "w'" in
  let Hne := fresh "Hne" in
  cbn [locked_run is_delivery negb] in Hw;
  apply andb_prop in Hw; destruct Hw as (Hheld & Hw);
  apply andb_true_intro; split;
  [ first [ reflexivity
          | rewrite orb_false_r in Hheld; apply bool_decide_eq_true in Hheld;
            rewrite Hheld; apply Nat.eqb_refl ]
  | apply IH; [exact Hmutex|];
    intros w'; destruct (decide (w' = w)) as [->|Hne]; [exact Hw|apply Hothers, Hne] ].

(** Under the mutual exclusion of the lock, workers that deliver only
    while they hold the lock never deliver at the same time. *)
Lemma mutex_exclusive (sched : schedule) :
  forall owner : option nat,
    mutex_run owner sched = true ->
    (forall w, locked_run (bool_decide (owner = Some w)) (project w sched) = true) ->
    exclusive owner sched = true.
Proof.
  induction sched as [|[w e] sched IH]; intros owner Hmutex Hworkers; [reflexivity|].
  assert (Hothers : forall w', w' <> w ->
            locked_run (bool_decide (owner = Some w')) (project w' sched) = true).
  { intros w' Hne. specialize (Hworkers w'). cbn [project] in Hworkers.
    destruct (Nat.eqb_spec w w'); [congruence|exact Hworkers]. }
  pose proof (Hworkers w) as Hw. cbn [project] in Hw. rewrite Nat.eqb_refl in Hw.
  destruct e; cbn [mutex_run exclusive is_delivery negb orb] in Hmutex |- *;
    try (plain_step IH w Hw Hmutex Hothers).
  - (* Lock *)
    destruct owner as [o|]; [discriminate|].
    apply IH; [exact Hmutex|]. intros w'.
    destruct (decide (w' = w)) as [->|Hne].
    + rewrite bool_decide_true by reflexivity.
      cbn [locked_run] in Hw. rewrite bool_decide_false in Hw by discriminate. exact Hw.
    + rewrite bool_decide_false by congruence.
      specialize (Hothers w' Hne). rewrite bool_decide_false in Hothers by discriminate.
      exact Hothers.
  - (* Unlock *)
    destruct owner as [o|]; [|discriminate].
    apply andb_prop in Hmutex. destruct Hmutex as (Ho & Hmutex).
    apply Nat.eqb_eq in Ho. subst o.
    apply IH; [exact Hmutex|]. intros w'.
    rewrite bool_decide_false by discriminate.
    destruct (decide (w' = w)) as [->|Hne].
    + cbn [locked_run] in Hw. rewrite bool_decide_true in Hw by reflexivity. exact Hw.
    + specialize (Hothers w' Hne). rewrite bool_decide_false in Hothers by congruence.
      exact Hothers.
Qed.

(** C4 (as the code has it).  In single-value mode a [generate] call
    takes the lock first and releases it last, and everything between is
    a delivery, so that under the mutual exclusion of the lock no two
    workers deliver at the same time; in tuplet printing mode [generate]
    never touches the lock. *)
Theorem generate_lock_discipline :
  (forall (f : PrimeNumberFinder) (sieve : list byte) (n : Z),
     0 <= n <= Z.of_nat (length sieve) ->
     isFlag_range (ps_ f) PRINT TWINS SEPTUPLETS = false ->
     exists body : list event,
       generate f sieve n = Some (Lock :: body ++ [Unlock]) /\
       Forall (fun e => is_delivery e = true) body /\
       locked_run false (Lock :: body ++ [Unlock]) = true) /\
  (forall (sched : schedule),
     (forall w : nat,
        project w sched = [] \/
        exists (f : PrimeNumberFinder) (sieve : list byte) (n : Z),
          0 <= n <= Z.of_nat (length sieve) /\
          isFlag_range (ps_ f) PRINT TWINS SEPTUPLETS = false /\
          generate f sieve n = Some (project w sched)) ->
     mutex_run None sched = true ->
     exclusive None sched = true) /\
  (forall (f : PrimeNumberFinder) (sieve : list byte) (n : Z),
     0 <= n <= Z.of_nat (length sieve) ->
     isFlag_range (ps_ f) PRINT TWINS SEPTUPLETS = true ->
     exists tr : list event,
       generate f sieve n = Some tr /\ Forall (fun e => is_lock_op e = false) tr).
Proof.
  assert (Hsingle : forall (f : PrimeNumberFinder) (sieve : list byte) (n : Z),
     0 <= n <= Z.of_nat (length sieve) ->
     isFlag_range (ps_ f) PRINT TWINS SEPTUPLETS = false ->
     exists body : list event,
       generate f sieve n = Some (Lock :: body ++ [Unlock]) /\
       Forall (fun e => is_delivery e = true) body /\
       locked_run false (Lock :: body ++ [Unlock]) = true).
  { intros f sieve n Hn Hmode.
    exists (single_value_events (ps_ f) (take (Z.to_nat n) sieve)).
    split; [apply generate_single_value; assumption|].
    pose proof (single_value_events_deliveries (ps_ f) (take (Z.to_nat n) sieve)) as Hd.
    split; [exact Hd|]. cbn [locked_run negb andb]. apply locked_run_deliveries, Hd. }
  split; [exact Hsingle|]. split.
  - intros sched Hworkers Hmutex. apply mutex_exclusive; [exact Hmutex|].
    intros w. rewrite bool_decide_false by discriminate.
    destruct (Hworkers w) as [->|(f & sieve & n & Hn & Hmode & Hgen)]; [reflexivity|].
    destruct (Hsingle f sieve n Hn Hmode) as (body & Hbody & _ & Hrun).
    rewrite Hbody in Hgen. injection Hgen as <-. exact Hrun.
  - intros f sieve n Hn Hmode.
    destruct (generate_kTuplets f sieve n Hmode Hn) as (i & _ & _ & _ & Hgen).
    eexists. split; [exact Hgen|]. apply kTuplet_records_no_lock.
Qed.

(** ** The records *)

Lemma kTuplet_values_ascending (j p : Z) :
  0 <= j < 2 ^ UINT_BITS ->
  0 <= p <= 255 ->
  kTuplet_values j p = map (wheel j) (set_bits p) /\
  StronglySorted Z.lt (map (wheel j) (set_bits p)).
Proof.
  intros Hj Hp. destruct (set_bits_byte p Hp) as (Hsorted & Hrange).
  unfold kTuplet_values. split.
  - apply map_ext_in. intros pos Hpos. rewrite Forall_forall in Hrange.
    apply wrap_small, wheel_range; [exact Hj|apply Hrange, Hpos].
  - clear Hp. induction Hsorted as [|pos l Hsorted IH Hall]; cbn [map]; constructor.
    + apply IH. inversion Hrange; assumption.
    + apply Forall_map. inversion Hrange as [|? ? Hpos Hl]; subst.
      rewrite Forall_forall in Hall, Hl |- *. intros q Hq. simpl.
      apply wheel_ascending; [|apply Hl, Hq].
      specialize (Hall q Hq). lia.
Qed.

Lemma TupletPatternTable_byte (k p : Z) :
  1 <= k <= 6 -> In p (TupletPatternTable k) -> 0 < p <= 255.
Proof.
  intros Hk Hin.
  destruct (kTupletBitmasks_row k Hk) as (pats & pad & Hrow & _ & Hpats & _).
  rewrite (TupletPatternTable_row k pats pad Hrow Hpats) in Hin.
  rewrite Forall_forall in Hpats. apply Hpats, Hin.
Qed.

(** C5.  In tuplet printing mode [generate] prints, byte after byte and
    for each pattern of the printed kind contained in the byte, one
    record: between parentheses the decimal numbers of the group, in
    ascending order and separated by a comma and a blank, and a newline
    after the closing parenthesis, the only newline of the record. *)
Theorem generate_kTuplet_records (f : PrimeNumberFinder) (sieve : list byte) (n : Z) :
  isFlag_range (ps_ f) PRINT TWINS SEPTUPLETS = true ->
  0 <= n <= Z.of_nat (length sieve) ->
  n < 2 ^ UINT_BITS ->
  exists i : Z,
    1 <= i <= 6 /\ isPrint (ps_ f) i = true /\
    generate f sieve n = Some (kTuplet_records i 0 (take (Z.to_nat n) sieve)) /\
    forall j p : Z, 0 <= j < n -> In p (TupletPatternTable i) ->
      kTuplet_record j p
      = ("(" ++ join ", " (map dec (map (wheel j) (set_bits p))) ++ ")" ++ nl)%string /\
      StronglySorted Z.lt (map (wheel j) (set_bits p)) /\
      exists body : string, kTuplet_record j p = (body ++ nl)%string /\ one_line body.
Proof.
  intros Hmode Hn Hsize.
  destruct (generate_kTuplets f sieve n Hmode Hn) as (i & Hi & Hprint & _ & Hgen).
  exists i. split; [exact Hi|]. split; [exact Hprint|]. split; [exact Hgen|].
  intros j p Hj Hp. apply (TupletPatternTable_byte i p Hi) in Hp.
  destruct (kTuplet_values_ascending j p ltac:(lia) ltac:(lia)) as (Hvalues & Hsorted).
  split; [unfold kTuplet_record; rewrite Hvalues; reflexivity|].
  split; [exact Hsorted|]. apply kTuplet_record_one_line.
Qed.

(** C9.  For a segment of size 0, [count] returns and leaves every
    accumulator as it is, and [generate] returns and delivers nothing. *)
Theorem empty_segment (f : PrimeNumberFinder) (sieve : list byte) :
  well_formed f ->
  count f sieve 0 = Some f /\
  exists tr : list event,
    generate f sieve 0 = Some tr /\ Forall (fun e => is_delivery e = false) tr.
Proof.
  intros Hwf. split.
  - assert (Hfit : 8 * 0 < 2 ^ UINT_BITS) by (apply Z.pow_pos_nonneg; lia).
    destruct (count_spec f sieve 0 Hwf ltac:(lia)) as (c' & Hcount & Hlen & Hentries).
    rewrite Hcount. f_equal.
    destruct Hwf as ((Hlen0 & Hrange) & _).
    assert (c' = counts_ (ps_ f)) as ->.
    { apply list_eq. intros i. destruct (Nat.lt_ge_cases i 7) as [Hlt|Hge].
      - destruct (Hentries (Z.of_nat i) ltac:(lia)) as (c & Hc & Hci).
        rewrite Nat2Z.id in Hc, Hci. rewrite Hc, Hci. f_equal.
        destruct (isCount (ps_ f) (Z.of_nat i)); [|reflexivity].
        rewrite Forall_lookup in Hrange. specialize (Hrange i c Hc).
        assert (Hzero : count_delta (Z.of_nat i) sieve 0 = 0).
        { rewrite (count_delta_exact (Z.of_nat i) sieve 0) by lia.
          unfold expected_delta. change (Z.to_nat 0) with 0%nat. rewrite take_0.
          destruct (Z.of_nat i =? 0); reflexivity. }
        rewrite Hzero, Z.add_0_r. apply wrap_small, Hrange.
      - rewrite !lookup_ge_None_2 by lia. reflexivity. }
    destruct f as [b ps k]. destruct ps. reflexivity.
  - destruct (isFlag_range (ps_ f) PRINT TWINS SEPTUPLETS) eqn:Hmode.
    + destruct (generate_kTuplets f sieve 0 Hmode ltac:(lia)) as (i & _ & _ & _ & Hgen).
      eexists. split; [exact Hgen|]. change (Z.to_nat 0) with 0%nat. rewrite take_0.
      constructor.
    + rewrite (generate_single_value f sieve 0 Hmode ltac:(lia)).
      eexists. split; [reflexivity|]. change (Z.to_nat 0) with 0%nat. rewrite take_0.
      unfold single_value_events. cbn [prime_events].
      repeat match goal with |- context [if ?c then _ else _] => destruct c end;
        repeat constructor.
Qed.

(** ** [segmentProcessed] *)

Lemma generate_events (f : PrimeNumberFinder) (sieve : list byte) (n : Z) (tr : list event) :
  0 <= n <= Z.of_nat (length sieve) ->
  generate f sieve n = Some tr ->
  Forall (fun e => is_delivery e = true \/ is_lock_op e = true) tr.
Proof.
  intros Hn Hgen. destruct (isFlag_range (ps_ f) PRINT TWINS SEPTUPLETS) eqn:Hmode.
  - destruct (generate_kTuplets f sieve n Hmode Hn) as (i & _ & _ & _ & Hgen').
    rewrite Hgen' in Hgen. injection Hgen as <-.
    eapply Forall_impl; [|apply kTuplet_records_deliveries]. intros e He. left. exact He.
  - rewrite (generate_single_value f sieve n Hmode Hn) in Hgen. injection Hgen as <-.
    constructor; [right; reflexivity|].
    apply Forall_app. split; [|repeat constructor; right; reflexivity].
    eapply Forall_impl; [|apply single_value_events_deliveries]. intros e He. left. exact He.
Qed.

(** C6 (as the code has it).  [segmentProcessed] calls [count] exactly
    when some count is requested, then [generate] exactly when a
    generation mode is requested, and last, when the status is requested,
    the status hook, once, with the segment's size times
    [NUMBERS_PER_BYTE] in [uint_t] arithmetic. *)
Theorem segmentProcessed_fan_out (f : PrimeNumberFinder) (sieve : list byte) (n : Z) :
  well_formed f ->
  0 <= n <= Z.of_nat (length sieve) ->
  exists (f' : PrimeNumberFinder) (tr : list event),
    segmentProcessed f sieve n
    = Some (f', tr ++ (if isStatus (ps_ f)
                       then [UpdateStatus (uint_t (n * NUMBERS_PER_BYTE))] else [])) /\
    (if isCount_any (ps_ f) then count f sieve n = Some f' else f' = f) /\
    (if isGenerate (ps_ f) then generate f' sieve n = Some tr else tr = []) /\
    Forall (fun e => is_delivery e = true \/ is_lock_op e = true) tr /\
    (0 <= n * NUMBERS_PER_BYTE < 2 ^ UINT_BITS ->
     uint_t (n * NUMBERS_PER_BYTE) = n * NUMBERS_PER_BYTE).
Proof.
  intros Hwf Hn. unfold segmentProcessed.
  assert (Hcount : exists f', (if isCount_any (ps_ f) then count f sieve n else Some f) = Some f'
                              /\ (if isCount_any (ps_ f) then count f sieve n = Some f' else f' = f)
                              /\ flags_ (ps_ f') = flags_ (ps_ f)).
  { destruct (isCount_any (ps_ f)).
    - destruct (count_spec f sieve n Hwf Hn) as (c' & Hc' & _).
      eexists. split; [exact Hc'|]. split; [exact Hc'|]. reflexivity.
    - exists f. repeat split. }
  destruct Hcount as (f' & Hstep & Hf' & Hflags).
  rewrite Hstep. cbn [mbind option_bind].
  assert (HisGenerate : isGenerate (ps_ f') = isGenerate (ps_ f))
    by (unfold isGenerate, isFlag, isFlag_range; rewrite Hflags; reflexivity).
  assert (HisStatus : isStatus (ps_ f') = isStatus (ps_ f))
    by (unfold isStatus, isFlag; rewrite Hflags; reflexivity).
  rewrite HisGenerate, HisStatus.
  assert (Hgen : exists tr, (if isGenerate (ps_ f) then generate f' sieve n else Some []) = Some tr
                            /\ (if isGenerate (ps_ f) then generate f' sieve n = Some tr else tr = [])
                            /\ Forall (fun e => is_delivery e = true \/ is_lock_op e = true) tr).
  { destruct (isGenerate (ps_ f)).
    - destruct (generate_total f' sieve n Hn) as (tr & Htr).
      exists tr. split; [exact Htr|]. split; [exact Htr|].
      apply (generate_events f' sieve n tr Hn Htr).
    - exists []. repeat split. constructor. }
  destruct Hgen as (tr & Hgstep & Htr & Hevents).
  rewrite Hgstep. cbn [mbind option_bind].
  exists f', tr. split.
  - destruct (isStatus (ps_ f)); [reflexivity|]. rewrite app_nil_r. reflexivity.
  - split; [exact Hf'|]. split; [exact Htr|]. split; [exact Hevents|].
    apply uint_t_fits.
Qed.

(** ** The tables the constructor leaves *)

(** [initCounts] gives the table of every requested kind its 256 entries
    and does not touch the table of any other kind. *)
Lemma initCounts_rows (f : PrimeNumberFinder) :
  length (kCounts_ f) = 7%nat ->
  exists g : PrimeNumberFinder,
    initCounts f = Some g /\
    forall k : Z, 0 <= k <= 6 ->
      if (1 <=? k) && isCount (ps_ f) k
      then exists table : list Z,
             kCounts_ g !! Z.to_nat k = Some table /\ length table = 256%nat
      else kCounts_ g !! Z.to_nat k = kCounts_ f !! Z.to_nat k.
Proof.
  intros Hlen.
  pose (P := fun (i : Z) (g : PrimeNumberFinder) =>
    ps_ g = ps_ f /\ length (kCounts_ g) = 7%nat /\
    forall k : Z, 0 <= k <= 6 ->
      if (1 <=? k) && (k <? i) && isCount (ps_ f) k
      then exists table : list Z,
             kCounts_ g !! Z.to_nat k = Some table /\ length table = 256%nat
      else kCounts_ g !! Z.to_nat k = kCounts_ f !! Z.to_nat k).
  unfold initCounts.
  match goal with |- exists g, for_range 1 7 ?body f = Some g /\ _ =>
    destruct (for_range_invariant P body 1 7 f) as (g & Hg & HP) end.
  - lia.
  - unfold P. split; [reflexivity|]. split; [exact Hlen|]. intros k Hk.
    destruct (Z.leb_spec 1 k), (Z.ltb_spec k 1); try lia; reflexivity.
  - intros i g Hi (Hps & Hl & Hdone). rewrite Hps.
    destruct (isCount (ps_ f) i) eqn:Hcount.
    + destruct (lookup_lt_is_Some_2 (kCounts_ g) (Z.to_nat i) ltac:(lia)) as (row & Hrow).
      rewrite Hrow. simpl. rewrite length_resize. change (Z.of_nat 256) with 256.
      destruct (initCounts_fill
                  (set_kCounts g (<[Z.to_nat i := resize 256 0 row]> (kCounts_ g)))
                  i (resize 256 0 row))
        as (h & Hh & _ & Hhps & Hhl & Hhothers & (t & Ht & Hlt & _)).
      * lia.
      * simpl. rewrite length_insert. exact Hl.
      * simpl. apply list_lookup_insert_eq. lia.
      * apply length_resize.
      * exists h. split; [exact Hh|].
        unfold P. simpl in *. split; [congruence|]. split; [exact Hhl|].
        intros k Hk. destruct (Z.eq_dec k i) as [->|Hne].
        -- destruct (Z.leb_spec 1 i) as [_|?]; [|lia].
           destruct (Z.ltb_spec i (i + 1)) as [_|?]; [|lia].
           rewrite Hcount. exists t. split; assumption.
        -- specialize (Hdone k Hk).
           replace (k <? i + 1) with (k <? i)
             by (destruct (Z.ltb_spec k i), (Z.ltb_spec k (i + 1)); lia).
           rewrite Hhothers by lia. rewrite list_lookup_insert_ne by lia. exact Hdone.
    + exists g. split; [reflexivity|]. unfold P. split; [exact Hps|]. split; [exact Hl|].
      intros k Hk. specialize (Hdone k Hk).
      destruct (Z.eq_dec k i) as [->|Hne].
      * rewrite Hcount, andb_false_r in *. exact Hdone.
      * replace (k <? i + 1) with (k <? i)
          by (destruct (Z.ltb_spec k i), (Z.ltb_spec k (i + 1)); lia).
        exact Hdone.
  - exists g. split; [exact Hg|]. destruct HP as (_ & _ & Hdone).
    intros k Hk. specialize (Hdone k Hk).
    destruct (Z.ltb_spec k 7) as [_|?]; [|lia].
    rewrite andb_true_r in Hdone. exact Hdone.
Qed.

(** The byte 0xff contains every pattern of its kind. *)
Lemma brute_force_count_full (k : Z) :
  1 <= k <= 6 -> brute_force_count k 255 = Z.of_nat (length (TupletPatternTable k)).
Proof.
  intros Hk.
  destruct (kTupletBitmasks_row k Hk) as (pats & pad & Hrow & _ & Hpats & _).
  unfold brute_force_count, matches.
  rewrite (TupletPatternTable_row k pats pad Hrow Hpats).
  f_equal. f_equal. clear Hrow.
  induction Hpats as [|p pats Hp _ IH]; [reflexivity|].
  rewrite filter_cons_True; [rewrite IH; reflexivity|].
  unfold submask. apply Z.eqb_eq.
  change 255 with (Z.ones 8). rewrite Z.land_comm, Z.land_ones by lia.
  apply Z.mod_small. lia.
Qed.

(** X1.  The constructor always returns.  It allocates the table of a
    kind only when that k-tuplet count is requested: a requested kind
    [k] in 1..6 gets 256 entries, each between 0 and the number of
    patterns of the kind, which is the entry of the byte 0xff; the table
    of every other kind, and the one of index 0, stays empty. *)
Theorem constructor_tables (ps : PrimeSieve) :
  exists f : PrimeNumberFinder,
    new_PrimeNumberFinder ps = Some f /\
    length (kCounts_ f) = 7%nat /\
    forall k : Z, 0 <= k <= 6 ->
      exists table : list Z,
        kCounts_ f !! Z.to_nat k = Some table /\
        if (1 <=? k) && isCount ps k
        then length table = 256%nat /\
             (forall j : Z, 0 <= j <= 255 ->
                exists c : Z, table !! Z.to_nat j = Some c /\
                              0 <= c <= Z.of_nat (length (TupletPatternTable k))) /\
             table !! 255%nat = Some (Z.of_nat (length (TupletPatternTable k))) /\
             (length (TupletPatternTable k) <= 4)%nat
        else table = [].
Proof.
  destruct (new_PrimeNumberFinder_spec ps) as (f & Hf & Hps & _ & Hl & Htables).
  exists f. split; [exact Hf|]. split; [exact Hl|].
  intros k Hk.
  destruct ((1 <=? k) && isCount ps k) eqn:Hreq.
  - apply andb_true_iff in Hreq. destruct Hreq as (Hk1 & Hcount). apply Z.leb_le in Hk1.
    destruct (Htables k ltac:(lia) Hcount) as (table & Htable & Hlen & Hentries).
    exists table. split; [exact Htable|]. split; [exact Hlen|]. split; [|split].
    + intros j Hj. exists (brute_force_count k j). split; [apply Hentries, Hj|].
      unfold brute_force_count, matches.
      pose proof (length_filter (fun p => submask j p = true) (TupletPatternTable k)). lia.
    + rewrite <- (brute_force_count_full k) by lia. apply (Hentries 255). lia.
    + destruct (kTupletBitmasks_row k ltac:(lia)) as (pats & pad & Hrow & _ & Hpats & Hle).
      rewrite (TupletPatternTable_row k pats pad Hrow Hpats). exact Hle.
  - exists []. split; [|reflexivity].
    assert (Hempty : replicate 7 ([] : list Z) !! Z.to_nat k = Some [])
      by (apply lookup_replicate; split; [reflexivity|lia]).
    revert Hf. unfold new_PrimeNumberFinder.
    destruct (isFlag_range ps COUNT TWINS SEPTUPLETS).
    + intros Hinit.
      match type of Hinit with initCounts ?f0 = _ =>
        destruct (initCounts_rows f0 eq_refl) as (g & Hg & Hrows) end.
      rewrite Hinit in Hg. injection Hg as <-.
      specialize (Hrows k Hk). cbn [ps_] in Hrows. rewrite Hreq in Hrows.
      rewrite Hrows. exact Hempty.
    + intros [= <-]. exact Hempty.
Qed.

(** ** K-tuplets and primes *)

(** A byte contains at most as many patterns of a kind as it has 1 bits. *)
Lemma matches_at_most_ones (k : Z) (b : byte) :
  1 <= k <= 6 -> Z.of_nat (length (matches k (u8 b))) <= ones 8 (u8 b).
Proof.
  intros Hk.
  destruct TupletPatternTable_values as (H1 & H2 & H3 & H4 & H5 & H6).
  assert (Hcases : k = 1 \/ k = 2 \/ k = 3 \/ k = 4 \/ k = 5 \/ k = 6) by lia.
  unfold matches.
  destruct Hcases as [->|[->|[->|[->|[->| ->]]]]];
    [rewrite H1|rewrite H2|rewrite H3|rewrite H4|rewrite H5|rewrite H6];
    clear; destruct b; vm_compute; intros H; discriminate H.
Qed.

Lemma count_occurrences_at_most_ones (k : Z) (s : list byte) :
  1 <= k <= 6 -> count_occurrences k s <= reference_popcount s.
Proof.
  intros Hk. induction s as [|b s IH]; cbn [count_occurrences reference_popcount]; [lia|].
  pose proof (matches_at_most_ones k b Hk). lia.
Qed.

(** X2.  On a segment whose bit count fits [uint_t], the k-tuplet count
    of every built kind is at most the prime count of the segment: a
    byte never contains more patterns of a kind than it has 1 bits. *)
Theorem kTuplets_at_most_primes (f : PrimeNumberFinder) (sieve : list byte) (n k : Z) :
  well_formed f ->
  1 <= k <= 6 ->
  isCount (ps_ f) k = true ->
  0 <= n <= Z.of_nat (length sieve) ->
  8 * n < 2 ^ UINT_BITS ->
  exists kCount : Z,
    count_kTuplets (kCounts_ f) k sieve n = Some kCount /\
    0 <= kCount <= count_primes sieve n.
Proof.
  intros (_ & _ & Htables) Hk Hcount Hn Hfit.
  exists (kTuplet_delta k (take (Z.to_nat n) sieve)).
  split; [apply count_kTuplets_spec; [apply Htables; assumption|exact Hn]|].
  rewrite kTuplet_delta_exact by (try exact Hk; rewrite length_take; lia).
  rewrite (count_primes_exact sieve n Hn Hfit).
  pose proof (count_occurrences_range k (take (Z.to_nat n) sieve) Hk).
  pose proof (count_occurrences_at_most_ones k (take (Z.to_nat n) sieve) Hk). lia.
Qed.

(** The 1 bits of a pattern of kind [k] are [k + 1] adjacent bits of a
    byte. *)
Lemma pattern_bits (k p : Z) :
  1 <= k <= 6 -> In p (TupletPatternTable k) ->
  set_bits p = seqZ (bitScanForward p) (k + 1) /\ bitScanForward p + k < 8.
Proof.
  intros Hk.
  destruct TupletPatternTable_values as (H1 & H2 & H3 & H4 & H5 & H6).
  assert (Hcases : k = 1 \/ k = 2 \/ k = 3 \/ k = 4 \/ k = 5 \/ k = 6) by lia.
  destruct Hcases as [->|[->|[->|[->|[->| ->]]]]];
    [rewrite H1|rewrite H2|rewrite H3|rewrite H4|rewrite H5|rewrite H6];
    clear; cbn [In]; intros Hin;
    repeat (destruct Hin as [<-|Hin]; [vm_compute; split; reflexivity|]);
    destruct Hin.
Qed.

Lemma length_kTuplet_records (k j : Z) (s : list byte) :
  Z.of_nat (length (kTuplet_records k j s)) = count_occurrences k s.
Proof.
  revert j. induction s as [|b s IH]; intros j; cbn [kTuplet_records count_occurrences];
    [reflexivity|].
  rewrite length_app, length_map, Nat2Z.inj_add, IH. reflexivity.
Qed.

Lemma kTuplet_records_cout (k j : Z) (s : list byte) :
  Forall (fun e => exists text : string, e = Cout text) (kTuplet_records k j s).
Proof.
  revert j. induction s as [|b s IH]; intros j; cbn [kTuplet_records]; [constructor|].
  apply Forall_app. split; [|apply IH].
  apply Forall_map. apply Forall_forall. intros p _. eexists. reflexivity.
Qed.

(** The kind that [generate] prints is the lowest one whose print flag
    is set. *)
Lemma generate_lowest (f : PrimeNumberFinder) (sieve : list byte) (n i : Z) :
  1 <= i <= 6 ->
  isPrint (ps_ f) i = true ->
  (forall i' : Z, 1 <= i' < i -> isPrint (ps_ f) i' = false) ->
  0 <= n <= Z.of_nat (length sieve) ->
  generate f sieve n = Some (kTuplet_records i 0 (take (Z.to_nat n) sieve)).
Proof.
  intros Hi Hprint Hbefore Hn.
  assert (Hany : isFlag_range (ps_ f) PRINT TWINS SEPTUPLETS = true)
    by (apply (isFlag_range_intro _ _ _ _ i); [unfold TWINS, SEPTUPLETS; lia|exact Hprint]).
  destruct (generate_kTuplets f sieve n Hany Hn) as (i0 & Hi0 & Hprint0 & Hbefore0 & Hgen).
  assert (i0 = i) as ->; [|exact Hgen].
  destruct (Z.lt_trichotomy i0 i) as [Hlt|[Heq|Hgt]]; [|exact Heq|].
  - rewrite (Hbefore i0) in Hprint0 by lia. discriminate.
  - rewrite (Hbefore0 i) in Hprint by lia. discriminate.
Qed.

(** X3.  When several print flags are set, [generate] prints the
    k-tuplets of the lowest kind among them and nothing else: whatever
    the flags of the higher kinds, of [PRINT_PRIMES] and of the
    callbacks, every event of the call is a console insertion of a
    record of that kind; no callback is called and the lock is not
    taken. *)
Theorem generate_lowest_print_kind (f : PrimeNumberFinder) (sieve : list byte) (n i : Z) :
  1 <= i <= 6 ->
  isPrint (ps_ f) i = true ->
  (forall i' : Z, 1 <= i' < i -> isPrint (ps_ f) i' = false) ->
  0 <= n <= Z.of_nat (length sieve) ->
  exists tr : list event,
    generate f sieve n = Some tr /\
    tr = kTuplet_records i 0 (take (Z.to_nat n) sieve) /\
    Forall (fun e => exists text : string, e = Cout text) tr.
Proof.
  intros Hi Hprint Hbefore Hn.
  exists (kTuplet_records i 0 (take (Z.to_nat n) sieve)).
  split; [apply generate_lowest; assumption|]. split; [reflexivity|].
  apply kTuplet_records_cout.
Qed.

(** X4.  Counting and printing agree: when the kind that [generate]
    prints is also counted, the number of records [generate] prints for
    a segment is what [count] adds to the accumulator of that kind (for
    a segment whose bit count fits [uint_t]). *)
Theorem printed_records_are_counted (f : PrimeNumberFinder) (sieve : list byte) (n i : Z) :
  well_formed f ->
  1 <= i <= 6 ->
  isPrint (ps_ f) i = true ->
  (forall i' : Z, 1 <= i' < i -> isPrint (ps_ f) i' = false) ->
  isCount (ps_ f) i = true ->
  0 <= n <= Z.of_nat (length sieve) ->
  8 * n < 2 ^ UINT_BITS ->
  exists (f' : PrimeNumberFinder) (tr : list event) (c : Z),
    count f sieve n = Some f' /\
    generate f sieve n = Some tr /\
    counts_ (ps_ f) !! Z.to_nat i = Some c /\
    counts_ (ps_ f') !! Z.to_nat i = Some (uint64_t (c + Z.of_nat (length tr))).
Proof.
  intros Hwf Hi Hprint Hbefore Hcount Hn Hfit.
  destruct (count_spec f sieve n Hwf Hn) as (c' & Hc' & _ & Hentries).
  destruct (Hentries i ltac:(lia)) as (c & Hc & Hci).
  exists (set_ps f (set_counts (ps_ f) c')),
         (kTuplet_records i 0 (take (Z.to_nat n) sieve)), c.
  split; [exact Hc'|]. split; [apply generate_lowest; assumption|]. split; [exact Hc|].
  rewrite Hcount, (count_delta_exact i sieve n) in Hci by (assumption || lia).
  unfold expected_delta in Hci. destruct (Z.eqb_spec i 0) as [?|_]; [lia|].
  rewrite length_kTuplet_records. exact Hci.
Qed.

(** X5.  Every record that [generate] prints for kind [i] lists [i + 1]
    numbers: those that [i + 1] adjacent bits of the byte stand for
    (two for twins, three for triplets, ..., seven for septuplets). *)
Theorem kTuplet_record_arity (f : PrimeNumberFinder) (sieve : list byte) (n : Z) :
  isFlag_range (ps_ f) PRINT TWINS SEPTUPLETS = true ->
  0 <= n <= Z.of_nat (length sieve) ->
  exists i : Z,
    1 <= i <= 6 /\
    generate f sieve n = Some (kTuplet_records i 0 (take (Z.to_nat n) sieve)) /\
    forall j p : Z, In p (TupletPatternTable i) ->
      length (kTuplet_values j p) = Z.to_nat (i + 1) /\
      exists pos : Z,
        0 <= pos /\ pos + i < 8 /\
        kTuplet_values j p = map (fun q => wrap 64 (wheel j q)) (seqZ pos (i + 1)).
Proof.
  intros Hmode Hn.
  destruct (generate_kTuplets f sieve n Hmode Hn) as (i & Hi & _ & _ & Hgen).
  exists i. split; [exact Hi|]. split; [exact Hgen|].
  intros j p Hp. destruct (pattern_bits i p Hi Hp) as (Hbits & Hpos).
  unfold kTuplet_values. rewrite Hbits. split.
  - rewrite length_map, length_seqZ. reflexivity.
  - exists (bitScanForward p). split; [|split; [exact Hpos|reflexivity]].
    destruct p as [|q|q]; cbn [bitScanForward]; try lia.
    clear. induction q; cbn [lowest_bit]; lia.
Qed.

(** ** Counting segment after segment *)

Lemma counts_ext (c1 c2 : list Z) :
  length c1 = 7%nat -> length c2 = 7%nat ->
  (forall i : Z, 0 <= i <= 6 -> c1 !! Z.to_nat i = c2 !! Z.to_nat i) ->
  c1 = c2.
Proof.
  intros H1 H2 H. apply list_eq. intros i. destruct (Nat.lt_ge_cases i 7) as [Hlt|Hge].
  - specialize (H (Z.of_nat i) ltac:(lia)). rewrite Nat2Z.id in H. exact H.
  - rewrite !lookup_ge_None_2 by lia. reflexivity.
Qed.

Lemma uint64_t_add (c a b : Z) : uint64_t (uint64_t (c + a) + b) = uint64_t (c + (a + b)).
Proof.
  unfold uint64_t, wrap. rewrite Zplus_mod_idemp_l. f_equal. lia.
Qed.

(** Two calls of [count] in a row add the two deltas of every requested
    kind. *)
Lemma count_then_count (f : PrimeNumberFinder) (s1 s2 : list byte) (n1 n2 : Z) :
  well_formed f ->
  0 <= n1 <= Z.of_nat (length s1) ->
  0 <= n2 <= Z.of_nat (length s2) ->
  exists c1 c2 : list Z,
    count f s1 n1 = Some (set_ps f (set_counts (ps_ f) c1)) /\
    count (set_ps f (set_counts (ps_ f) c1)) s2 n2
    = Some (set_ps f (set_counts (ps_ f) c2)) /\
    length c2 = 7%nat /\
    forall i : Z, 0 <= i <= 6 ->
      exists c : Z,
        counts_ (ps_ f) !! Z.to_nat i = Some c /\
        c2 !! Z.to_nat i
        = Some (if isCount (ps_ f) i
                then uint64_t (c + (count_delta i s1 n1 + count_delta i s2 n2)) else c).
Proof.
  intros Hwf Hn1 Hn2.
  destruct (count_spec f s1 n1 Hwf Hn1) as (c1 & Hc1 & Hlen1 & Hentries1).
  pose proof (count_well_formed f _ s1 n1 Hwf Hn1 Hc1) as Hwf1.
  destruct (count_spec _ s2 n2 Hwf1 Hn2) as (c2 & Hc2 & Hlen2 & Hentries2).
  exists c1, c2. split; [exact Hc1|]. split; [exact Hc2|]. split; [exact Hlen2|].
  intros i Hi.
  destruct (Hentries1 i Hi) as (c & Hc & Hci1).
  destruct (Hentries2 i Hi) as (c' & Hc' & Hci2).
  cbn [ps_ set_ps counts_ set_counts] in Hc'. rewrite Hci1 in Hc'. injection Hc' as <-.
  exists c. split; [exact Hc|]. rewrite Hci2.
  change (isCount (ps_ (set_ps f (set_counts (ps_ f) c1))) i) with (isCount (ps_ f) i).
  destruct (isCount (ps_ f) i); [|reflexivity].
  rewrite uint64_t_add. reflexivity.
Qed.

(** X6.  The order in which two segments are counted does not matter:
    counting one and then the other leaves the same finder, with the
    same accumulators, as counting them the other way round, whatever
    the flags and the sizes. *)
Theorem count_segments_commute (f : PrimeNumberFinder) (s1 s2 : list byte) (n1 n2 : Z) :
  well_formed f ->
  0 <= n1 <= Z.of_nat (length s1) ->
  0 <= n2 <= Z.of_nat (length s2) ->
  exists f1 f2 f' : PrimeNumberFinder,
    count f s1 n1 = Some f1 /\ count f1 s2 n2 = Some f' /\
    count f s2 n2 = Some f2 /\ count f2 s1 n1 = Some f'.
Proof.
  intros Hwf Hn1 Hn2.
  destruct (count_then_count f s1 s2 n1 n2 Hwf Hn1 Hn2)
    as (c1 & c12 & Hc1 & Hc12 & Hlen12 & Hentries12).
  destruct (count_then_count f s2 s1 n2 n1 Hwf Hn2 Hn1)
    as (c2 & c21 & Hc2 & Hc21 & Hlen21 & Hentries21).
  assert (c21 = c12) as ->.
  { apply counts_ext; try assumption. intros i Hi.
    destruct (Hentries12 i Hi) as (c & Hc & ->).
    destruct (Hentries21 i Hi) as (c' & Hc' & ->).
    rewrite Hc in Hc'. injection Hc' as <-.
    destruct (isCount (ps_ f) i); [|reflexivity]. do 3 f_equal. lia. }
  eauto 10.
Qed.

Lemma expected_delta_app (i : Z) (s1 s2 : list byte) :
  expected_delta i (s1 ++ s2) (Z.of_nat (length s1) + Z.of_nat (length s2))
  = expected_delta i s1 (Z.of_nat (length s1)) + expected_delta i s2 (Z.of_nat (length s2)).
Proof.
  unfold expected_delta. rewrite <- Nat2Z.inj_add, !Nat2Z.id, <- length_app.
  rewrite !firstn_all.
  destruct (i =? 0); [apply reference_popcount_app|apply count_occurrences_app].
Qed.

(** X7.  The counts do not depend on where the sieve array is cut into
    segments: counting a segment and then the next one leaves the same
    finder as counting the two as one segment, as long as the bit count
    of the whole fits [uint_t]. *)
Theorem count_segment_split (f : PrimeNumberFinder) (s1 s2 : list byte) :
  well_formed f ->
  8 * (Z.of_nat (length s1) + Z.of_nat (length s2)) < 2 ^ UINT_BITS ->
  exists f1 f' : PrimeNumberFinder,
    count f s1 (Z.of_nat (length s1)) = Some f1 /\
    count f1 s2 (Z.of_nat (length s2)) = Some f' /\
    count f (s1 ++ s2) (Z.of_nat (length s1) + Z.of_nat (length s2)) = Some f'.
Proof.
  intros Hwf Hfit.
  destruct (count_then_count f s1 s2 (Z.of_nat (length s1)) (Z.of_nat (length s2))
              Hwf ltac:(lia) ltac:(lia))
    as (c1 & c12 & Hc1 & Hc12 & Hlen12 & Hentries12).
  assert (Hn : 0 <= Z.of_nat (length s1) + Z.of_nat (length s2)
               <= Z.of_nat (length (s1 ++ s2))) by (rewrite length_app; lia).
  destruct (count_spec f (s1 ++ s2) _ Hwf Hn) as (c & Hc & Hlen & Hentries).
  assert (c = c12) as ->.
  { apply counts_ext; try assumption. intros i Hi.
    destruct (Hentries12 i Hi) as (c0 & Hc0 & ->).
    destruct (Hentries i Hi) as (c0' & Hc0' & ->).
    rewrite Hc0 in Hc0'. injection Hc0' as <-.
    destruct (isCount (ps_ f) i); [|reflexivity].
    rewrite !count_delta_exact by (try exact Hi; try exact Hn; lia).
    rewrite expected_delta_app. reflexivity. }
  eauto 10.
Qed.

(** ** [segmentProcessed], segment after segment *)

(** [segmentProcessed] returns, and changes nothing but the accumulators
    of the finder. *)
Lemma segmentProcessed_returns (f : PrimeNumberFinder) (sieve : list byte) (n : Z) :
  well_formed f ->
  0 <= n <= Z.of_nat (length sieve) ->
  exists (f' : PrimeNumberFinder) (tr : list event),
    segmentProcessed f sieve n = Some (f', tr) /\
    well_formed f' /\
    f' = set_ps f (set_counts (ps_ f) (counts_ (ps_ f'))) /\
    (if isCount_any (ps_ f) then count f sieve n = Some f' else f' = f).
Proof.
  intros Hwf Hn. unfold segmentProcessed.
  assert (Hcount : exists f', (if isCount_any (ps_ f) then count f sieve n else Some f) = Some f'
                              /\ well_formed f'
                              /\ f' = set_ps f (set_counts (ps_ f) (counts_ (ps_ f')))
                              /\ (if isCount_any (ps_ f)
                                  then count f sieve n = Some f' else f' = f)).
  { destruct (isCount_any (ps_ f)).
    - destruct (count_spec f sieve n Hwf Hn) as (c' & Hc' & _).
      eexists. split; [exact Hc'|].
      split; [exact (count_well_formed f _ sieve n Hwf Hn Hc')|]. split; [reflexivity|].
      exact Hc'.
    - exists f. split; [reflexivity|]. split; [exact Hwf|]. split; [|reflexivity].
      rewrite set_counts_id. destruct f. reflexivity. }
  destruct Hcount as (f' & Hstep & Hwf' & Hf' & Hcounted).
  rewrite Hstep. cbn [mbind option_bind].
  assert (Hgen : exists tr, (if isGenerate (ps_ f') then generate f' sieve n else Some [])
                            = Some tr).
  { destruct (isGenerate (ps_ f')); [apply generate_total, Hn|eauto]. }
  destruct Hgen as (tr & Hgstep). rewrite Hgstep. cbn [mbind option_bind].
  eexists f', _. split; [reflexivity|]. repeat (split; [assumption|]). exact Hcounted.
Qed.

(** X8.  [segmentProcessed] keeps what the next call relies on: it
    returns a finder that is well formed again (seven accumulators below
    2^64, the tables of the requested kinds), in which nothing but the
    accumulators [counts_] has changed (same sieve bounds, same flags and
    callbacks, same lookup tables), so that it returns on the next
    segment too. *)
Theorem segmentProcessed_preserves (f : PrimeNumberFinder) (s1 s2 : list byte)
    (n1 n2 : Z) :
  well_formed f ->
  0 <= n1 <= Z.of_nat (length s1) ->
  0 <= n2 <= Z.of_nat (length s2) ->
  exists (f1 f2 : PrimeNumberFinder) (tr1 tr2 : list event),
    segmentProcessed f s1 n1 = Some (f1, tr1) /\
    segmentProcessed f1 s2 n2 = Some (f2, tr2) /\
    well_formed f1 /\ well_formed f2 /\
    f1 = set_ps f (set_counts (ps_ f) (counts_ (ps_ f1))) /\
    f2 = set_ps f (set_counts (ps_ f) (counts_ (ps_ f2))).
Proof.
  intros Hwf Hn1 Hn2.
  destruct (segmentProcessed_returns f s1 n1 Hwf Hn1) as (f1 & tr1 & H1 & Hwf1 & Hf1 & _).
  destruct (segmentProcessed_returns f1 s2 n2 Hwf1 Hn2) as (f2 & tr2 & H2 & Hwf2 & Hf2 & _).
  exists f1, f2, tr1, tr2. repeat (split; [assumption|]).
  rewrite Hf2 at 1. rewrite Hf1 at 1 2. reflexivity.
Qed.

(** ** Bytes past the size *)

Lemma count_take (f : PrimeNumberFinder) (sieve extra : list byte) (n : Z) :
  well_formed f ->
  0 <= n <= Z.of_nat (length sieve) ->
  8 * n < 2 ^ UINT_BITS ->
  count f (sieve ++ extra) n = count f sieve n.
Proof.
  intros Hwf Hn Hfit.
  assert (Hn' : 0 <= n <= Z.of_nat (length (sieve ++ extra))) by (rewrite length_app; lia).
  destruct (count_spec f sieve n Hwf Hn) as (c & -> & Hlen & Hentries).
  destruct (count_spec f (sieve ++ extra) n Hwf Hn') as (c' & -> & Hlen' & Hentries').
  do 3 f_equal. apply counts_ext; try assumption. intros i Hi.
  destruct (Hentries i Hi) as (c0 & Hc0 & ->).
  destruct (Hentries' i Hi) as (c0' & Hc0' & ->).
  rewrite Hc0 in Hc0'. injection Hc0' as <-.
  destruct (isCount (ps_ f) i); [|reflexivity].
  rewrite !count_delta_exact by assumption.
  unfold expected_delta. rewrite take_app_le by lia. reflexivity.
Qed.

Lemma generate_take (f : PrimeNumberFinder) (sieve extra : list byte) (n : Z) :
  0 <= n <= Z.of_nat (length sieve) ->
  generate f (sieve ++ extra) n = generate f sieve n.
Proof.
  intros Hn.
  assert (Hn' : 0 <= n <= Z.of_nat (length (sieve ++ extra))) by (rewrite length_app; lia).
  destruct (isFlag_range (ps_ f) PRINT TWINS SEPTUPLETS) eqn:Hmode.
  - destruct (first_print_spec (ps_ f) Hmode) as (i & _ & Hi & Hprint & Hbefore).
    rewrite !(generate_lowest f _ n i) by assumption.
    rewrite take_app_le by lia. reflexivity.
  - rewrite !generate_single_value by assumption.
    rewrite take_app_le by lia. reflexivity.
Qed.

(** X9.  [segmentProcessed] uses the first [sieveSize] bytes of the
    array and nothing behind them: whatever bytes follow, the counts,
    the records and callbacks and the status report are the same (for a
    size whose bit count fits [uint_t]). *)
Theorem bytes_past_size_ignored (f : PrimeNumberFinder) (sieve extra : list byte) (n : Z) :
  well_formed f ->
  0 <= n <= Z.of_nat (length sieve) ->
  8 * n < 2 ^ UINT_BITS ->
  exists (f' : PrimeNumberFinder) (tr : list event),
    segmentProcessed f sieve n = Some (f', tr) /\
    segmentProcessed f (sieve ++ extra) n = Some (f', tr).
Proof.
  intros Hwf Hn Hfit.
  destruct (segmentProcessed_returns f sieve n Hwf Hn) as (f' & tr & Hseg & _).
  exists f', tr. split; [exact Hseg|]. rewrite <- Hseg.
  unfold segmentProcessed. rewrite (count_take f sieve extra n Hwf Hn Hfit).
  destruct (if isCount_any (ps_ f) then count f sieve n else Some f) as [g|];
    cbn [mbind option_bind]; [|reflexivity].
  rewrite (generate_take g sieve extra n Hn). reflexivity.
Qed.

(** ** A segment without primes *)

Lemma count_without_delta (f : PrimeNumberFinder) (sieve : list byte) (n : Z) :
  well_formed f ->
  0 <= n <= Z.of_nat (length sieve) ->
  (forall i : Z, 0 <= i <= 6 -> count_delta i sieve n = 0) ->
  count f sieve n = Some f.
Proof.
  intros Hwf Hn Hzero.
  destruct (count_spec f sieve n Hwf Hn) as (c' & -> & Hlen & Hentries).
  destruct Hwf as ((Hlen0 & Hrange) & _).
  assert (c' = counts_ (ps_ f)) as ->.
  { apply counts_ext; try assumption. intros i Hi.
    destruct (Hentries i Hi) as (c & Hc & ->). rewrite Hc. f_equal.
    destruct (isCount (ps_ f) i); [|reflexivity].
    rewrite Forall_lookup in Hrange. specialize (Hrange _ c Hc).
    rewrite (Hzero i Hi), Z.add_0_r. apply wrap_small, Hrange. }
  rewrite set_counts_id. destruct f. reflexivity.
Qed.

Lemma expected_delta_zero (i : Z) (sieve : list byte) (n : Z) :
  0 <= i <= 6 ->
  Forall (fun b => b = x00) (take (Z.to_nat n) sieve) ->
  expected_delta i sieve n = 0.
Proof.
  intros Hi Hzero. unfold expected_delta.
  destruct (Z.eqb_spec i 0) as [_|Hne].
  - induction Hzero as [|b s -> _ IH]; cbn [reference_popcount]; [reflexivity|].
    rewrite IH. reflexivity.
  - induction Hzero as [|b s -> _ IH]; cbn [count_occurrences]; [reflexivity|].
    rewrite IH. change (u8 x00) with 0.
    pose proof (brute_force_count_zero i ltac:(lia)) as H0.
    unfold brute_force_count in H0. lia.
Qed.

Lemma kTuplet_records_zero (k j : Z) (s : list byte) :
  1 <= k <= 6 -> Forall (fun b => b = x00) s -> kTuplet_records k j s = [].
Proof.
  intros Hk Hzero. revert j.
  induction Hzero as [|b s -> _ IH]; intros j; cbn [kTuplet_records]; [reflexivity|].
  rewrite IH, app_nil_r. change (u8 x00) with 0.
  pose proof (brute_force_count_zero k Hk) as H0. unfold brute_force_count in H0.
  destruct (matches k 0); [reflexivity|]. cbn [length] in H0. lia.
Qed.

Lemma prime_events_zero (callback : Z -> list event) (T j : Z) (s : list byte) :
  Forall (fun b => b = x00) s -> prime_events callback T j s = [].
Proof.
  intros Hzero. revert j.
  induction Hzero as [|b s -> _ IH]; intros j; cbn [prime_events]; [reflexivity|].
  rewrite IH. reflexivity.
Qed.

(** X10.  A segment without any 1 bit among its first [sieveSize]
    bytes (no prime left in it), of any size whose bit count fits
    [uint_t]: [count] returns the finder as it was, every accumulator
    unchanged, and [generate] returns without printing a record or
    calling a callback; in single-value mode its trace is the taking and
    the release of the lock. *)
Theorem segment_without_primes (f : PrimeNumberFinder) (sieve : list byte) (n : Z) :
  well_formed f ->
  0 <= n <= Z.of_nat (length sieve) ->
  8 * n < 2 ^ UINT_BITS ->
  Forall (fun b => b = x00) (take (Z.to_nat n) sieve) ->
  count f sieve n = Some f /\
  generate f sieve n
  = Some (if isFlag_range (ps_ f) PRINT TWINS SEPTUPLETS then [] else [Lock; Unlock]).
Proof.
  intros Hwf Hn Hfit Hzero. split.
  - apply count_without_delta; try assumption. intros i Hi.
    rewrite count_delta_exact by assumption. apply expected_delta_zero; assumption.
  - destruct (isFlag_range (ps_ f) PRINT TWINS SEPTUPLETS) eqn:Hmode.
    + destruct (generate_kTuplets f sieve n Hmode Hn) as (i & Hi & _ & _ & ->).
      rewrite kTuplet_records_zero by assumption. reflexivity.
    + rewrite (generate_single_value f sieve n Hmode Hn).
      unfold single_value_events. rewrite !prime_events_zero by assumption.
      repeat match goal with |- context [if ?c then _ else _] => destruct c end;
        reflexivity.
Qed.

(** ** The sinks of the single-value mode *)

Lemma flat_map_map {A B C : Type} (g : B -> list C) (h : A -> B) (l : list A) :
  flat_map g (map h l) = flat_map (fun x => g (h x)) l.
Proof. induction l as [|x l IH]; cbn [map flat_map]; [reflexivity|]. rewrite IH. reflexivity. Qed.

Lemma prime_events_values (callback : Z -> list event) (T j : Z) (s : list byte) :
  prime_events callback T j s = flat_map callback (segment_values T j s).
Proof.
  revert j. induction s as [|b s IH]; intros j; cbn [prime_events segment_values];
    [reflexivity|].
  rewrite flat_map_app, flat_map_map, IH. reflexivity.
Qed.

Lemma length_set_bits_byte (b : byte) : Z.of_nat (length (set_bits (u8 b))) = ones 8 (u8 b).
Proof. destruct b; vm_compute; reflexivity. Qed.

Lemma length_segment_values (T j : Z) (s : list byte) :
  Z.of_nat (length (segment_values T j s)) = reference_popcount s.
Proof.
  revert j. induction s as [|b s IH]; intros j; cbn [segment_values reference_popcount];
    [reflexivity|].
  rewrite length_app, length_map, Nat2Z.inj_add, IH, length_set_bits_byte. reflexivity.
Qed.

Lemma wrap_32_64 (x : Z) : wrap 32 (wrap 64 x) = wrap 32 x.
Proof.
  unfold wrap. apply Z.mod_mod_divide. exists (2 ^ 32). reflexivity.
Qed.

Lemma segment_values_32 (j : Z) (s : list byte) :
  segment_values 32 j s = map (wrap 32) (segment_values 64 j s).
Proof.
  revert j. induction s as [|b s IH]; intros j; cbn [segment_values]; [reflexivity|].
  rewrite map_app, map_map, IH. f_equal.
  apply map_ext. intros pos. symmetry. apply wrap_32_64.
Qed.

Lemma flat_map_singleton {A B : Type} (g : A -> B) (l : list A) :
  flat_map (fun x => [g x]) l = map g l.
Proof. induction l as [|x l IH]; cbn [map flat_map]; [reflexivity|]. rewrite IH. reflexivity. Qed.

(** X11.  In single-value mode every enabled sink is served in turn, in
    the order callback32, callback64, callback32_OOP, callback64_OOP,
    print, all between the taking and the release of the lock, and each
    is handed the same sequence of numbers, one per 1 bit of the
    segment, as many as [count] counts primes: the 32-bit callbacks get
    them reduced to 32 bits, the OOP callbacks get the context object
    with each of them, and [print] writes the decimal text and then the
    newline. *)
Theorem single_value_sinks (f : PrimeNumberFinder) (sieve : list byte) (n : Z) :
  isFlag_range (ps_ f) PRINT TWINS SEPTUPLETS = false ->
  0 <= n <= Z.of_nat (length sieve) ->
  8 * n < 2 ^ UINT_BITS ->
  exists primes : list Z,
    Z.of_nat (length primes) = count_primes sieve n /\
    generate f sieve n
    = Some (Lock ::
            ((if isFlag (ps_ f) CALLBACK32_PRIMES
              then map (fun p => Callback32 (wrap 32 p)) primes else []) ++
             (if isFlag (ps_ f) CALLBACK64_PRIMES
              then map Callback64 primes else []) ++
             (if isFlag (ps_ f) CALLBACK32_OOP_PRIMES
              then map (fun p => Callback32_OOP (wrap 32 p) (obj_ (ps_ f))) primes else []) ++
             (if isFlag (ps_ f) CALLBACK64_OOP_PRIMES
              then map (fun p => Callback64_OOP p (obj_ (ps_ f))) primes else []) ++
             (if isFlag (ps_ f) (PRINT PRIMES)
              then flat_map (fun p => [Cout (dec p); Cout nl]) primes else []))
            ++ [Unlock]).
Proof.
  intros Hmode Hn Hfit.
  exists (segment_values 64 0 (take (Z.to_nat n) sieve)). split.
  - rewrite length_segment_values. symmetry. apply count_primes_exact; assumption.
  - rewrite (generate_single_value f sieve n Hmode Hn).
    unfold single_value_events. rewrite !prime_events_values, segment_values_32.
    unfold callback32_, callback64_, callback32_OOP, callback64_OOP.
    rewrite !flat_map_singleton, !map_map. reflexivity.
Qed.

(** ** What [count] relies on *)

Lemma for_loop_fails {St : Type} (I : St -> Prop) (body : Z -> St -> option St) (k : Z) :
  (forall (i : Z) (s s' : St), I s -> body i s = Some s' -> I s') ->
  (forall s : St, I s -> body k s = None) ->
  forall (n : nat) (i : Z) (s : St),
    I s -> i <= k < i + Z.of_nat n -> for_loop n i body s = None.
Proof.
  intros Hkeep Hk n. induction n as [|n IH]; intros i s Hs Hr; [lia|].
  cbn [for_loop]. destruct (Z.eq_dec i k) as [->|Hne].
  - rewrite (Hk s Hs). reflexivity.
  - destruct (body i s) as [s'|] eqn:Hbody; [|reflexivity].
    cbn [mbind option_bind]. apply IH; [exact (Hkeep i s s' Hs Hbody)|lia].
Qed.

(** X12.  [count] relies on the tables that the constructor builds and
    does not check for them: when a k-tuplet count is requested whose
    table is empty (the kind was not requested when the finder was
    constructed), [count] on a segment that is not empty reads
    [kCounts_[k][sieve[0]]] outside the table and has no defined
    result. *)
Theorem count_needs_tables (f : PrimeNumberFinder) (sieve : list byte) (n k : Z) :
  1 <= k <= 6 ->
  isCount (ps_ f) k = true ->
  kCounts_ f !! Z.to_nat k = Some [] ->
  0 < n <= Z.of_nat (length sieve) ->
  count f sieve n = None.
Proof.
  intros Hk Hcount Hempty Hn. unfold count.
  assert (Hfirst : exists ps0, flags_ ps0 = flags_ (ps_ f) /\
            forall r : option PrimeSieve,
              (if isFlag (ps_ f) (COUNT PRIMES)
               then add_count (ps_ f) 0 (count_primes sieve n) else Some (ps_ f)) = r ->
              r = None \/ r = Some ps0).
  { destruct (isFlag (ps_ f) (COUNT PRIMES)).
    - unfold add_count. destruct (counts_ (ps_ f) !! Z.to_nat 0) as [c|].
      + eexists. split; [|intros r <-; right; reflexivity]. reflexivity.
      + exists (ps_ f). split; [reflexivity|]. intros r <-. left. reflexivity.
    - exists (ps_ f). split; [reflexivity|]. intros r <-. right. reflexivity. }
  destruct Hfirst as (ps0 & Hflags & Hor).
  destruct (Hor _ eq_refl) as [-> | ->]; [reflexivity|].
  cbn [mbind option_bind].
  assert (Hloop : forall body, body = (fun (i : Z) (ps : PrimeSieve) =>
              if isCount ps i then
                kCount ← count_kTuplets (kCounts_ f) i sieve n;
                add_count ps i kCount
              else Some ps) ->
            for_range 1 7 body ps0 = None).
  { intros body ->. unfold for_range.
    apply (for_loop_fails (fun ps => flags_ ps = flags_ (ps_ f)) _ k).
    - intros i ps ps' Hps. destruct (isCount ps i); [|intros [= <-]; exact Hps].
      destruct (count_kTuplets (kCounts_ f) i sieve n) as [kCount|]; [|discriminate].
      cbn [mbind option_bind]. unfold add_count.
      destruct (counts_ ps !! Z.to_nat i) as [c|]; [|discriminate].
      intros [= <-]. exact Hps.
    - intros ps Hps. unfold isCount, isFlag in *. rewrite Hps, Hcount.
      unfold count_kTuplets, for_range.
      destruct (Z.to_nat (n - 0)) as [|m] eqn:Hm; [lia|]. cbn [for_loop].
      destruct (lookup_lt_is_Some_2 sieve (Z.to_nat 0) ltac:(lia)) as (b & ->).
      rewrite Hempty. reflexivity.
    - exact Hflags.
    - change (Z.of_nat (Z.to_nat (7 - 1))) with 6. lia. }
  rewrite (Hloop _ eq_refl). reflexivity.
Qed.

(** ** From the constructor to the first segment *)

Lemma expected_delta_range (i : Z) (sieve : list byte) (n : Z) :
  0 <= i <= 6 -> 0 <= n -> 0 <= expected_delta i sieve n <= 8 * n.
Proof.
  intros Hi Hn. unfold expected_delta.
  assert (Hlen : Z.of_nat (length (take (Z.to_nat n) sieve)) <= n)
    by (rewrite length_take; lia).
  destruct (Z.eqb_spec i 0) as [_|Hne].
  - pose proof (reference_popcount_range (take (Z.to_nat n) sieve)). lia.
  - pose proof (count_occurrences_range i (take (Z.to_nat n) sieve) ltac:(lia)). lia.
Qed.

(** X13.  The constructor sets up what [segmentProcessed] needs: for a
    PrimeSieve object whose seven accumulators are 0, the constructor
    returns a finder on which [segmentProcessed] returns for every
    segment, and after the first segment (its bit count fitting [uint_t]
    and 64 bits) the accumulator of every requested kind holds the exact
    count (the 1 bits for the primes, the occurrences of a pattern for a
    k-tuplet kind) and every other accumulator is still 0. *)
Theorem construct_then_process (ps : PrimeSieve) (sieve : list byte) (n : Z) :
  counts_ ps = replicate 7 0 ->
  0 <= n <= Z.of_nat (length sieve) ->
  8 * n < 2 ^ UINT_BITS ->
  8 * n < 2 ^ 64 ->
  exists (f f' : PrimeNumberFinder) (tr : list event),
    new_PrimeNumberFinder ps = Some f /\
    segmentProcessed f sieve n = Some (f', tr) /\
    forall i : Z, 0 <= i <= 6 ->
      counts_ (ps_ f') !! Z.to_nat i
      = Some (if isCount ps i then expected_delta i sieve n else 0).
Proof.
  intros Hzero Hn Hfit Hfit64.
  assert (Hok : counts_ok ps).
  { unfold counts_ok. rewrite Hzero. split; [reflexivity|].
    apply Forall_replicate. lia. }
  destruct (new_PrimeNumberFinder_well_formed ps Hok) as (f & Hf & Hps & Hwf).
  destruct (segmentProcessed_returns f sieve n Hwf Hn) as (f' & tr & Hseg & _ & _ & Hcounted).
  exists f, f', tr. split; [exact Hf|]. split; [exact Hseg|].
  intros i Hi.
  assert (Hold : counts_ ps !! Z.to_nat i = Some 0)
    by (rewrite Hzero; apply lookup_replicate; split; [reflexivity|lia]).
  rewrite Hps in Hcounted.
  destruct (isCount_any ps) eqn:Hany.
  - destruct (count_spec f sieve n Hwf Hn) as (c' & Hc' & _ & Hentries).
    rewrite Hc' in Hcounted. injection Hcounted as <-.
    destruct (Hentries i Hi) as (c & Hc & Hci). rewrite Hps in Hc, Hci.
    rewrite Hold in Hc. injection Hc as <-.
    cbn [ps_ set_ps counts_ set_counts]. rewrite Hci.
    destruct (isCount ps i); [|reflexivity].
    rewrite count_delta_exact by assumption.
    pose proof (expected_delta_range i sieve n Hi ltac:(lia)).
    cbn [Z.add]. f_equal. apply wrap_small. lia.
  - subst f'. rewrite Hps, Hold.
    destruct (isCount ps i) eqn:Hcount; [|reflexivity].
    unfold isCount_any in Hany.
    rewrite (isFlag_range_intro ps COUNT PRIMES SEPTUPLETS i) in Hany;
      [discriminate|unfold PRIMES, SEPTUPLETS; lia|exact Hcount].
Qed.

(** ** K-tuplet counts that do not fit [uint_t] *)

Lemma uint_t_add_l (a b : Z) : uint_t (uint_t a + b) = uint_t (a + b).
Proof. unfold uint_t, wrap. apply Zplus_mod_idemp_l. Qed.

Lemma kTuplet_delta_modular (k : Z) (s : list byte) :
  kTuplet_delta k s = uint_t (count_occurrences k s).
Proof.
  unfold kTuplet_delta.
  assert (Hgen : forall kCount : Z,
            fold_left (fun kCount b => uint_t (kCount + brute_force_count k (u8 b))) s
              (uint_t kCount)
            = uint_t (kCount + count_occurrences k s)).
  { induction s as [|b s IH]; intros kCount; cbn [fold_left count_occurrences].
    - rewrite Z.add_0_r. reflexivity.
    - rewrite uint_t_add_l, IH. unfold brute_force_count. f_equal. lia. }
  assert (H0 : uint_t 0 = 0)
    by (unfold uint_t, wrap; apply Z.mod_0_l, Z.pow_nonzero; lia).
  specialize (Hgen 0). rewrite H0, Z.add_0_l in Hgen. exact Hgen.
Qed.

(** X14.  Whatever the size of the segment, the k-tuplet count of a
    built kind is the number of occurrences reduced modulo 2^UINT_BITS:
    the sum is accumulated in a [uint_t], so a count that does not fit
    wraps around, and that reduced value is what [count] adds to the
    64-bit accumulator of the kind. *)
Theorem count_kTuplets_modular (f : PrimeNumberFinder) (sieve : list byte) (n k : Z) :
  well_formed f ->
  1 <= k <= 6 ->
  isCount (ps_ f) k = true ->
  0 <= n <= Z.of_nat (length sieve) ->
  exists (f' : PrimeNumberFinder) (c : Z),
    count_kTuplets (kCounts_ f) k sieve n
    = Some (count_occurrences k (take (Z.to_nat n) sieve) mod 2 ^ UINT_BITS) /\
    count f sieve n = Some f' /\
    counts_ (ps_ f) !! Z.to_nat k = Some c /\
    counts_ (ps_ f') !! Z.to_nat k
    = Some (uint64_t (c + count_occurrences k (take (Z.to_nat n) sieve) mod 2 ^ UINT_BITS)).
Proof.
  intros Hwf Hk Hcount Hn.
  pose proof Hwf as (_ & _ & Htables).
  destruct (count_spec f sieve n Hwf Hn) as (c' & Hc' & _ & Hentries).
  destruct (Hentries k ltac:(lia)) as (c & Hc & Hck).
  exists (set_ps f (set_counts (ps_ f) c')), c.
  split.
  - rewrite (count_kTuplets_spec _ k sieve n (Htables k Hk Hcount) Hn).
    rewrite kTuplet_delta_modular. reflexivity.
  - split; [exact Hc'|]. split; [exact Hc|].
    rewrite Hcount in Hck. unfold count_delta in Hck.
    destruct (Z.eqb_spec k 0); [lia|].
    rewrite kTuplet_delta_modular in Hck. exact Hck.
Qed.

(** ** The sieving interval *)

Lemma bit_positions_testbit (p : positive) :
  forall pos q : Z, In q (bit_positions pos p) ->
    pos <= q /\ Z.testbit (Z.pos p) (q - pos) = true.
Proof.
  induction p as [p IH|p IH|]; intros pos q Hq; cbn [bit_positions In] in Hq.
  - destruct Hq as [<-|Hq]; [split; [lia|]; rewrite Z.sub_diag; reflexivity|].
    destruct (IH (pos + 1) q Hq) as (Hle & Hbit). split; [lia|].
    replace (q - pos) with (Z.succ (q - (pos + 1))) by lia.
    change (Z.pos p~1) with (2 * Z.pos p + 1).
    rewrite Z.testbit_odd_succ by lia. exact Hbit.
  - destruct (IH (pos + 1) q Hq) as (Hle & Hbit). split; [lia|].
    replace (q - pos) with (Z.succ (q - (pos + 1))) by lia.
    change (Z.pos p~0) with (2 * Z.pos p).
    rewrite Z.testbit_even_succ by lia. exact Hbit.
  - destruct Hq as [<-|[]]. split; [lia|]. rewrite Z.sub_diag. reflexivity.
Qed.

(** The positions that [set_bits] lists are positions of 1 bits. *)
Lemma set_bits_testbit (bits q : Z) : In q (set_bits bits) -> Z.testbit bits q = true.
Proof.
  destruct bits as [|p|p]; cbn [set_bits In]; try contradiction.
  intros Hq. destruct (bit_positions_testbit p 0 q Hq) as (_ & Hbit).
  rewrite Z.sub_0_r in Hbit. exact Hbit.
Qed.

Lemma submask_testbit (j p q : Z) :
  submask j p = true -> Z.testbit p q = true -> Z.testbit j q = true.
Proof.
  unfold submask. intros Hsub Hbit. apply Z.eqb_eq in Hsub.
  rewrite <- Hsub, Z.land_spec in Hbit. apply andb_true_iff in Hbit. apply Hbit.
Qed.

(** The numbers of the 1 bits of a segment whose bits stand for numbers
    between [lo] and [hi] lie between [lo] and [hi]. *)
Lemma segment_values_between (lo hi : Z) (s : list byte) :
  forall j0 : Z,
    0 <= j0 -> j0 + Z.of_nat (length s) <= 2 ^ UINT_BITS ->
    (forall (i : nat) (b : byte) (pos : Z),
       s !! i = Some b -> 0 <= pos < 8 -> Z.testbit (u8 b) pos = true ->
       lo <= wheel (j0 + Z.of_nat i) pos <= hi) ->
    Forall (fun v => lo <= v <= hi) (segment_values 64 j0 s).
Proof.
  induction s as [|b s IH]; intros j0 Hj0 Hlen Hbits; cbn [segment_values];
    [constructor|].
  cbn [length] in Hlen. apply Forall_app. split.
  - apply Forall_map, Forall_forall. intros pos Hpos. simpl.
    destruct (set_bits_byte (u8 b) ltac:(pose proof (u8_range b); lia)) as (_ & Hrange).
    rewrite Forall_forall in Hrange. specialize (Hrange pos Hpos).
    rewrite wrap_small by (apply wheel_range; lia).
    replace j0 with (j0 + Z.of_nat 0) by lia.
    apply (Hbits 0%nat b pos); [reflexivity|exact Hrange|apply set_bits_testbit, Hpos].
  - apply IH; [lia|lia|]. intros i b' pos Hb' Hpos Hbit.
    replace (j0 + 1 + Z.of_nat i) with (j0 + Z.of_nat (S i)) by lia.
    apply (Hbits (S i) b' pos); assumption.
Qed.

(** So do the numbers of the groups of every kind. *)
Lemma kTuplet_groups_between (k lo hi : Z) (s : list byte) :
  1 <= k <= 6 ->
  forall j0 : Z,
    0 <= j0 -> j0 + Z.of_nat (length s) <= 2 ^ UINT_BITS ->
    (forall (i : nat) (b : byte) (pos : Z),
       s !! i = Some b -> 0 <= pos < 8 -> Z.testbit (u8 b) pos = true ->
       lo <= wheel (j0 + Z.of_nat i) pos <= hi) ->
    Forall (Forall (fun v => lo <= v <= hi)) (kTuplet_groups k j0 s).
Proof.
  intros Hk. induction s as [|b s IH]; intros j0 Hj0 Hlen Hbits; cbn [kTuplet_groups];
    [constructor|].
  cbn [length] in Hlen. apply Forall_app. split.
  - apply Forall_map, Forall_forall. intros p Hp. simpl.
    apply list_elem_of_In, list_elem_of_filter in Hp. destruct Hp as (Hsub & Hin).
    apply list_elem_of_In in Hin.
    pose proof (TupletPatternTable_byte k p Hk Hin) as Hbyte.
    destruct (set_bits_byte p ltac:(lia)) as (_ & Hrange). rewrite Forall_forall in Hrange.
    unfold kTuplet_values. apply Forall_map, Forall_forall. intros pos Hpos. simpl.
    specialize (Hrange pos Hpos).
    rewrite wrap_small by (apply wheel_range; lia).
    replace j0 with (j0 + Z.of_nat 0) by lia.
    apply (Hbits 0%nat b pos); [reflexivity|exact Hrange|].
    apply (submask_testbit (u8 b) p pos Hsub), set_bits_testbit, Hpos.
  - apply IH; [lia|lia|]. intros i b' pos Hb' Hpos Hbit.
    replace (j0 + 1 + Z.of_nat i) with (j0 + Z.of_nat (S i)) by lia.
    apply (Hbits (S i) b' pos); assumption.
Qed.

Lemma kTuplet_records_groups (k j : Z) (s : list byte) :
  kTuplet_records k j s = map (fun g => Cout (record_text g)) (kTuplet_groups k j s).
Proof.
  revert j. induction s as [|b s IH]; intros j; cbn [kTuplet_records kTuplet_groups];
    [reflexivity|].
  rewrite map_app, map_map, IH. reflexivity.
Qed.

Lemma length_kTuplet_groups (k j : Z) (s : list byte) :
  Z.of_nat (length (kTuplet_groups k j s)) = count_occurrences k s.
Proof.
  revert j. induction s as [|b s IH]; intros j; cbn [kTuplet_groups count_occurrences];
    [reflexivity|].
  rewrite length_app, length_map, Nat2Z.inj_add, IH. reflexivity.
Qed.

(** The trace of the single-value mode, sink by sink. *)
Lemma generate_sink_events (f : PrimeNumberFinder) (sieve : list byte) (n : Z) :
  isFlag_range (ps_ f) PRINT TWINS SEPTUPLETS = false ->
  0 <= n <= Z.of_nat (length sieve) ->
  generate f sieve n
  = Some (Lock :: sink_events (ps_ f) (segment_values 64 0 (take (Z.to_nat n) sieve))
          ++ [Unlock]).
Proof.
  intros Hmode Hn. rewrite (generate_single_value f sieve n Hmode Hn).
  unfold single_value_events, sink_events.
  rewrite !prime_events_values, segment_values_32.
  unfold callback32_, callback64_, callback32_OOP, callback64_OOP.
  rewrite !flat_map_singleton, !map_map. reflexivity.
Qed.

(** A segment of the engine, read from the first byte on. *)
Lemma engine_segment_take (b : SieveOfEratosthenes) (sieve : list byte) (n : Z) :
  0 <= n ->
  engine_segment b sieve n ->
  forall (i : nat) (sieve_i : byte) (pos : Z),
    take (Z.to_nat n) sieve !! i = Some sieve_i -> 0 <= pos < 8 ->
    Z.testbit (u8 sieve_i) pos = true ->
    start_ b <= wheel (0 + Z.of_nat i) pos <= stop_ b.
Proof.
  intros Hn Hengine i sieve_i pos Hi Hpos Hbit.
  apply lookup_take_Some in Hi. destruct Hi as (Hi & Hlt).
  apply (Hengine (0 + Z.of_nat i) pos sieve_i); try assumption; [lia|].
  replace (Z.to_nat (0 + Z.of_nat i)) with i by lia. exact Hi.
Qed.

(** C10.  The constructor hands [max(7, start)] to the sieve as its
    start: the sieve of a run whose start is below 7 starts at 7, and 2,
    3 and 5 are outside the interval it sieves.  On every segment that
    the engine hands over for that interval, every number that [count]
    counts (the number of a 1 bit, the group of a contained pattern) and
    every number that [generate] emits (the numbers of a printed record,
    the number handed to a sink) lies in the interval, from 7 on: none
    of them is 2, 3 or 5. *)
Theorem constructor_clamps_start (ps : PrimeSieve) (sieve : list byte) (n : Z) :
  0 <= getStart ps < 2 ^ 64 ->
  counts_ok ps ->
  0 <= n <= Z.of_nat (length sieve) ->
  8 * n < 2 ^ UINT_BITS ->
  (forall f : PrimeNumberFinder,
     new_PrimeNumberFinder ps = Some f -> engine_segment (base f) sieve n) ->
  exists f : PrimeNumberFinder,
    new_PrimeNumberFinder ps = Some f /\
    start_ (base f) = Z.max 7 (getStart ps) /\
    stop_ (base f) = getStop ps /\
    (getStart ps < 7 -> start_ (base f) = 7) /\
    (forall p : Z, In p [2; 3; 5] -> ~ (start_ (base f) <= p <= stop_ (base f))) /\
    let primes := segment_values 64 0 (take (Z.to_nat n) sieve) in
    let groups := fun k : Z => kTuplet_groups k 0 (take (Z.to_nat n) sieve) in
    let sieved := fun v : Z => 7 <= start_ (base f) <= v /\ v <= stop_ (base f) /\
                               ~ In v [2; 3; 5] in
    Forall sieved primes /\
    (forall k : Z, 1 <= k <= 6 -> Forall (Forall sieved) (groups k)) /\
    (getStop ps < 2 ^ 32 -> Forall (fun v => wrap 32 v = v) primes) /\
    (exists f' : PrimeNumberFinder,
       count f sieve n = Some f' /\
       forall i : Z, 0 <= i <= 6 -> isCount ps i = true ->
         exists c : Z,
           counts_ ps !! Z.to_nat i = Some c /\
           counts_ (ps_ f') !! Z.to_nat i
           = Some (uint64_t (c + Z.of_nat (if i =? 0 then length primes
                                           else length (groups i))))) /\
    (exists tr : list event,
       generate f sieve n = Some tr /\
       if isFlag_range ps PRINT TWINS SEPTUPLETS
       then exists i : Z,
              1 <= i <= 6 /\ isPrint ps i = true /\
              tr = map (fun g => Cout (record_text g)) (groups i)
       else tr = Lock :: sink_events ps primes ++ [Unlock]).
Proof.
  intros Hstart Hcounts Hn Hfit Hengine.
  destruct (new_PrimeNumberFinder_spec ps) as (f & Hf & Hps & Hbase & Htables).
  assert (Hwf : well_formed f) by (unfold well_formed; rewrite Hps; split; assumption).
  specialize (Hengine f Hf).
  pose proof (engine_segment_take (base f) sieve n ltac:(lia) Hengine) as Hbits.
  assert (Hlo : start_ (base f) = Z.max 7 (getStart ps)).
  { rewrite Hbase. cbn [start_]. unfold uint64_t.
    rewrite (wrap_small 64 (getStart ps) Hstart). reflexivity. }
  assert (Hhi : stop_ (base f) = getStop ps) by (rewrite Hbase; reflexivity).
  assert (Hlen : 0 + Z.of_nat (length (take (Z.to_nat n) sieve)) <= 2 ^ UINT_BITS)
    by (rewrite length_take; lia).
  assert (Hsieved : forall v : Z,
            start_ (base f) <= v <= stop_ (base f) ->
            7 <= start_ (base f) <= v /\ v <= stop_ (base f) /\ ~ In v [2; 3; 5]).
  { intros v Hv. split; [lia|]. split; [lia|]. cbn [In]. lia. }
  pose proof (segment_values_between (start_ (base f)) (stop_ (base f))
                (take (Z.to_nat n) sieve) 0 ltac:(lia) Hlen Hbits) as Hprimes.
  exists f. split; [exact Hf|]. split; [exact Hlo|]. split; [exact Hhi|].
  split; [lia|]. split; [intros p Hp; cbn [In] in Hp; lia|].
  cbv zeta. split; [|split; [|split; [|split]]].
  - eapply Forall_impl; [|exact Hprimes]. exact Hsieved.
  - intros k Hk.
    pose proof (kTuplet_groups_between k (start_ (base f)) (stop_ (base f))
                  (take (Z.to_nat n) sieve) Hk 0 ltac:(lia) Hlen Hbits) as Hgroups.
    eapply Forall_impl; [|exact Hgroups]. simpl. intros g Hg.
    eapply Forall_impl; [|exact Hg]. exact Hsieved.
  - intros Hstop. eapply Forall_impl; [|exact Hprimes]. simpl. intros v Hv.
    apply wrap_small. lia.
  - destruct (count_spec f sieve n Hwf Hn) as (c' & Hc' & _ & Hentries).
    eexists. split; [exact Hc'|]. intros i Hi Hcount.
    destruct (Hentries i Hi) as (c & Hc & Hci). rewrite Hps in Hc, Hci.
    exists c. split; [exact Hc|]. cbn [ps_ set_ps counts_ set_counts].
    rewrite Hci, Hcount, (count_delta_exact i sieve n Hi Hn Hfit).
    unfold expected_delta. destruct (i =? 0).
    + rewrite length_segment_values. reflexivity.
    + rewrite length_kTuplet_groups. reflexivity.
  - rewrite <- Hps. destruct (isFlag_range (ps_ f) PRINT TWINS SEPTUPLETS) eqn:Hmode.
    + destruct (generate_kTuplets f sieve n Hmode Hn) as (i & Hi & Hprint & _ & Hgen).
      eexists. split; [exact Hgen|]. exists i. split; [exact Hi|]. split; [exact Hprint|].
      apply kTuplet_records_groups.
    + eexists. split; [apply generate_sink_events; assumption|]. reflexivity.
Qed.

End PrimeNumberFinder.

(** * The concrete platform

    A 32-bit [uint_t], the sentinel 256, thirty numbers per byte and the
    sample population counts and wheel meet what the section assumes. *)

(** ** The 64-bit parallel bit count *)

Lemma below_forallb (P : Z -> bool) (n : Z) :
  forallb P (seqZ 0 n) = true -> forall u, 0 <= u < n -> P u = true.
Proof.
  intros H u Hu. rewrite forallb_forall in H. apply H.
  apply list_elem_of_In, elem_of_seqZ. lia.
Qed.

Lemma land_split (u c x m : Z) :
  0 <= u < 256 -> 0 <= c < 256 ->
  Z.land (u + 256 * x) (c + 256 * m) = Z.land u c + 256 * Z.land x m.
Proof.
  intros Hu Hc.
  set (z := Z.land (u + 256 * x) (c + 256 * m)).
  assert (Hmod : z mod 256 = Z.land u c).
  { unfold z. change 256 with (2 ^ 8) at 3. rewrite <- Z.land_ones by lia.
    rewrite <- (Z.land_diag (Z.ones 8)) at 1.
    rewrite Z.land_assoc, <- (Z.land_assoc (u + 256 * x)), (Z.land_comm (c + 256 * m)).
    rewrite Z.land_assoc, <- Z.land_assoc.
    rewrite !Z.land_ones by lia. change (2 ^ 8) with 256.
    f_equal; symmetry; [apply (Z.mod_unique_pos _ _ x)|apply (Z.mod_unique_pos _ _ m)]; lia. }
  assert (Hdiv : z / 256 = Z.land x m).
  { unfold z. change 256 with (2 ^ 8) at 3. rewrite <- Z.shiftr_div_pow2 by lia.
    rewrite Z.shiftr_land, !Z.shiftr_div_pow2 by lia. change (2 ^ 8) with 256.
    f_equal; symmetry; [apply (Z.div_unique_pos _ _ x u)|apply (Z.div_unique_pos _ _ m c)]; lia. }
  pose proof (Z.div_mod z 256 ltac:(lia)). lia.
Qed.

Lemma shiftr_split (s u x : Z) :
  0 <= s <= 8 -> 0 <= u < 256 ->
  Z.shiftr (u + 256 * x) s
  = (u / 2 ^ s + 2 ^ (8 - s) * (x mod 2 ^ s)) + 256 * Z.shiftr x s /\
  0 <= u / 2 ^ s + 2 ^ (8 - s) * (x mod 2 ^ s) < 256.
Proof.
  intros Hs Hu. rewrite !Z.shiftr_div_pow2 by lia.
  assert (Hd : 0 < 2 ^ s) by (apply Z.pow_pos_nonneg; lia).
  assert (He : 0 < 2 ^ (8 - s)) by (apply Z.pow_pos_nonneg; lia).
  assert (Hde : 2 ^ s * 2 ^ (8 - s) = 256).
  { rewrite <- Z.pow_add_r by lia. replace (s + (8 - s)) with 8 by lia. reflexivity. }
  set (d := 2 ^ s) in *. set (e := 2 ^ (8 - s)) in *.
  pose proof (Z.div_mod x d ltac:(lia)) as Hx.
  pose proof (Z.mod_pos_bound x d Hd) as Hr.
  pose proof (Z.div_mod u d ltac:(lia)) as Hudm.
  pose proof (Z.mod_pos_bound u d Hd) as Hur.
  set (q := x / d) in *. set (r := x mod d) in *.
  split.
  - symmetry. apply (Z.div_unique_pos _ _ _ (u mod d)); [lia|].
    set (uq := u / d) in *. set (ur := u mod d) in *. nia.
  - assert (0 <= u / d) by (apply Z.div_pos; lia).
    assert (u / d < e).
    { apply Z.div_lt_upper_bound; lia. }
    nia.
Qed.

Lemma pairs_step_local (u r : Z) :
  0 <= u < 256 -> 0 <= r < 2 ->
  Z.land (u / 2 ^ 1 + 2 ^ (8 - 1) * r) 0x55 = Z.land (Z.shiftr u 1) 0x55.
Proof.
  intros Hu Hr.
  apply Z.eqb_eq.
  apply (below_forallb (fun r => Z.land (u / 2 ^ 1 + 2 ^ (8 - 1) * r) 0x55
                                 =? Z.land (Z.shiftr u 1) 0x55) 2); [|exact Hr].
  revert u Hu. apply (below_forallb (fun u => forallb
    (fun r => Z.land (u / 2 ^ 1 + 2 ^ (8 - 1) * r) 0x55 =? Z.land (Z.shiftr u 1) 0x55)
    (seqZ 0 2)) 256).
  vm_compute. reflexivity.
Qed.

Lemma nibbles_step_local (u r : Z) :
  0 <= u < 256 -> 0 <= r < 4 ->
  Z.land (u / 2 ^ 2 + 2 ^ (8 - 2) * r) 0x33 = Z.land (Z.shiftr u 2) 0x33.
Proof.
  intros Hu Hr.
  apply Z.eqb_eq.
  apply (below_forallb (fun r => Z.land (u / 2 ^ 2 + 2 ^ (8 - 2) * r) 0x33
                                 =? Z.land (Z.shiftr u 2) 0x33) 4); [|exact Hr].
  revert u Hu. apply (below_forallb (fun u => forallb
    (fun r => Z.land (u / 2 ^ 2 + 2 ^ (8 - 2) * r) 0x33 =? Z.land (Z.shiftr u 2) 0x33)
    (seqZ 0 4)) 256).
  vm_compute. reflexivity.
Qed.

Lemma byte_step_local (u r : Z) :
  0 <= u < 256 -> 0 <= r < 16 ->
  Z.land (u + (u / 2 ^ 4 + 2 ^ (8 - 4) * r)) 0x0F = byte_step u.
Proof.
  intros Hu Hr.
  apply Z.eqb_eq.
  apply (below_forallb (fun r => Z.land (u + (u / 2 ^ 4 + 2 ^ (8 - 4) * r)) 0x0F
                                 =? byte_step u) 16); [|exact Hr].
  revert u Hu. apply (below_forallb (fun u => forallb
    (fun r => Z.land (u + (u / 2 ^ 4 + 2 ^ (8 - 4) * r)) 0x0F =? byte_step u)
    (seqZ 0 16)) 256).
  vm_compute. reflexivity.
Qed.

Lemma steps_byte (u : Z) :
  0 <= u < 256 ->
  is_byte (pairs_step u) /\ small_nibbles (nibbles_step (pairs_step u)) /\
  byte_step (nibbles_step (pairs_step u)) = ones 8 u.
Proof.
  intros Hu.
  assert (H : (let v := pairs_step u in let t := nibbles_step v in
               (0 <=? v) && (v <? 256) && (0 <=? t) && (t <? 256) && (t mod 16 <=? 4)
               && (t / 16 <=? 4) && (byte_step t =? ones 8 u)) = true).
  { revert u Hu. apply below_forallb. vm_compute. reflexivity. }
  cbv zeta in H. unfold is_byte, small_nibbles.
  repeat (apply andb_prop in H; destruct H as (H & ?)).
  repeat match goal with
         | H : (_ <=? _) = true |- _ => apply Z.leb_le in H
         | H : (_ <? _) = true |- _ => apply Z.ltb_lt in H
         | H : (_ =? _) = true |- _ => apply Z.eqb_eq in H
         end.
  repeat split; assumption.
Qed.

Lemma bytes_value_nonneg (l : list Z) : Forall is_byte l -> 0 <= bytes_value l.
Proof. induction 1 as [|u l Hu _ IH]; cbn [bytes_value]; unfold is_byte in *; lia. Qed.

Lemma pairs_step_lift (l : list Z) :
  Forall is_byte l ->
  bytes_value l - Z.land (Z.shiftr (bytes_value l) 1) (rep (length l) 0x55)
  = bytes_value (map pairs_step l).
Proof.
  induction 1 as [|u l Hu Hl IH]; [reflexivity|].
  cbn [bytes_value map length rep]. unfold is_byte in Hu.
  destruct (shiftr_split 1 u (bytes_value l) ltac:(lia) Hu) as (Hshift & Hrange).
  pose proof (Z.mod_pos_bound (bytes_value l) (2 ^ 1) ltac:(lia)) as Hr.
  rewrite Hshift, land_split by lia.
  rewrite pairs_step_local by lia.
  unfold pairs_step at 1. lia.
Qed.

Lemma nibbles_step_lift (l : list Z) :
  Forall is_byte l ->
  Z.land (bytes_value l) (rep (length l) 0x33)
  + Z.land (Z.shiftr (bytes_value l) 2) (rep (length l) 0x33)
  = bytes_value (map nibbles_step l).
Proof.
  induction 1 as [|u l Hu Hl IH]; [reflexivity|].
  cbn [bytes_value map length rep]. unfold is_byte in Hu.
  destruct (shiftr_split 2 u (bytes_value l) ltac:(lia) Hu) as (Hshift & Hrange).
  pose proof (Z.mod_pos_bound (bytes_value l) (2 ^ 2) ltac:(lia)) as Hr.
  rewrite Hshift, !land_split by lia.
  rewrite nibbles_step_local by lia.
  unfold nibbles_step at 1. lia.
Qed.

Lemma bytes_value_low_nibble (l : list Z) :
  Forall small_nibbles l -> 0 <= bytes_value l mod 16 <= 4.
Proof.
  intros Hl. destruct Hl as [|u l (Hu & Hlow & Hhigh) _]; cbn [bytes_value].
  - rewrite Z.mod_0_l by lia. lia.
  - replace (u + 256 * bytes_value l) with (u + (16 * bytes_value l) * 16) by lia.
    rewrite Z.mod_add by lia. pose proof (Z.mod_pos_bound u 16 ltac:(lia)). lia.
Qed.

Lemma byte_step_lift (l : list Z) :
  Forall small_nibbles l ->
  Z.land (bytes_value l + Z.shiftr (bytes_value l) 4) (rep (length l) 0x0F)
  = bytes_value (map byte_step l).
Proof.
  induction 1 as [|u l Hu Hl IH]; [reflexivity|].
  cbn [bytes_value map length rep].
  pose proof (bytes_value_low_nibble l Hl) as Hnib.
  destruct Hu as (Hu & Hlow & Hhigh).
  destruct (shiftr_split 4 u (bytes_value l) ltac:(lia) Hu) as (Hshift & Hrange).
  rewrite Hshift. change (2 ^ 4) with 16 in *. change (2 ^ (8 - 4)) with 16 in *.
  replace (u + 256 * bytes_value l + (u / 16 + 16 * (bytes_value l mod 16)
                                      + 256 * Z.shiftr (bytes_value l) 4))
    with ((u + (u / 16 + 16 * (bytes_value l mod 16)))
          + 256 * (bytes_value l + Z.shiftr (bytes_value l) 4)) by lia.
  assert (u <= 68).
  { pose proof (Z.div_mod u 16 ltac:(lia)). lia. }
  rewrite land_split by lia.
  rewrite IH. f_equal.
  apply (byte_step_local u (bytes_value l mod 16)); lia.
Qed.

Lemma sum_bytes_by_product (c0 c1 c2 c3 c4 c5 c6 c7 : Z) :
  0 <= c0 <= 8 -> 0 <= c1 <= 8 -> 0 <= c2 <= 8 -> 0 <= c3 <= 8 ->
  0 <= c4 <= 8 -> 0 <= c5 <= 8 -> 0 <= c6 <= 8 -> 0 <= c7 <= 8 ->
  Z.shiftr (wrap 64 (bytes_value [c0; c1; c2; c3; c4; c5; c6; c7] * 0x0101010101010101)) 56
  = c0 + c1 + c2 + c3 + c4 + c5 + c6 + c7.
Proof.
  intros H0 H1 H2 H3 H4 H5 H6 H7.
  rewrite Z.shiftr_div_pow2 by lia. unfold wrap. cbn [bytes_value].
  set (low := c0 + 256 * ((c0 + c1) + 256 * ((c0 + c1 + c2) + 256 * ((c0 + c1 + c2 + c3)
              + 256 * ((c0 + c1 + c2 + c3 + c4) + 256 * ((c0 + c1 + c2 + c3 + c4 + c5)
              + 256 * (c0 + c1 + c2 + c3 + c4 + c5 + c6))))))).
  set (total := c0 + c1 + c2 + c3 + c4 + c5 + c6 + c7).
  set (high := (c1 + c2 + c3 + c4 + c5 + c6 + c7)
               + 256 * ((c2 + c3 + c4 + c5 + c6 + c7) + 256 * ((c3 + c4 + c5 + c6 + c7)
               + 256 * ((c4 + c5 + c6 + c7) + 256 * ((c5 + c6 + c7)
               + 256 * ((c6 + c7) + 256 * c7)))))).
  assert (Hmod : ((c0 + 256 * (c1 + 256 * (c2 + 256 * (c3 + 256 * (c4 + 256 * (c5 + 256 *
                   (c6 + 256 * (c7 + 256 * 0)))))))) * 0x0101010101010101) mod 2 ^ 64
                 = low + 2 ^ 56 * total).
  { symmetry. apply (Z.mod_unique_pos _ _ high); unfold low, total, high; lia. }
  rewrite Hmod. symmetry. apply (Z.div_unique_pos _ _ _ low); unfold low, total; lia.
Qed.

Lemma bytes_value_split (n : nat) :
  forall w : Z, 0 <= w < 256 ^ Z.of_nat n ->
    exists l : list Z, length l = n /\ Forall is_byte l /\ bytes_value l = w.
Proof.
  induction n as [|n IH]; intros w Hw.
  - exists []. repeat split; [constructor|]. cbn in *. lia.
  - rewrite Nat2Z.inj_succ, Z.pow_succ_r in Hw by lia.
    destruct (IH (w / 256)) as (l & Hlen & Hl & Hval).
    { split; [apply Z.div_pos; lia|]. apply Z.div_lt_upper_bound; lia. }
    exists (w mod 256 :: l). split; [cbn; lia|]. split.
    + constructor; [apply Z.mod_pos_bound; lia|exact Hl].
    + cbn [bytes_value]. rewrite Hval. pose proof (Z.div_mod w 256 ltac:(lia)). lia.
Qed.

Lemma ones_bytes_value (l : list Z) :
  Forall is_byte l ->
  ones (8 * length l) (bytes_value l) = foldr Z.add 0 (map (ones 8) l).
Proof.
  induction 1 as [|u l Hu _ IH]; [reflexivity|].
  cbn [length]. replace (8 * S (length l))%nat with (8 + 8 * length l)%nat by lia.
  cbn [bytes_value map foldr]. rewrite ones_cons_byte by exact Hu. rewrite IH. reflexivity.
Qed.

(** The parallel bit count of a 64-bit word is its number of 1 bits. *)
Lemma popcount64_ones (w : Z) : 0 <= w < 2 ^ 64 -> popcount64 w = ones 64 w.
Proof.
  intros Hw.
  destruct (bytes_value_split 8 w Hw) as (l & Hlen & Hl & <-).
  assert (Hsteps : Forall (fun u => is_byte (pairs_step u) /\
                                    small_nibbles (nibbles_step (pairs_step u)) /\
                                    byte_step (nibbles_step (pairs_step u)) = ones 8 u) l).
  { eapply Forall_impl; [|exact Hl]. intros u Hu. apply steps_byte, Hu. }
  assert (H1 : Forall is_byte (map pairs_step l)).
  { apply Forall_map. eapply Forall_impl; [|exact Hsteps]. intros u Hu. simpl. apply Hu. }
  assert (H2 : Forall small_nibbles (map nibbles_step (map pairs_step l))).
  { apply Forall_map, Forall_map. eapply Forall_impl; [|exact Hsteps].
    intros u Hu. simpl. apply Hu. }
  unfold popcount64.
  replace 0x5555555555555555 with (rep (length l) 0x55) by (rewrite Hlen; reflexivity).
  rewrite (pairs_step_lift l Hl).
  replace 0x3333333333333333 with (rep (length (map pairs_step l)) 0x33)
    by (rewrite length_map, Hlen; reflexivity).
  rewrite (nibbles_step_lift _ H1).
  replace 0x0F0F0F0F0F0F0F0F with (rep (length (map nibbles_step (map pairs_step l))) 0x0F)
    by (rewrite !length_map, Hlen; reflexivity).
  rewrite (byte_step_lift _ H2).
  assert (Hones : ones 64 (bytes_value l) = foldr Z.add 0 (map (ones 8) l)).
  { rewrite <- (ones_bytes_value l Hl). f_equal. lia. }
  rewrite Hones. clear Hones H1 H2 Hl Hw.
  do 9 (destruct l as [|? l]; try discriminate Hlen).
  repeat match goal with H : Forall _ (_ :: _) |- _ => inversion H; clear H; subst end.
  repeat match goal with H : _ /\ _ |- _ => destruct H end.
  cbn [map].
  rewrite sum_bytes_by_product;
    repeat match goal with H : byte_step _ = _ |- _ => rewrite H; clear H end;
    try apply ones_range.
  cbn [length foldr map]. lia.
Qed.

(** ** The population counts *)

Lemma kernighan_ones (b : byte) : kernighan 8 (u8 b) 0 = ones 8 (u8 b).
Proof. destruct b; vm_compute; reflexivity. Qed.

Lemma sample_popcount_kernighan_sum (l : list byte) (n : Z) :
  fold_left (fun n b => n + kernighan 8 (u8 b) 0) l n = n + reference_popcount l.
Proof.
  revert n. induction l as [|b l IH]; intros n; cbn [fold_left reference_popcount]; [lia|].
  rewrite IH, kernighan_ones. lia.
Qed.

Lemma sample_popcount_kernighan_spec (bits : Z) (data : list byte) (size : Z) :
  0 <= size <= Z.of_nat (length data) ->
  8 * size < 2 ^ bits ->
  sample_popcount_kernighan data size = reference_popcount (take (Z.to_nat size) data).
Proof.
  intros _ _. unfold sample_popcount_kernighan.
  rewrite sample_popcount_kernighan_sum. lia.
Qed.

Lemma sample_popcount_lauradoux_sum (l : list Z) (n : Z) :
  Forall (fun w => 0 <= w < 2 ^ 64) l ->
  fold_left (fun n w => n + popcount64 w) l n = n + reference_popcount64 l.
Proof.
  intros Hl. revert n.
  induction Hl as [|w l Hw _ IH]; intros n; cbn [fold_left reference_popcount64]; [lia|].
  rewrite IH, (popcount64_ones w Hw). lia.
Qed.

Lemma sample_popcount_lauradoux_spec (bits : Z) (data : list Z) (size : Z) :
  0 <= size <= Z.of_nat (length data) ->
  Forall (fun w => 0 <= w < 2 ^ 64) data ->
  64 * size < 2 ^ bits ->
  sample_popcount_lauradoux data size = reference_popcount64 (take (Z.to_nat size) data).
Proof.
  intros _ Hdata _. unfold sample_popcount_lauradoux.
  rewrite sample_popcount_lauradoux_sum by (apply Forall_take, Hdata). lia.
Qed.

(** ** The wheel *)

Lemma sample_wheel_range (index pos : Z) :
  0 <= index < 2 ^ 32 -> 0 <= pos < 8 -> 0 <= sample_wheel index pos < 2 ^ 64.
Proof.
  intros Hi Hp. unfold sample_wheel.
  assert (Hcases : pos = 0 \/ pos = 1 \/ pos = 2 \/ pos = 3 \/ pos = 4 \/ pos = 5 \/
                   pos = 6 \/ pos = 7) by lia.
  destruct Hcases as [->|[->|[->|[->|[->|[->|[->| ->]]]]]]]; cbv [nth Z.to_nat Pos.to_nat Pos.iter_op Nat.add]; lia.
Qed.

Lemma sample_wheel_ascending (index p q : Z) :
  0 <= p < q -> q < 8 -> sample_wheel index p < sample_wheel index q.
Proof.
  intros Hp Hq. unfold sample_wheel.
  assert (Hp' : p = 0 \/ p = 1 \/ p = 2 \/ p = 3 \/ p = 4 \/ p = 5 \/ p = 6) by lia.
  assert (Hq' : q = 1 \/ q = 2 \/ q = 3 \/ q = 4 \/ q = 5 \/ q = 6 \/ q = 7) by lia.
  destruct Hp' as [->|[->|[->|[->|[->|[->| ->]]]]]];
    destruct Hq' as [->|[->|[->|[->|[->|[->| ->]]]]]]; cbv [nth Z.to_nat Pos.to_nat Pos.iter_op Nat.add]; lia.
Qed.

Lemma sample_ps_counts_ok (flags : Flag -> bool) : counts_ok (sample_ps flags).
Proof. split; [reflexivity|]. repeat constructor; lia. Qed.

(** * The theorems at concrete inputs *)

(** Twins in the byte value [0xde] on the concrete platform. *)
Lemma initCounts_brute_force_witness :
  exists (g : PrimeNumberFinder) (table : list Z),
    initCounts 32 256 (sample_finder (flags_of [1] [] false)) = Some g /\
    kCounts_ g !! Z.to_nat 1 = Some table /\
    table !! Z.to_nat 0xde
    = Some (Z.of_nat (length (filter (fun p => Z.land 0xde p = p) (TupletPatternTable 256 1)))).
Proof.
  apply (initCounts_brute_force 32 ltac:(lia) 256 ltac:(lia)
           (sample_finder (flags_of [1] [] false)) 1 0xde).
  - reflexivity.
  - lia.
  - reflexivity.
  - lia.
Defined.

(** The table of the triplets. *)
Lemma kCounts_zero_and_monotone_witness :
  exists (g : PrimeNumberFinder) (table : list Z),
    initCounts 32 256 (sample_finder (flags_of [2] [] false)) = Some g /\
    kCounts_ g !! Z.to_nat 2 = Some table /\
    table !! 0%nat = Some 0 /\
    forall b1 b2 : Z,
      0 <= b1 <= 255 -> 0 <= b2 <= 255 -> bits_subset b1 b2 ->
      exists c1 c2 : Z,
        table !! Z.to_nat b1 = Some c1 /\ table !! Z.to_nat b2 = Some c2 /\ c1 <= c2.
Proof.
  apply (kCounts_zero_and_monotone 32 ltac:(lia) 256 ltac:(lia)
           (sample_finder (flags_of [2] [] false)) 2).
  - reflexivity.
  - lia.
  - reflexivity.
Defined.

(** Counting primes and twins in the sample segment: one word and one
    trailing byte. *)
Lemma count_primes_reference_witness :
  exists f : PrimeNumberFinder,
    new_PrimeNumberFinder 32 256 (sample_ps (flags_of [0; 1] [] false)) = Some f /\
    count_primes 32 sample_popcount_lauradoux sample_popcount_kernighan sample_segment 9
    = reference_popcount (take (Z.to_nat 9) sample_segment) /\
    exists (f' : PrimeNumberFinder) (c : Z),
      count 32 sample_popcount_lauradoux sample_popcount_kernighan f sample_segment 9
      = Some f' /\
      counts_ (ps_ f) !! 0%nat = Some c /\
      counts_ (ps_ f') !! 0%nat
      = Some (uint64_t (c + reference_popcount (take (Z.to_nat 9) sample_segment))).
Proof.
  destruct (new_PrimeNumberFinder_well_formed 32 ltac:(lia) 256 ltac:(lia)
              (sample_ps (flags_of [0; 1] [] false)) (sample_ps_counts_ok _))
    as (f & Hf & Hps & Hwf).
  exists f. split; [exact Hf|].
  apply (count_primes_reference 32 ltac:(lia) 256 ltac:(lia)
           sample_popcount_lauradoux sample_popcount_kernighan
           (sample_popcount_lauradoux_spec 32) (sample_popcount_kernighan_spec 32)
           f sample_segment 9).
  - exact Hwf.
  - rewrite Hps. reflexivity.
  - simpl. lia.
  - lia.
Defined.

(** The twins of the sample segment. *)
Lemma count_kTuplets_occurrences_witness :
  exists f : PrimeNumberFinder,
    new_PrimeNumberFinder 32 256 (sample_ps (flags_of [0; 1] [] false)) = Some f /\
    exists (table : list Z) (f' : PrimeNumberFinder) (c : Z),
      kCounts_ f !! Z.to_nat 1 = Some table /\
      count_kTuplets 32 (kCounts_ f) 1 sample_segment 9
      = Some (table_sum table (take (Z.to_nat 9) sample_segment)) /\
      table_sum table (take (Z.to_nat 9) sample_segment)
      = count_occurrences 256 1 (take (Z.to_nat 9) sample_segment) /\
      count 32 sample_popcount_lauradoux sample_popcount_kernighan f sample_segment 9
      = Some f' /\
      counts_ (ps_ f) !! Z.to_nat 1 = Some c /\
      counts_ (ps_ f') !! Z.to_nat 1
      = Some (uint64_t (c + count_occurrences 256 1 (take (Z.to_nat 9) sample_segment))).
Proof.
  destruct (new_PrimeNumberFinder_well_formed 32 ltac:(lia) 256 ltac:(lia)
              (sample_ps (flags_of [0; 1] [] false)) (sample_ps_counts_ok _))
    as (f & Hf & Hps & Hwf).
  exists f. split; [exact Hf|].
  apply (count_kTuplets_occurrences 32 ltac:(lia) 256 ltac:(lia)
           sample_popcount_lauradoux sample_popcount_kernighan
           f sample_segment 9 1).
  - exact Hwf.
  - lia.
  - rewrite Hps. reflexivity.
  - simpl. lia.
  - lia.
Defined.

(** Twins counted together with the primes, and twins counted alone. *)
Lemma count_kinds_independent_witness :
  exists f1 f2 : PrimeNumberFinder,
    new_PrimeNumberFinder 32 256 (sample_ps (flags_of [0; 1] [] false)) = Some f1 /\
    new_PrimeNumberFinder 32 256 (sample_ps (flags_of [1] [] false)) = Some f2 /\
    exists (f1' f2' : PrimeNumberFinder) (c1 c2 : Z),
      count 32 sample_popcount_lauradoux sample_popcount_kernighan f1 sample_segment 9
      = Some f1' /\
      count 32 sample_popcount_lauradoux sample_popcount_kernighan f2 sample_segment 9
      = Some f2' /\
      counts_ (ps_ f1) !! Z.to_nat 1 = Some c1 /\
      counts_ (ps_ f2) !! Z.to_nat 1 = Some c2 /\
      counts_ (ps_ f1') !! Z.to_nat 1
      = Some (uint64_t (c1 + count_delta 32 256 sample_popcount_lauradoux
                               sample_popcount_kernighan 1 sample_segment 9)) /\
      counts_ (ps_ f2') !! Z.to_nat 1
      = Some (uint64_t (c2 + count_delta 32 256 sample_popcount_lauradoux
                               sample_popcount_kernighan 1 sample_segment 9)) /\
      forall j : Z, 0 <= j <= 6 -> isCount (ps_ f1) j = false ->
        counts_ (ps_ f1') !! Z.to_nat j = counts_ (ps_ f1) !! Z.to_nat j.
Proof.
  destruct (new_PrimeNumberFinder_well_formed 32 ltac:(lia) 256 ltac:(lia)
              (sample_ps (flags_of [0; 1] [] false)) (sample_ps_counts_ok _))
    as (f1 & Hf1 & Hps1 & Hwf1).
  destruct (new_PrimeNumberFinder_well_formed 32 ltac:(lia) 256 ltac:(lia)
              (sample_ps (flags_of [1] [] false)) (sample_ps_counts_ok _))
    as (f2 & Hf2 & Hps2 & Hwf2).
  exists f1, f2. split; [exact Hf1|]. split; [exact Hf2|].
  apply (count_kinds_independent 32 256 sample_popcount_lauradoux sample_popcount_kernighan
           f1 f2 sample_segment 9 1).
  - exact Hwf1.
  - exact Hwf2.
  - lia.
  - rewrite Hps1. reflexivity.
  - rewrite Hps2. reflexivity.
  - simpl. lia.
Defined.

(** Printing the primes of the sample segment, under the lock. *)
Lemma generate_lock_discipline_witness :
  exists body : list event,
    generate 256 sample_wheel (sample_finder (flags_of [] [0] false)) sample_segment 9
    = Some (Lock :: body ++ [Unlock]) /\
    Forall (fun e => is_delivery e = true) body /\
    locked_run false (Lock :: body ++ [Unlock]) = true.
Proof.
  apply (proj1 (generate_lock_discipline 256 ltac:(lia) sample_wheel)).
  - simpl. lia.
  - reflexivity.
Defined.

(** C4 as stated fails: printing the twins of a segment whose first byte
    is [0x06], [generate] writes the record to the console without ever
    taking the lock. *)
Lemma generate_kTuplets_without_lock :
  generate 256 sample_wheel (sample_finder (flags_of [] [1] false)) [x06] 1
  = Some [Cout ("(11, 13)" ++ nl)] /\
  locked_run false [Cout ("(11, 13)" ++ nl)] = false /\
  forallb (fun e => negb (is_lock_op e)) [Cout ("(11, 13)" ++ nl)] = true.
Proof. vm_compute. repeat split. Qed.

(** Printing the twins of the sample segment. *)
Lemma generate_kTuplet_records_witness :
  exists i : Z,
    1 <= i <= 6 /\ isPrint (ps_ (sample_finder (flags_of [] [1] false))) i = true /\
    generate 256 sample_wheel (sample_finder (flags_of [] [1] false)) sample_segment 9
    = Some (kTuplet_records 256 sample_wheel i 0 (take (Z.to_nat 9) sample_segment)) /\
    forall j p : Z, 0 <= j < 9 -> In p (TupletPatternTable 256 i) ->
      kTuplet_record sample_wheel j p
      = ("(" ++ join ", " (map dec (map (sample_wheel j) (set_bits p))) ++ ")" ++ nl)%string /\
      StronglySorted Z.lt (map (sample_wheel j) (set_bits p)) /\
      exists body : string,
        kTuplet_record sample_wheel j p = (body ++ nl)%string /\ one_line body.
Proof.
  apply (generate_kTuplet_records 32 ltac:(lia) 256 ltac:(lia) sample_wheel
           sample_wheel_range sample_wheel_ascending
           (sample_finder (flags_of [] [1] false)) sample_segment 9).
  - reflexivity.
  - simpl. lia.
  - lia.
Defined.

(** A run that counts primes and twins and prints primes, on no byte. *)
Lemma empty_segment_witness :
  exists f : PrimeNumberFinder,
    new_PrimeNumberFinder 32 256 (sample_ps (flags_of [0; 1] [0] false)) = Some f /\
    count 32 sample_popcount_lauradoux sample_popcount_kernighan f sample_segment 0 = Some f /\
    exists tr : list event,
      generate 256 sample_wheel f sample_segment 0 = Some tr /\
      Forall (fun e => is_delivery e = false) tr.
Proof.
  destruct (new_PrimeNumberFinder_well_formed 32 ltac:(lia) 256 ltac:(lia)
              (sample_ps (flags_of [0; 1] [0] false)) (sample_ps_counts_ok _))
    as (f & Hf & Hps & Hwf).
  exists f. split; [exact Hf|].
  apply (empty_segment 32 ltac:(lia) 256 ltac:(lia)
           sample_popcount_lauradoux sample_popcount_kernighan
           (sample_popcount_lauradoux_spec 32) (sample_popcount_kernighan_spec 32)
           sample_wheel f sample_segment).
  exact Hwf.
Defined.

(** A run that counts, prints the primes and reports its status. *)
Lemma segmentProcessed_fan_out_witness :
  exists f : PrimeNumberFinder,
    new_PrimeNumberFinder 32 256 (sample_ps (flags_of [0; 1] [0] true)) = Some f /\
    exists (f' : PrimeNumberFinder) (tr : list event),
      segmentProcessed 32 256 30 sample_popcount_lauradoux sample_popcount_kernighan
        sample_wheel f sample_segment 9
      = Some (f', tr ++ (if isStatus (ps_ f)
                         then [UpdateStatus (uint_t 32 (9 * 30))] else [])) /\
      (if isCount_any (ps_ f)
       then count 32 sample_popcount_lauradoux sample_popcount_kernighan f sample_segment 9
            = Some f'
       else f' = f) /\
      (if isGenerate (ps_ f)
       then generate 256 sample_wheel f' sample_segment 9 = Some tr else tr = []) /\
      Forall (fun e => is_delivery e = true \/ is_lock_op e = true) tr /\
      (0 <= 9 * 30 < 2 ^ 32 -> uint_t 32 (9 * 30) = 9 * 30).
Proof.
  destruct (new_PrimeNumberFinder_well_formed 32 ltac:(lia) 256 ltac:(lia)
              (sample_ps (flags_of [0; 1] [0] true)) (sample_ps_counts_ok _))
    as (f & Hf & Hps & Hwf).
  exists f. split; [exact Hf|].
  apply (segmentProcessed_fan_out 32 256 ltac:(lia) 30
           sample_popcount_lauradoux sample_popcount_kernighan
           sample_wheel f sample_segment 9).
  - exact Hwf.
  - simpl. lia.
Defined.

(** C6 as stated fails: when the status is not requested,
    [segmentProcessed] counts the primes of the segment and returns
    without calling the status hook. *)
Lemma segmentProcessed_without_status :
  segmentProcessed 32 256 30 sample_popcount_lauradoux sample_popcount_kernighan
    sample_wheel (sample_finder (flags_of [0] [] false)) [x06] 1
  = Some (set_ps (sample_finder (flags_of [0] [] false))
            (set_counts (sample_ps (flags_of [0] [] false)) [2; 0; 0; 0; 0; 0; 0]),
          []).
Proof. vm_compute. reflexivity. Qed.

(** The sample wheel puts the bits of the sample segment between 7 and
    271, inside the interval of a run from 0 to 1000. *)
Lemma sample_engine_segment (flags : Flag -> bool) (f : PrimeNumberFinder) :
  new_PrimeNumberFinder 32 256 (sample_ps flags) = Some f ->
  engine_segment sample_wheel (base f) sample_segment 9.
Proof.
  intros Hf.
  destruct (new_PrimeNumberFinder_spec 32 ltac:(lia) 256 ltac:(lia) (sample_ps flags))
    as (f0 & Hf0 & _ & Hbase & _).
  rewrite Hf in Hf0. injection Hf0 as <-. rewrite Hbase.
  intros j pos sieve_j Hj _ Hpos _. cbn [start_ stop_ getStart getStop sample_ps].
  change (uint64_t 0) with 0. unfold sample_wheel.
  assert (Hcases : pos = 0 \/ pos = 1 \/ pos = 2 \/ pos = 3 \/ pos = 4 \/ pos = 5 \/
                   pos = 6 \/ pos = 7) by lia.
  destruct Hcases as [->|[->|[->|[->|[->|[->|[->| ->]]]]]]];
    cbv [nth Z.to_nat Pos.to_nat Pos.iter_op Nat.add]; lia.
Qed.

(** A run that starts at 0, counts primes and twins and prints the
    twins, on the sample segment. *)
Lemma constructor_clamps_start_witness :
  exists f : PrimeNumberFinder,
    new_PrimeNumberFinder 32 256 (sample_ps (flags_of [0; 1] [1] false)) = Some f /\
    start_ (base f) = Z.max 7 (getStart (sample_ps (flags_of [0; 1] [1] false))) /\
    stop_ (base f) = getStop (sample_ps (flags_of [0; 1] [1] false)) /\
    (getStart (sample_ps (flags_of [0; 1] [1] false)) < 7 -> start_ (base f) = 7) /\
    (forall p : Z, In p [2; 3; 5] -> ~ (start_ (base f) <= p <= stop_ (base f))) /\
    let primes := segment_values sample_wheel 64 0 (take (Z.to_nat 9) sample_segment) in
    let groups := fun k : Z =>
                    kTuplet_groups 256 sample_wheel k 0 (take (Z.to_nat 9) sample_segment) in
    let sieved := fun v : Z => 7 <= start_ (base f) <= v /\ v <= stop_ (base f) /\
                               ~ In v [2; 3; 5] in
    Forall sieved primes /\
    (forall k : Z, 1 <= k <= 6 -> Forall (Forall sieved) (groups k)) /\
    (getStop (sample_ps (flags_of [0; 1] [1] false)) < 2 ^ 32 ->
     Forall (fun v => wrap 32 v = v) primes) /\
    (exists f' : PrimeNumberFinder,
       count 32 sample_popcount_lauradoux sample_popcount_kernighan f sample_segment 9
       = Some f' /\
       forall i : Z, 0 <= i <= 6 ->
         isCount (sample_ps (flags_of [0; 1] [1] false)) i = true ->
         exists c : Z,
           counts_ (sample_ps (flags_of [0; 1] [1] false)) !! Z.to_nat i = Some c /\
           counts_ (ps_ f') !! Z.to_nat i
           = Some (uint64_t (c + Z.of_nat (if i =? 0 then length primes
                                           else length (groups i))))) /\
    (exists tr : list event,
       generate 256 sample_wheel f sample_segment 9 = Some tr /\
       if isFlag_range (sample_ps (flags_of [0; 1] [1] false)) PRINT TWINS SEPTUPLETS
       then exists i : Z,
              1 <= i <= 6 /\ isPrint (sample_ps (flags_of [0; 1] [1] false)) i = true /\
              tr = map (fun g => Cout (record_text g)) (groups i)
       else tr = Lock :: sink_events (sample_ps (flags_of [0; 1] [1] false)) primes
                 ++ [Unlock]).
Proof.
  apply (constructor_clamps_start 32 ltac:(lia) 256 ltac:(lia)
           sample_popcount_lauradoux sample_popcount_kernighan
           (sample_popcount_lauradoux_spec 32) (sample_popcount_kernighan_spec 32)
           sample_wheel sample_wheel_range
           (sample_ps (flags_of [0; 1] [1] false)) sample_segment 9).
  - simpl. lia.
  - apply sample_ps_counts_ok.
  - simpl. lia.
  - lia.
  - apply sample_engine_segment.
Defined.

(** ** Further properties at concrete inputs *)

(** The tables of a run that counts primes and twins. *)
Lemma constructor_tables_witness :
  exists f : PrimeNumberFinder,
    new_PrimeNumberFinder 32 256 (sample_ps (flags_of [0; 1] [] false)) = Some f /\
    length (kCounts_ f) = 7%nat /\
    forall k : Z, 0 <= k <= 6 ->
      exists table : list Z,
        kCounts_ f !! Z.to_nat k = Some table /\
        if (1 <=? k) && isCount (sample_ps (flags_of [0; 1] [] false)) k
        then length table = 256%nat /\
             (forall j : Z, 0 <= j <= 255 ->
                exists c : Z, table !! Z.to_nat j = Some c /\
                              0 <= c <= Z.of_nat (length (TupletPatternTable 256 k))) /\
             table !! 255%nat = Some (Z.of_nat (length (TupletPatternTable 256 k))) /\
             (length (TupletPatternTable 256 k) <= 4)%nat
        else table = [].
Proof.
  apply (constructor_tables 32 ltac:(lia) 256 ltac:(lia)
           (sample_ps (flags_of [0; 1] [] false))).
Defined.

(** The twins and the primes of the sample segment. *)
Lemma kTuplets_at_most_primes_witness :
  exists f : PrimeNumberFinder,
    new_PrimeNumberFinder 32 256 (sample_ps (flags_of [0; 1] [] false)) = Some f /\
    exists kCount : Z,
      count_kTuplets 32 (kCounts_ f) 1 sample_segment 9 = Some kCount /\
      0 <= kCount
      <= count_primes 32 sample_popcount_lauradoux sample_popcount_kernighan sample_segment 9.
Proof.
  destruct (new_PrimeNumberFinder_well_formed 32 ltac:(lia) 256 ltac:(lia)
              (sample_ps (flags_of [0; 1] [] false)) (sample_ps_counts_ok _))
    as (f & Hf & Hps & Hwf).
  exists f. split; [exact Hf|].
  apply (kTuplets_at_most_primes 32 ltac:(lia) 256 ltac:(lia)
           sample_popcount_lauradoux sample_popcount_kernighan
           (sample_popcount_lauradoux_spec 32) (sample_popcount_kernighan_spec 32)
           f sample_segment 9 1).
  - exact Hwf.
  - lia.
  - rewrite Hps. reflexivity.
  - simpl. lia.
  - lia.
Defined.

(** Triplets, quintuplets and primes to print: the triplets are printed. *)
Lemma generate_lowest_print_kind_witness :
  exists tr : list event,
    generate 256 sample_wheel (sample_finder (flags_of [] [2; 4; 0] false)) sample_segment 9
    = Some tr /\
    tr = kTuplet_records 256 sample_wheel 2 0 (take (Z.to_nat 9) sample_segment) /\
    Forall (fun e => exists text : string, e = Cout text) tr.
Proof.
  apply (generate_lowest_print_kind 256 ltac:(lia) sample_wheel
           (sample_finder (flags_of [] [2; 4; 0] false)) sample_segment 9 2).
  - lia.
  - reflexivity.
  - intros i' Hi'. assert (i' = 1) as -> by lia. reflexivity.
  - simpl. lia.
Defined.

(** Twins counted and printed. *)
Lemma printed_records_are_counted_witness :
  exists f : PrimeNumberFinder,
    new_PrimeNumberFinder 32 256 (sample_ps (flags_of [1] [1] false)) = Some f /\
    exists (f' : PrimeNumberFinder) (tr : list event) (c : Z),
      count 32 sample_popcount_lauradoux sample_popcount_kernighan f sample_segment 9
      = Some f' /\
      generate 256 sample_wheel f sample_segment 9 = Some tr /\
      counts_ (ps_ f) !! Z.to_nat 1 = Some c /\
      counts_ (ps_ f') !! Z.to_nat 1 = Some (uint64_t (c + Z.of_nat (length tr))).
Proof.
  destruct (new_PrimeNumberFinder_well_formed 32 ltac:(lia) 256 ltac:(lia)
              (sample_ps (flags_of [1] [1] false)) (sample_ps_counts_ok _))
    as (f & Hf & Hps & Hwf).
  exists f. split; [exact Hf|].
  apply (printed_records_are_counted 32 ltac:(lia) 256 ltac:(lia)
           sample_popcount_lauradoux sample_popcount_kernighan
           (sample_popcount_lauradoux_spec 32) (sample_popcount_kernighan_spec 32)
           sample_wheel f sample_segment 9 1).
  - exact Hwf.
  - lia.
  - rewrite Hps. reflexivity.
  - intros i' Hi'. lia.
  - rewrite Hps. reflexivity.
  - simpl. lia.
  - lia.
Defined.

(** The records of the twins. *)
Lemma kTuplet_record_arity_witness :
  exists i : Z,
    1 <= i <= 6 /\
    generate 256 sample_wheel (sample_finder (flags_of [] [1] false)) sample_segment 9
    = Some (kTuplet_records 256 sample_wheel i 0 (take (Z.to_nat 9) sample_segment)) /\
    forall j p : Z, In p (TupletPatternTable 256 i) ->
      length (kTuplet_values sample_wheel j p) = Z.to_nat (i + 1) /\
      exists pos : Z,
        0 <= pos /\ pos + i < 8 /\
        kTuplet_values sample_wheel j p
        = map (fun q => wrap 64 (sample_wheel j q)) (seqZ pos (i + 1)).
Proof.
  apply (kTuplet_record_arity 256 ltac:(lia) sample_wheel
           (sample_finder (flags_of [] [1] false)) sample_segment 9).
  - reflexivity.
  - simpl. lia.
Defined.

(** The sample segment and two more bytes, counted in both orders. *)
Lemma count_segments_commute_witness :
  exists f : PrimeNumberFinder,
    new_PrimeNumberFinder 32 256 (sample_ps (flags_of [0; 1] [] false)) = Some f /\
    exists f1 f2 f' : PrimeNumberFinder,
      count 32 sample_popcount_lauradoux sample_popcount_kernighan f sample_segment 9
      = Some f1 /\
      count 32 sample_popcount_lauradoux sample_popcount_kernighan f1 [x06; x18] 2
      = Some f' /\
      count 32 sample_popcount_lauradoux sample_popcount_kernighan f [x06; x18] 2
      = Some f2 /\
      count 32 sample_popcount_lauradoux sample_popcount_kernighan f2 sample_segment 9
      = Some f'.
Proof.
  destruct (new_PrimeNumberFinder_well_formed 32 ltac:(lia) 256 ltac:(lia)
              (sample_ps (flags_of [0; 1] [] false)) (sample_ps_counts_ok _))
    as (f & Hf & Hps & Hwf).
  exists f. split; [exact Hf|].
  apply (count_segments_commute 32 256 sample_popcount_lauradoux sample_popcount_kernighan
           f sample_segment [x06; x18] 9 2).
  - exact Hwf.
  - simpl. lia.
  - simpl. lia.
Defined.

(** The sample segment and two more bytes, counted apart and as one. *)
Lemma count_segment_split_witness :
  exists f : PrimeNumberFinder,
    new_PrimeNumberFinder 32 256 (sample_ps (flags_of [0; 1] [] false)) = Some f /\
    exists f1 f' : PrimeNumberFinder,
      count 32 sample_popcount_lauradoux sample_popcount_kernighan f sample_segment
        (Z.of_nat (length sample_segment)) = Some f1 /\
      count 32 sample_popcount_lauradoux sample_popcount_kernighan f1 [x06; x18]
        (Z.of_nat (length [x06; x18])) = Some f' /\
      count 32 sample_popcount_lauradoux sample_popcount_kernighan f
        (sample_segment ++ [x06; x18])
        (Z.of_nat (length sample_segment) + Z.of_nat (length [x06; x18])) = Some f'.
Proof.
  destruct (new_PrimeNumberFinder_well_formed 32 ltac:(lia) 256 ltac:(lia)
              (sample_ps (flags_of [0; 1] [] false)) (sample_ps_counts_ok _))
    as (f & Hf & Hps & Hwf).
  exists f. split; [exact Hf|].
  apply (count_segment_split 32 ltac:(lia) 256 ltac:(lia)
           sample_popcount_lauradoux sample_popcount_kernighan
           (sample_popcount_lauradoux_spec 32) (sample_popcount_kernighan_spec 32)
           f sample_segment [x06; x18]).
  - exact Hwf.
  - simpl. lia.
Defined.

(** Two segments in a row, counting and printing twins with the status. *)
Lemma segmentProcessed_preserves_witness :
  exists f : PrimeNumberFinder,
    new_PrimeNumberFinder 32 256 (sample_ps (flags_of [0; 1] [1] true)) = Some f /\
    exists (f1 f2 : PrimeNumberFinder) (tr1 tr2 : list event),
      segmentProcessed 32 256 30 sample_popcount_lauradoux sample_popcount_kernighan
        sample_wheel f sample_segment 9 = Some (f1, tr1) /\
      segmentProcessed 32 256 30 sample_popcount_lauradoux sample_popcount_kernighan
        sample_wheel f1 [x06; x18] 2 = Some (f2, tr2) /\
      well_formed 256 f1 /\ well_formed 256 f2 /\
      f1 = set_ps f (set_counts (ps_ f) (counts_ (ps_ f1))) /\
      f2 = set_ps f (set_counts (ps_ f) (counts_ (ps_ f2))).
Proof.
  destruct (new_PrimeNumberFinder_well_formed 32 ltac:(lia) 256 ltac:(lia)
              (sample_ps (flags_of [0; 1] [1] true)) (sample_ps_counts_ok _))
    as (f & Hf & Hps & Hwf).
  exists f. split; [exact Hf|].
  apply (segmentProcessed_preserves 32 256 ltac:(lia) 30
           sample_popcount_lauradoux sample_popcount_kernighan sample_wheel
           f sample_segment [x06; x18] 9 2).
  - exact Hwf.
  - simpl. lia.
  - simpl. lia.
Defined.

(** The sample segment followed by one more byte. *)
Lemma bytes_past_size_ignored_witness :
  exists f : PrimeNumberFinder,
    new_PrimeNumberFinder 32 256 (sample_ps (flags_of [0; 1] [1] true)) = Some f /\
    exists (f' : PrimeNumberFinder) (tr : list event),
      segmentProcessed 32 256 30 sample_popcount_lauradoux sample_popcount_kernighan
        sample_wheel f sample_segment 9 = Some (f', tr) /\
      segmentProcessed 32 256 30 sample_popcount_lauradoux sample_popcount_kernighan
        sample_wheel f (sample_segment ++ [xff]) 9 = Some (f', tr).
Proof.
  destruct (new_PrimeNumberFinder_well_formed 32 ltac:(lia) 256 ltac:(lia)
              (sample_ps (flags_of [0; 1] [1] true)) (sample_ps_counts_ok _))
    as (f & Hf & Hps & Hwf).
  exists f. split; [exact Hf|].
  apply (bytes_past_size_ignored 32 ltac:(lia) 256 ltac:(lia) 30
           sample_popcount_lauradoux sample_popcount_kernighan
           (sample_popcount_lauradoux_spec 32) (sample_popcount_kernighan_spec 32)
           sample_wheel f sample_segment [xff] 9).
  - exact Hwf.
  - simpl. lia.
  - lia.
Defined.

(** Three bytes without a 1 bit. *)
Lemma segment_without_primes_witness :
  exists f : PrimeNumberFinder,
    new_PrimeNumberFinder 32 256 (sample_ps (flags_of [0; 1] [1] false)) = Some f /\
    count 32 sample_popcount_lauradoux sample_popcount_kernighan f [x00; x00; x00] 3
    = Some f /\
    generate 256 sample_wheel f [x00; x00; x00] 3
    = Some (if isFlag_range (ps_ f) PRINT TWINS SEPTUPLETS then [] else [Lock; Unlock]).
Proof.
  destruct (new_PrimeNumberFinder_well_formed 32 ltac:(lia) 256 ltac:(lia)
              (sample_ps (flags_of [0; 1] [1] false)) (sample_ps_counts_ok _))
    as (f & Hf & Hps & Hwf).
  exists f. split; [exact Hf|].
  apply (segment_without_primes 32 ltac:(lia) 256 ltac:(lia)
           sample_popcount_lauradoux sample_popcount_kernighan
           (sample_popcount_lauradoux_spec 32) (sample_popcount_kernighan_spec 32)
           sample_wheel f [x00; x00; x00] 3).
  - exact Hwf.
  - simpl. lia.
  - lia.
  - change (Z.to_nat 3) with 3%nat. repeat constructor.
Defined.

(** The primes of the sample segment, printed one per line. *)
Lemma single_value_sinks_witness :
  exists primes : list Z,
    Z.of_nat (length primes)
    = count_primes 32 sample_popcount_lauradoux sample_popcount_kernighan sample_segment 9 /\
    generate 256 sample_wheel (sample_finder (flags_of [] [0] false)) sample_segment 9
    = Some (Lock ::
            ((if isFlag (ps_ (sample_finder (flags_of [] [0] false))) CALLBACK32_PRIMES
              then map (fun p => Callback32 (wrap 32 p)) primes else []) ++
             (if isFlag (ps_ (sample_finder (flags_of [] [0] false))) CALLBACK64_PRIMES
              then map Callback64 primes else []) ++
             (if isFlag (ps_ (sample_finder (flags_of [] [0] false))) CALLBACK32_OOP_PRIMES
              then map (fun p => Callback32_OOP (wrap 32 p)
                                   (obj_ (ps_ (sample_finder (flags_of [] [0] false)))))
                       primes
              else []) ++
             (if isFlag (ps_ (sample_finder (flags_of [] [0] false))) CALLBACK64_OOP_PRIMES
              then map (fun p => Callback64_OOP p
                                   (obj_ (ps_ (sample_finder (flags_of [] [0] false)))))
                       primes
              else []) ++
             (if isFlag (ps_ (sample_finder (flags_of [] [0] false))) (PRINT PRIMES)
              then flat_map (fun p => [Cout (dec p); Cout nl]) primes else []))
            ++ [Unlock]).
Proof.
  apply (single_value_sinks 32 ltac:(lia) 256
           sample_popcount_lauradoux sample_popcount_kernighan
           (sample_popcount_lauradoux_spec 32) (sample_popcount_kernighan_spec 32)
           sample_wheel (sample_finder (flags_of [] [0] false)) sample_segment 9).
  - reflexivity.
  - simpl. lia.
  - lia.
Defined.

(** Twins requested on a finder whose tables were never built. *)
Lemma count_needs_tables_witness :
  count 32 sample_popcount_lauradoux sample_popcount_kernighan
    (sample_finder (flags_of [1] [] false)) sample_segment 9 = None.
Proof.
  apply (count_needs_tables 32 sample_popcount_lauradoux sample_popcount_kernighan
           (sample_finder (flags_of [1] [] false)) sample_segment 9 1).
  - lia.
  - reflexivity.
  - reflexivity.
  - simpl. lia.
Defined.

(** A run that counts primes and twins, prints the twins and reports
    its status, on the sample segment. *)
Lemma construct_then_process_witness :
  exists (f f' : PrimeNumberFinder) (tr : list event),
    new_PrimeNumberFinder 32 256 (sample_ps (flags_of [0; 1] [1] true)) = Some f /\
    segmentProcessed 32 256 30 sample_popcount_lauradoux sample_popcount_kernighan
      sample_wheel f sample_segment 9 = Some (f', tr) /\
    forall i : Z, 0 <= i <= 6 ->
      counts_ (ps_ f') !! Z.to_nat i
      = Some (if isCount (sample_ps (flags_of [0; 1] [1] true)) i
              then expected_delta 256 i sample_segment 9 else 0).
Proof.
  apply (construct_then_process 32 ltac:(lia) 256 ltac:(lia) 30
           sample_popcount_lauradoux sample_popcount_kernighan
           (sample_popcount_lauradoux_spec 32) (sample_popcount_kernighan_spec 32)
           sample_wheel (sample_ps (flags_of [0; 1] [1] true)) sample_segment 9).
  - reflexivity.
  - simpl. lia.
  - lia.
  - lia.
Defined.

(** The twins of the sample segment, modulo 2^32. *)
Lemma count_kTuplets_modular_witness :
  exists f : PrimeNumberFinder,
    new_PrimeNumberFinder 32 256 (sample_ps (flags_of [0; 1] [] false)) = Some f /\
    exists (f' : PrimeNumberFinder) (c : Z),
      count_kTuplets 32 (kCounts_ f) 1 sample_segment 9
      = Some (count_occurrences 256 1 (take (Z.to_nat 9) sample_segment) mod 2 ^ 32) /\
      count 32 sample_popcount_lauradoux sample_popcount_kernighan f sample_segment 9
      = Some f' /\
      counts_ (ps_ f) !! Z.to_nat 1 = Some c /\
      counts_ (ps_ f') !! Z.to_nat 1
      = Some (uint64_t
                (c + count_occurrences 256 1 (take (Z.to_nat 9) sample_segment) mod 2 ^ 32)).
Proof.
  destruct (new_PrimeNumberFinder_well_formed 32 ltac:(lia) 256 ltac:(lia)
              (sample_ps (flags_of [0; 1] [] false)) (sample_ps_counts_ok _))
    as (f & Hf & Hps & Hwf).
  exists f. split; [exact Hf|].
  apply (count_kTuplets_modular 32 ltac:(lia) 256
           sample_popcount_lauradoux sample_popcount_kernighan f sample_segment 9 1).
  - exact Hwf.
  - lia.
  - rewrite Hps. reflexivity.
  - simpl. lia.
Defined.

(** * Examples *)

(** The 64-bit count and Kernighan's loop on a few values. *)
Example popcount64_values :
  popcount64 0 = 0 /\ popcount64 0xffffffffffffffff = 64 /\
  popcount64 0x8000000000000001 = 2 /\ kernighan 8 0xb7 0 = 6.
Proof. vm_compute. repeat split. Qed.

(** The twin table holds 3 for the byte 0xff, 1 for 0x06 and 0 for 0x05. *)
Example twin_table_entries :
  (f ← new_PrimeNumberFinder 32 256 (sample_ps (flags_of [1] [] false));
   table ← kCounts_ f !! 1%nat;
   Some (table !! 0xff%nat, table !! 0x06%nat, table !! 0x05%nat))
  = Some (Some 3, Some 1, Some 0).
Proof. vm_compute. reflexivity. Qed.

(** A segment with the byte 0x06 at position 0 and zeros elsewhere holds
    one twin pair and two primes, and in print mode [generate] emits the
    single record of that pair. *)
Example one_twin_pair :
  (f ← new_PrimeNumberFinder 32 256 (sample_ps (flags_of [0; 1] [1] false));
   r ← segmentProcessed 32 256 30 sample_popcount_lauradoux sample_popcount_kernighan
         sample_wheel f [x06; x00; x00] 3;
   Some (counts_ (ps_ (fst r)), snd r))
  = Some ([2; 1; 0; 0; 0; 0; 0], [Cout ("(11, 13)" ++ nl)]).
Proof. vm_compute. reflexivity. Qed.

(** Printing the primes of two bytes: ascending values, each followed by a
    newline, between taking and releasing the lock. *)
Example print_primes :
  generate 256 sample_wheel (sample_finder (flags_of [] [0] false)) [x81; x02] 2
  = Some [Lock; Cout "7"; Cout nl; Cout "31"; Cout nl; Cout "41"; Cout nl; Unlock].
Proof. vm_compute. reflexivity. Qed.

(** The finder does not look at the interval of its sieve: what keeps 2,
    3 and 5 out is the start that the constructor hands to the engine.
    On a segment whose bits stand for 2, 3 and 5, which no engine hands
    over for a sieve that starts at 7, a finder whose sieve starts at 7
    counts and prints them. *)
Example finder_relies_on_the_engine :
  (f ← new_PrimeNumberFinder 32 256 (sample_ps (flags_of [0] [2] false));
   r ← segmentProcessed 32 256 30 sample_popcount_lauradoux sample_popcount_kernighan
         unsieved_wheel f [x07] 1;
   Some (start_ (base f), counts_ (ps_ (fst r)), snd r))
  = Some (7, [3; 0; 0; 0; 0; 0; 0], [Cout ("(2, 3, 5)" ++ nl)]).
Proof. vm_compute. reflexivity. Qed.
